(** * ResearchFlow session page: metrics engine and corpus handlers

    A shallow embedding of the session detail page of the frontend
    ([SessionDetailPage]): the [metricsChartData] computation, and the
    handlers that fetch, add and remove papers, submit a chat question,
    generate a draft and export a bibliography.

    Conventions of the embedding.
    - A JavaScript string is a [string]: each [ascii] is one UTF-16 code
      unit below 256 (Latin-1).  Code units above 255 are outside the model.
    - A JavaScript [Set<string>] is a duplicate-free list in insertion
      order; the React state [addedPaperIds], which is only tested for
      membership, is a [gset string].
    - A Number that only ever holds a counter is a [nat] (a counter is at
      most the length of a string, below 2^53, where doubles are exact); a
      Number that is divided, multiplied and rounded is a binary64 value,
      [spec_float] with [prec = 53] and [emax = 1024]; a citation count is
      an integer.
    - An [async] handler takes the outcome of its backend call as an
      argument and returns the next page state with the effects it issued,
      in order. *)

From Stdlib Require Import ZArith Ascii String List SpecFloat Lia.
From stdpp Require Import gmap strings list.

(** ** Code units and character classes *)

Module Char.

Definition code (c : ascii) : N := N_of_ascii c.

Definition between (lo hi : N) (c : ascii) : bool :=
  ((lo <=? code c) && (code c <=? hi))%N.

(** [a-z], [A-Z], [0-9] *)
Definition is_lower (c : ascii) : bool := between 97 122 c.
Definition is_upper (c : ascii) : bool := between 65 90 c.
Definition is_digit (c : ascii) : bool := between 48 57 c.

(** The Latin-1 capital letters U+00C0..U+00DE without U+00D7 (the
    multiplication sign); their lower-case forms are 32 code units up. *)
Definition is_latin1_upper (c : ascii) : bool :=
  between 192 222 c && negb (code c =? 215)%N.

(** One code unit of [String.prototype.toLowerCase]. *)
Definition toLowerCase (c : ascii) : ascii :=
  if is_upper c || is_latin1_upper c then ascii_of_N (code c + 32) else c.

(** The regular-expression class [\s] (white space and line terminators):
    TAB, LF, VT, FF, CR, SP and NBSP. *)
Definition is_space (c : ascii) : bool :=
  between 9 13 c || (code c =? 32)%N || (code c =? 160)%N.

(** The regular-expression class [\w]: [A-Za-z0-9_]. *)
Definition is_word (c : ascii) : bool :=
  is_lower c || is_upper c || is_digit c || (code c =? 95)%N.

Definition is_hyphen (c : ascii) : bool := (code c =? 45)%N.

(** The characters kept by [/[^a-z0-9\s-]/g]: those the negated class
    does not match. *)
Definition is_kept (c : ascii) : bool :=
  is_lower c || is_digit c || is_space c || is_hyphen c.

(** The characters a token is made of. *)
Definition is_token_char (c : ascii) : bool :=
  is_lower c || is_digit c || is_hyphen c.

(** ASCII punctuation: the printable ASCII characters that are neither
    letters, digits nor the space. *)
Definition is_punctuation (c : ascii) : bool :=
  between 33 47 c || between 58 64 c || between 91 96 c || between 123 126 c.

(** The Latin-1 small letters U+00E0..U+00FE without U+00F7 (the division
    sign), whose capitals are 32 code units down. *)
Definition is_latin1_lower (c : ascii) : bool :=
  between 224 254 c && negb (code c =? 247)%N.

(** Canonicalisation of one code unit under the [i] flag (no [u] flag):
    its upper-case form when that is a single code unit.  The capitals of
    U+00B5 and U+00FF lie above 255 and are the capital of no other code
    unit below 256, and U+00DF has none, so these three stay as they
    are. *)
Definition canonicalize (c : ascii) : ascii :=
  if is_lower c || is_latin1_lower c then ascii_of_N (code c - 32) else c.

End Char.

(** ** Strings *)

Module Str.

Fixpoint map (f : ascii → ascii) (s : string) : string :=
  match s with
  | "" => ""
  | String c s' => String (f c) (map f s')
  end.

(** [s.toLowerCase()] *)
Definition toLowerCase (s : string) : string := map Char.toLowerCase s.

(** [s.replace(/[^a-z0-9\s-]/g, ' ')] *)
Definition blank_other (s : string) : string :=
  map (λ c, if Char.is_kept c then c else " "%char) s.

(** [s.split(/\s+/)]: the fields between maximal runs of white space.
    A run at the start or at the end of [s] leaves an empty field there,
    and the empty string splits into one empty field.  [cur] is the field
    being read, reversed; [in_run] holds while the last code unit read
    was white space. *)
Fixpoint split_go (in_run : bool) (cur : string) (s : string) : list string :=
  match s with
  | "" => [String.rev cur]
  | String c s' =>
      if Char.is_space c then
        if in_run then split_go true cur s'
        else String.rev cur :: split_go true "" s'
      else split_go false (String c cur) s'
  end.

Definition split_spaces (s : string) : list string := split_go false "" s.

(** [s.trim()] *)
Fixpoint trimStart (s : string) : string :=
  match s with
  | String c s' => if Char.is_space c then trimStart s' else s
  | "" => ""
  end.

Definition trim (s : string) : string :=
  String.rev (trimStart (String.rev (trimStart s))).

(** Truthiness of a string: [!s] holds for the empty string only. *)
Definition is_empty (s : string) : bool := bool_decide (s = "").

(** [a || b] on strings *)
Definition or_else (a b : string) : string := if is_empty a then b else a.

End Str.

(** ** [Set<string>] in insertion order *)

Module JsSet.

Definition has (s : list string) (t : string) : bool := bool_decide (t ∈ s).

Definition add (s : list string) (t : string) : list string :=
  if has s t then s else s ++ [t].

(** [new Set(iterable)] *)
Definition of_list (l : list string) : list string := fold_left add l [].

End JsSet.

(** ** Data model *)

(** The value of a JSON field that should hold a count: a Number (an
    integer here), or something that is no Number. *)
Inductive JsValue : Type :=
  | JsUndefined
  | JsNull
  | JsNumber (n : Z)
  | JsString (s : string).

Record ResearchSession : Type := {
  session_id : string;
  session_title : string;
  session_topic : string;
}.

Record Paper : Type := {
  paper_id : string;
  paper_title : string;
  paper_abstract : option string;
  paper_citation_count : JsValue;
}.

(** One bar of the chart, [MetricsChartItem] without the shortened title
    (which is display text and takes no part in the metrics). *)
Record MetricsChartItem : Type := {
  item_id : string;
  item_idx : nat;
  item_title : string;
  item_citations : Z;
  item_relevance : nat;
  item_relevanceScore : spec_float;
  item_keywordHits : nat;
}.

(** The entries of [rawPoints]. *)
Record RawPoint : Type := {
  raw_id : string;
  raw_title : string;
  raw_citations : Z;
  raw_relevance : nat;
  raw_keywordHits : nat;
}.

(** ** Numbers that are divided and rounded: binary64 *)

Module Num.

Definition prec : Z := 53.
Definition emax : Z := 1024.

(** The double nearest to an integer; exact below 2^53. *)
Definition of_Z (z : Z) : spec_float := binary_normalize prec emax z 0 false.
Definition of_nat (n : nat) : spec_float := of_Z (Z.of_nat n).

Definition div : spec_float → spec_float → spec_float := SFdiv prec emax.
Definition mul : spec_float → spec_float → spec_float := SFmul prec emax.

(** [Math.round]: the integer nearest to [x], a tie going to the one
    closer to plus infinity, that is the floor of [x + 1/2] taken
    exactly; a zero result keeps the sign of [x], and a NaN, an infinity
    or a value that is an integer already is returned as it is. *)
Definition round (x : spec_float) : spec_float :=
  match x with
  | S754_finite s m e =>
      if (0 <=? e)%Z then x
      else
        let k := ((2 * cond_Zopp s (Z.pos m) + 2 ^ (- e)) / 2 ^ (1 - e))%Z in
        if (k =? 0)%Z then S754_zero s else of_Z k
  | _ => x
  end.

End Num.

(** ** Tokens *)

(** [tokenize] of [metricsChartData]. *)
Definition tokenize (text : string) : list string :=
  if Str.is_empty text then []
  else
    JsSet.of_list
      (filter (λ t, 4 ≤ String.length t)
         (Str.split_spaces (Str.blank_other (Str.toLowerCase text)))).

Definition topicText (s : ResearchSession) : string :=
  Str.toLowerCase
    (Str.or_else (session_title s) "" +:+ " " +:+ Str.or_else (session_topic s) "").

Definition paperText (p : Paper) : string :=
  Str.toLowerCase
    (Str.or_else (paper_title p) "" +:+ " " +:+
     Str.or_else (default "" (paper_abstract p)) "").

(** ** The regular expression [new RegExp(`\\b${t}\\b`, 'gi')]

    A token is made of [a-z], [0-9] and [-] only ([tokenize_token_chars]
    below), none of which is a pattern metacharacter outside a class, so
    the pattern is the literal [t] between two word-boundary assertions. *)

Module Regex.

(** Is the code unit at index [i] a word character?  There is none
    outside the string. *)
Definition is_word_at (text : string) (i : nat) : bool :=
  match String.get i text with
  | Some c => Char.is_word c
  | None => false
  end.

(** The assertion [\\b] of that pattern, at index [i]: exactly one of the
    code units at [i - 1] and [i] is a word character. *)
Definition word_boundary (text : string) (i : nat) : bool :=
  xorb (match i with 0 => false | S j => is_word_at text j end)
       (is_word_at text i).

(** The literal [t] at index [i], code units compared under the [i]
    flag. *)
Fixpoint literal_at (t text : string) (i : nat) : bool :=
  match t with
  | "" => true
  | String c t' =>
      match String.get i text with
      | Some d =>
          bool_decide (Char.canonicalize c = Char.canonicalize d)
          && literal_at t' text (S i)
      | None => false
      end
  end.

(** The whole pattern matched at index [i]. *)
Definition matches_at (t text : string) (i : nat) : bool :=
  word_boundary text i && literal_at t text i
  && word_boundary text (i + String.length t).

(** [text.match(regex)] with the [g] flag: starting with [lastIndex = 0],
    the first index at or after [lastIndex] where the pattern matches is
    found, the match is collected and [lastIndex] moves to its end (one
    further when the match is empty), until [lastIndex] passes the end of
    the text.  The result is the number of matches collected ([null],
    counted as 0 by the caller, when there is none).  Every round moves
    [lastIndex] forward, so [S (length text)] rounds are enough
    ([match_count_fuel]). *)
Fixpoint match_count (fuel : nat) (t text : string) (lastIndex : nat) : nat :=
  match fuel with
  | 0 => 0
  | S fuel' =>
      if bool_decide (String.length text < lastIndex) then 0
      else if matches_at t text lastIndex then
        S (match_count fuel' t text
             (lastIndex + Nat.max 1 (String.length t)))
      else match_count fuel' t text (S lastIndex)
  end.

Definition match_all (t text : string) : nat :=
  match_count (S (String.length text)) t text 0.

End Regex.

(** ** [metricsChartData] *)

(** The first [forEach]: [relevance++] for each topic token the paper's
    token set has. *)
Definition relevance (topicTokens paperTokens : list string) : nat :=
  fold_left
    (λ relevance t, if JsSet.has paperTokens t then S relevance else relevance)
    topicTokens 0.

(** The second [forEach]: [keywordHits += matches.length] for each topic
    token. *)
Definition keywordHits (topicTokens : list string) (text : string) : nat :=
  fold_left (λ keywordHits t, keywordHits + Regex.match_all t text)
    topicTokens 0.

(** [typeof c === 'number' && c > 0 ? c : 0] *)
Definition citations (p : Paper) : Z :=
  match paper_citation_count p with
  | JsNumber n => if (0 <? n)%Z then n else 0%Z
  | _ => 0%Z
  end.

(** The body of the loop over [papers]. *)
Definition rawPoint (topicTokens : list string) (p : Paper) : RawPoint :=
  let text := paperText p in
  let paperTokens := tokenize text in
  {| raw_id := paper_id p;
     raw_title := paper_title p;
     raw_citations := citations p;
     raw_relevance := relevance topicTokens paperTokens;
     raw_keywordHits := keywordHits topicTokens text |}.

(** [rawPoints.reduce((m, p) => Math.max(m, p.relevance), 0) || 1] *)
Definition maxRelevance (rawPoints : list RawPoint) : nat :=
  let m := fold_left (λ m p, Nat.max m (raw_relevance p)) rawPoints 0 in
  if m =? 0 then 1 else m.

(** [Math.round((p.relevance / maxRelevance) * 100)] *)
Definition relevanceScore (relevance maxRelevance : nat) : spec_float :=
  Num.round
    (Num.mul (Num.div (Num.of_nat relevance) (Num.of_nat maxRelevance))
       (Num.of_nat 100)).

Definition chartItem (maxRelevance : nat) (index : nat) (p : RawPoint)
  : MetricsChartItem :=
  {| item_id := raw_id p;
     item_idx := index + 1;
     item_title := raw_title p;
     item_citations := raw_citations p;
     item_relevance := raw_relevance p;
     item_keywordHits := raw_keywordHits p;
     item_relevanceScore := relevanceScore (raw_relevance p) maxRelevance |}.

Definition metricsChartData (session : option ResearchSession)
    (papers : list Paper) : list MetricsChartItem :=
  match session with
  | None => []
  | Some s =>
      if bool_decide (papers = []) then []
      else
        let topicTokens := tokenize (topicText s) in
        let rawPoints := rawPoint topicTokens <$> papers in
        if bool_decide (rawPoints = []) then []
        else
          let maxRelevance := maxRelevance rawPoints in
          imap (chartItem maxRelevance) rawPoints
  end.

(** ** Page state and handlers *)

Inductive Role : Type := user | assistant.

Record ChatMessage : Type := {
  role : Role;
  content : string;
}.

Inductive DraftStyle : Type := summary | literature_review.
Inductive BibliographyStyle : Type := bibtex | apa | mla | ieee.
Inductive Tab : Type := sources | chat | draft | metrics.

(** The [useState] cells of the page that the handlers below read or
    write, and the session id taken from the route. *)
Record PageState : Type := {
  sessionId : string;
  session : option ResearchSession;
  papers : list Paper;
  addedPaperIds : gset string;
  addingPaper : option string;
  removingPaper : option string;
  chatInput : string;
  chatMessages : list ChatMessage;
  chatLoading : bool;
  draftContent : string;
  draftLoading : bool;
  draftStyle : DraftStyle;
  bibStyle : BibliographyStyle;
  bibLoading : bool;
  activeTab : Tab;
}.

(** The state setters; each takes the updater function, as
    [setPapers((prev) => ...)] does. *)
Section Setters.
Variable st : PageState.

Definition setPapers (f : list Paper → list Paper) : PageState :=
  {| sessionId := sessionId st; session := session st;
     papers := f (papers st); addedPaperIds := addedPaperIds st;
     addingPaper := addingPaper st; removingPaper := removingPaper st;
     chatInput := chatInput st; chatMessages := chatMessages st;
     chatLoading := chatLoading st; draftContent := draftContent st;
     draftLoading := draftLoading st; draftStyle := draftStyle st;
     bibStyle := bibStyle st; bibLoading := bibLoading st;
     activeTab := activeTab st |}.

Definition setAddedPaperIds (f : gset string → gset string) : PageState :=
  {| sessionId := sessionId st; session := session st;
     papers := papers st; addedPaperIds := f (addedPaperIds st);
     addingPaper := addingPaper st; removingPaper := removingPaper st;
     chatInput := chatInput st; chatMessages := chatMessages st;
     chatLoading := chatLoading st; draftContent := draftContent st;
     draftLoading := draftLoading st; draftStyle := draftStyle st;
     bibStyle := bibStyle st; bibLoading := bibLoading st;
     activeTab := activeTab st |}.

Definition setAddingPaper (v : option string) : PageState :=
  {| sessionId := sessionId st; session := session st;
     papers := papers st; addedPaperIds := addedPaperIds st;
     addingPaper := v; removingPaper := removingPaper st;
     chatInput := chatInput st; chatMessages := chatMessages st;
     chatLoading := chatLoading st; draftContent := draftContent st;
     draftLoading := draftLoading st; draftStyle := draftStyle st;
     bibStyle := bibStyle st; bibLoading := bibLoading st;
     activeTab := activeTab st |}.

Definition setRemovingPaper (v : option string) : PageState :=
  {| sessionId := sessionId st; session := session st;
     papers := papers st; addedPaperIds := addedPaperIds st;
     addingPaper := addingPaper st; removingPaper := v;
     chatInput := chatInput st; chatMessages := chatMessages st;
     chatLoading := chatLoading st; draftContent := draftContent st;
     draftLoading := draftLoading st; draftStyle := draftStyle st;
     bibStyle := bibStyle st; bibLoading := bibLoading st;
     activeTab := activeTab st |}.

Definition setChatInput (v : string) : PageState :=
  {| sessionId := sessionId st; session := session st;
     papers := papers st; addedPaperIds := addedPaperIds st;
     addingPaper := addingPaper st; removingPaper := removingPaper st;
     chatInput := v; chatMessages := chatMessages st;
     chatLoading := chatLoading st; draftContent := draftContent st;
     draftLoading := draftLoading st; draftStyle := draftStyle st;
     bibStyle := bibStyle st; bibLoading := bibLoading st;
     activeTab := activeTab st |}.

Definition setChatMessages (f : list ChatMessage → list ChatMessage)
  : PageState :=
  {| sessionId := sessionId st; session := session st;
     papers := papers st; addedPaperIds := addedPaperIds st;
     addingPaper := addingPaper st; removingPaper := removingPaper st;
     chatInput := chatInput st; chatMessages := f (chatMessages st);
     chatLoading := chatLoading st; draftContent := draftContent st;
     draftLoading := draftLoading st; draftStyle := draftStyle st;
     bibStyle := bibStyle st; bibLoading := bibLoading st;
     activeTab := activeTab st |}.

Definition setChatLoading (v : bool) : PageState :=
  {| sessionId := sessionId st; session := session st;
     papers := papers st; addedPaperIds := addedPaperIds st;
     addingPaper := addingPaper st; removingPaper := removingPaper st;
     chatInput := chatInput st; chatMessages := chatMessages st;
     chatLoading := v; draftContent := draftContent st;
     draftLoading := draftLoading st; draftStyle := draftStyle st;
     bibStyle := bibStyle st; bibLoading := bibLoading st;
     activeTab := activeTab st |}.

Definition setDraftContent (v : string) : PageState :=
  {| sessionId := sessionId st; session := session st;
     papers := papers st; addedPaperIds := addedPaperIds st;
     addingPaper := addingPaper st; removingPaper := removingPaper st;
     chatInput := chatInput st; chatMessages := chatMessages st;
     chatLoading := chatLoading st; draftContent := v;
     draftLoading := draftLoading st; draftStyle := draftStyle st;
     bibStyle := bibStyle st; bibLoading := bibLoading st;
     activeTab := activeTab st |}.

Definition setDraftLoading (v : bool) : PageState :=
  {| sessionId := sessionId st; session := session st;
     papers := papers st; addedPaperIds := addedPaperIds st;
     addingPaper := addingPaper st; removingPaper := removingPaper st;
     chatInput := chatInput st; chatMessages := chatMessages st;
     chatLoading := chatLoading st; draftContent := draftContent st;
     draftLoading := v; draftStyle := draftStyle st;
     bibStyle := bibStyle st; bibLoading := bibLoading st;
     activeTab := activeTab st |}.

Definition setBibLoading (v : bool) : PageState :=
  {| sessionId := sessionId st; session := session st;
     papers := papers st; addedPaperIds := addedPaperIds st;
     addingPaper := addingPaper st; removingPaper := removingPaper st;
     chatInput := chatInput st; chatMessages := chatMessages st;
     chatLoading := chatLoading st; draftContent := draftContent st;
     draftLoading := draftLoading st; draftStyle := draftStyle st;
     bibStyle := bibStyle st; bibLoading := v;
     activeTab := activeTab st |}.

Definition setActiveTab (v : Tab) : PageState :=
  {| sessionId := sessionId st; session := session st;
     papers := papers st; addedPaperIds := addedPaperIds st;
     addingPaper := addingPaper st; removingPaper := removingPaper st;
     chatInput := chatInput st; chatMessages := chatMessages st;
     chatLoading := chatLoading st; draftContent := draftContent st;
     draftLoading := draftLoading st; draftStyle := draftStyle st;
     bibStyle := bibStyle st; bibLoading := bibLoading st;
     activeTab := v |}.
End Setters.

(** The page as first rendered: every [useState] at its initial value. *)
Definition initialState (sid : string) : PageState :=
  {| sessionId := sid; session := None; papers := []; addedPaperIds := ∅;
     addingPaper := None; removingPaper := None; chatInput := "";
     chatMessages := []; chatLoading := false; draftContent := "";
     draftLoading := false; draftStyle := literature_review;
     bibStyle := bibtex; bibLoading := false; activeTab := sources |}.

(** A request sent to the backend ([api]) or to the store ([supabase]). *)
Inductive Request : Type :=
  | SelectSessionPapers (session_id : string)
      (* session_papers.select(...).eq('session_id', ...) *)
  | AddToSession (session_id : string) (paper : Paper)
      (* POST /sources/add-to-session *)
  | DeleteSessionPaper (session_id paper_id : string)
      (* session_papers.delete() *)
  | RagChat (session_id question : string)
      (* POST /rag/chat *)
  | DraftGenerate (session_id : string) (style : DraftStyle)
      (* POST /draft/generate *)
  | DraftBibliography (session_id : string) (style : BibliographyStyle).
      (* GET /draft/bibliography *)

(** What a handler does to the world outside the page state. *)
Inductive Effect : Type :=
  | Send (r : Request)
  | Alert (msg : string)
  | Confirm (msg : string)
  | ConsoleError (label : string)
  | Download (extension text : string).

Definition is_request (e : Effect) : bool :=
  match e with Send _ => true | _ => false end.

(** How an awaited call ends: with its payload, or by throwing an error
    whose [response?.data?.detail] may be missing. *)
Inductive Outcome (A : Type) : Type :=
  | Resolved (a : A)
  | Rejected (detail : option string).
Arguments Resolved {A} a.
Arguments Rejected {A} detail.

(** [detail || fallback] *)
Definition detail_or (detail : option string) (fallback : string) : string :=
  Str.or_else (default "" detail) fallback.

(** [response] carries the [papers] field of every row, [None] where it
    is missing: [data?.map((item) => item.papers).filter(Boolean) || []]. *)
Definition fetchPapers (response : Outcome (list (option Paper)))
    (st : PageState) : PageState * list Effect :=
  let request := Send (SelectSessionPapers (sessionId st)) in
  match response with
  | Resolved data =>
      let papersList := omap (λ item, item) data in
      let st := setPapers st (λ _, papersList) in
      let st :=
        setAddedPaperIds st (λ _, list_to_set (paper_id <$> papersList)) in
      (st, [request])
  | Rejected _ => (st, [request; ConsoleError "Error fetching papers:"])
  end.

(** The updater [(prev) => prev.some((p) => p.id === paper.id) ? prev :
    [paper, ...prev]] of [handleAddPaper]. *)
Definition addPaperUpdater (paper : Paper) (prev : list Paper) : list Paper :=
  if existsb (λ p, bool_decide (paper_id p = paper_id paper)) prev then prev
  else paper :: prev.

Definition handleAddPaper (paper : Paper) (response : Outcome ())
    (st : PageState) : PageState * list Effect :=
  if bool_decide (paper_id paper ∈ addedPaperIds st)
     || bool_decide (addingPaper st = Some (paper_id paper))
  then (st, [])
  else
    let st := setAddingPaper st (Some (paper_id paper)) in
    let request := Send (AddToSession (sessionId st) paper) in
    match response with
    | Resolved _ =>
        let st := setPapers st (addPaperUpdater paper) in
        let st := setAddedPaperIds st (λ prev, prev ∪ {[paper_id paper]}) in
        (setAddingPaper st None, [request])
    | Rejected detail =>
        (setAddingPaper st None,
         [request; ConsoleError "Error adding paper:";
          Alert (detail_or detail "Failed to add paper")])
    end.

(** [confirmed] is the answer to the [confirm] dialog; [response] is the
    [error] field of the store's reply, [Rejected] when it is set. *)
Definition handleRemovePaper (paperId : string) (confirmed : bool)
    (response : Outcome ()) (st : PageState) : PageState * list Effect :=
  let dialog := Confirm "Remove this paper from My Sources?" in
  if negb confirmed then (st, [dialog])
  else
    let st := setRemovingPaper st (Some paperId) in
    let request := Send (DeleteSessionPaper (sessionId st) paperId) in
    match response with
    | Resolved _ =>
        let st :=
          setPapers st
            (λ prev, filter (λ p, paper_id p ≠ paperId) prev) in
        let st := setAddedPaperIds st (λ prev, prev ∖ {[paperId]}) in
        (setRemovingPaper st None, [dialog; request])
    | Rejected _ =>
        (setRemovingPaper st None,
         [dialog; request; ConsoleError "Error removing paper:";
          Alert "Failed to remove paper from session"])
    end.

Definition handleChatSubmit (response : Outcome string) (st : PageState)
  : PageState * list Effect :=
  if Str.is_empty (Str.trim (chatInput st)) then (st, [])
  else
    let question := Str.trim (chatInput st) in
    let st :=
      setChatMessages st
        (λ prev, prev ++ [{| role := user; content := question |}]) in
    let st := setChatInput st "" in
    let st := setChatLoading st true in
    let request := Send (RagChat (sessionId st) question) in
    match response with
    | Resolved answer =>
        let st :=
          setChatMessages st
            (λ prev, prev ++ [{| role := assistant; content := answer |}]) in
        (setChatLoading st false, [request])
    | Rejected detail =>
        let msg := detail_or detail "Failed to get answer" in
        let st :=
          setChatMessages st
            (λ prev,
               prev ++ [{| role := assistant; content := "Error: " +:+ msg |}]) in
        (setChatLoading st false, [request; ConsoleError "Chat error:"])
    end.

(** [response] carries [res.data.content]. *)
Definition handleGenerateDraft (response : Outcome string) (st : PageState)
  : PageState * list Effect :=
  if bool_decide (length (papers st) = 0) then
    (st, [Alert "Add some sources to this session before generating a draft."])
  else
    let st := setDraftLoading st true in
    let request := Send (DraftGenerate (sessionId st) (draftStyle st)) in
    match response with
    | Resolved content =>
        let st := setDraftContent st (Str.or_else content "") in
        let st := setActiveTab st draft in
        (setDraftLoading st false, [request])
    | Rejected detail =>
        (setDraftLoading st false,
         [request; ConsoleError "Draft generation error:";
          Alert (detail_or detail "Failed to generate draft. Please try again.")])
    end.

(** [response] carries [res.data?.text]; the name of the downloaded file
    (session title and date) is left out of the [Download] effect. *)
Definition handleExportBibliography (response : Outcome string)
    (st : PageState) : PageState * list Effect :=
  if bool_decide (length (papers st) = 0) then
    (st, [Alert "Add some sources to this session before exporting references."])
  else
    let st := setBibLoading st true in
    let request := Send (DraftBibliography (sessionId st) (bibStyle st)) in
    match response with
    | Resolved data =>
        let text := Str.or_else data "" in
        if Str.is_empty (Str.trim text) then
          (setBibLoading st false,
           [request; Alert "No references available for this session yet."])
        else
          let ext := match bibStyle st with bibtex => "bib" | _ => "txt" end in
          (setBibLoading st false, [request; Download ext text])
    | Rejected detail =>
        (setBibLoading st false,
         [request; ConsoleError "Bibliography export error:";
          Alert (detail_or detail "Failed to export references. Please try again.")])
    end.

(** The [disabled] attribute of the three buttons. *)
Definition chatSubmitDisabled (st : PageState) : bool :=
  chatLoading st || Str.is_empty (Str.trim (chatInput st))
  || bool_decide (length (papers st) = 0).

Definition generateDraftDisabled (st : PageState) : bool :=
  draftLoading st || bool_decide (length (papers st) = 0).

Definition exportRefsDisabled (st : PageState) : bool :=
  bibLoading st || bool_decide (length (papers st) = 0).

(** The chat form is submitted through its only submit button, by a click
    on it or by Enter in the text field; while that button is disabled the
    browser submits nothing and [handleChatSubmit] does not run. *)
Definition submitChatForm (response : Outcome string) (st : PageState)
  : PageState * list Effect :=
  if chatSubmitDisabled st then (st, []) else handleChatSubmit response st.

(** A run of add-paper operations, each with the outcome of its request. *)
Definition addPapers (ops : list (Paper * Outcome ())) (st : PageState)
  : PageState :=
  fold_left (λ st op, (handleAddPaper op.1 op.2 st).1) ops st.

(** ** What the specification says, in its own words *)

Module Spec.

(** The set of tokens of a text. *)
Definition token_set (text : string) : gset string :=
  list_to_set (tokenize text).

(** "count of distinct topic tokens also present in the paper's token set
    (set intersection size)" *)
Definition relevance (s : ResearchSession) (p : Paper) : nat :=
  size (token_set (topicText s) ∩ token_set (paperText p)).

Definition chars (t : string) : list ascii := list_ascii_of_string t.

(** "stripping punctuation": no token holds a punctuation character. *)
Definition punctuation_stripped (tokens : list string) : Prop :=
  ∀ t c, t ∈ tokens → c ∈ chars t → Char.is_punctuation c = false.

(** What the tokens are made of: at least four code units, each a
    lower-case letter, a digit or a hyphen. *)
Definition token_shape (t : string) : Prop :=
  4 ≤ String.length t ∧ ∀ c, c ∈ chars t → Char.is_token_char c = true.

(** "as a whole-word match": a word character, in the usual sense of a
    whole-word search, is a letter, a digit or the underscore (ASCII, as
    the tokens are). *)
Definition word_char (c : ascii) : bool :=
  Char.is_lower c || Char.is_upper c || Char.is_digit c
  || (Char.code c =? 95)%N.

(** The token stands in the text at index [i]: the code units of the
    text from [i] on are those of the token. *)
Definition stands_at (t text : string) (i : nat) : bool :=
  bool_decide (take (String.length t) (drop i (chars text)) = chars t).

(** The code unit just before index [i], if there is one. *)
Definition before (text : string) (i : nat) : option ascii :=
  match i with 0 => None | S j => chars text !! j end.

(** No word goes on across this place: the text ends here, or the code
    unit here is no word character. *)
Definition word_ends (c : option ascii) : bool :=
  match c with Some c => negb (word_char c) | None => true end.

(** "occurrence of a topic token as a whole-word match": the token stands
    at index [i] and is no part of a longer word there. *)
Definition occurs_at (t text : string) (i : nat) : bool :=
  stands_at t text i && word_ends (before text i)
  && word_ends (chars text !! (i + String.length t)).

(** "total occurrences (not distinct)": every index at which the token
    occurs counts. *)
Definition occurrence_indices (t text : string) : list nat :=
  filter (λ i, occurs_at t text i = true) (seq 0 (S (String.length text))).

Definition occurrences (t text : string) : nat :=
  length (occurrence_indices t text).

Definition total_occurrences (tokens : list string) (text : string) : nat :=
  sum_list_with (λ t, occurrences t text) tokens.

(** A token without a hyphen: word characters only. *)
Definition hyphen_free (t : string) : Prop :=
  ∀ c, c ∈ chars t → Char.is_word c = true.

(** A double in the interval from 0 to the integer [B], written with a
    negative exponent: [+0], or [m * 2^e] with [m * 2^e <= B]. *)
Definition within (B : Z) (x : spec_float) : Prop :=
  match x with
  | S754_zero false => True
  | S754_finite false m e => (e < 0 ∧ Z.pos m ≤ B * 2 ^ (- e))%Z
  | _ => False
  end.

(** A shifted mantissa that has lost no set bit. *)
Definition exact_record (r : shr_record) : Prop :=
  shr_r r = false ∧ shr_s r = false.

(** How far above its truncation a located value may be rounded. *)
Definition room (l : location) : Z :=
  match l with loc_Exact => 0 | loc_Inexact _ => 1 end.

(** Every code unit there is, for checks by enumeration. *)
Definition all_ascii : list ascii := ascii_of_nat <$> seq 0 256.

(** "round(100 x relevance / max)", computed exactly: the integer nearest
    to the quotient, a tie going up. *)
Definition relevanceScore (relevance max : nat) : Z :=
  ((2 * (100 * Z.of_nat relevance) + Z.of_nat max) / (2 * Z.of_nat max))%Z.

(** "citations = stored citation_count, clamped to >= 0" *)
Definition citations (p : Paper) : Z :=
  match paper_citation_count p with
  | JsNumber n => Z.max 0 n
  | _ => 0%Z
  end.

(** "history still records the user's question but not a synthetic
    answer": after the failed call the history is the one before with
    the question [q] appended, and nothing else. *)
Definition question_only (before after : list ChatMessage) (q : string)
  : Prop :=
  after = before ++ [{| role := user; content := q |}].

(** No two papers of the list share an id. *)
Definition unique_ids (l : list Paper) : Prop := NoDup (paper_id <$> l).

End Spec.

(** ** The global search, index by index

    What [text.match(regex)] with the [g] flag collects, told through the
    indices at which the pattern matches: a description of [Regex.match_all]
    that the proofs go through. *)

Module Scan.

(** The pattern matches at index [i]. *)
Definition match_at (t text : string) (i : nat) : Prop :=
  Regex.matches_at t text i = true.

#[global] Instance match_at_dec (t text : string) (i : nat) :
  Decision (match_at t text i) :=
  decide (Regex.matches_at t text i = true).

Definition match_indices (t text : string) : list nat :=
  filter (match_at t text) (seq 0 (S (String.length text))).

(** The length of a match of [t], or 1 for an empty one: how far the
    search moves on after a match. *)
Definition width (t : string) : nat := Nat.max 1 (String.length t).

(** The matches the search collects: going through the indices from the
    left, a match is kept when it starts at or after [next], the end of
    the last one kept. *)
Fixpoint keep_disjoint (width next : nat) (indices : list nat) : nat :=
  match indices with
  | [] => 0
  | i :: rest =>
      if bool_decide (next ≤ i)
      then S (keep_disjoint width (i + width) rest)
      else keep_disjoint width next rest
  end.

Definition disjoint_matches (t text : string) : nat :=
  keep_disjoint (width t) 0 (match_indices t text).

End Scan.

(** ** Sample sessions and papers *)

Module Sample.

Definition no_count_paper (i t : string) : Paper :=
  {| paper_id := i; paper_title := t; paper_abstract := None;
     paper_citation_count := JsUndefined |}.

(** The session and the two papers of the metrics example. *)
Definition session_ml : ResearchSession :=
  {| session_id := "s1"; session_title := "";
     session_topic := "machine learning diagnostics" |}.

Definition session_ml_titled : ResearchSession :=
  {| session_id := "s1"; session_title := "machine learning diagnostics";
     session_topic := "machine learning diagnostics" |}.

Definition paper_A : Paper :=
  {| paper_id := "A"; paper_title := "Machine Learning for Diagnostics";
     paper_abstract := Some ""; paper_citation_count := JsNumber 50 |}.

Definition paper_B : Paper :=
  {| paper_id := "B"; paper_title := "Cooking Recipes";
     paper_abstract := Some ""; paper_citation_count := JsNumber 5 |}.

(** A topic of forty distinct words, a paper that has all of them and a
    paper that has the first twenty-three. *)
Definition twenty_three_words : string :=
  "machine learning diagnostics medical imaging neural network deep "
  +:+ "convolutional transformer attention radiology pathology clinical "
  +:+ "decision support classification segmentation detection prediction "
  +:+ "screening cancer tumor".

Definition forty_words : string :=
  twenty_three_words
  +:+ " lesion biomarker genomics proteomics wearable sensor signal "
  +:+ "processing feature extraction transfer federated privacy "
  +:+ "explainable robustness calibration uncertainty".

Definition session_forty : ResearchSession :=
  {| session_id := "s2"; session_title := "Machine Learning Diagnostics";
     session_topic := forty_words |}.

Definition paper_forty : Paper := no_count_paper "P40" forty_words.
Definition paper_twenty_three : Paper :=
  no_count_paper "P23" twenty_three_words.

(** A hyphenated topic and a title in which it overlaps itself. *)
Definition session_e2e : ResearchSession :=
  {| session_id := "s3"; session_title := "";
     session_topic := "end-to-end" |}.

Definition paper_e2e : Paper := no_count_paper "E" "End-to-end-to-end".

Definition session_plain : ResearchSession :=
  {| session_id := "s4"; session_title := "Deep learning";
     session_topic := "deep neural networks" |}.

Definition paper_plain : Paper :=
  {| paper_id := "D"; paper_title := "Deep Learning: a deep dive";
     paper_abstract := Some "Neural networks, deep ones (DEEP!), deeper.";
     paper_citation_count := JsNumber (-3) |}.

(** A topic with a token that ends in a hyphen, and a paper under the
    same words. *)
Definition session_care : ResearchSession :=
  {| session_id := "s6"; session_title := "";
     session_topic := "pre- and post-operative care" |}.

Definition paper_care : Paper :=
  no_count_paper "C" "Pre- and post-operative care".

(** A hyphenated title. *)
Definition paper_sota : Paper :=
  no_count_paper "H" "State-of-the-Art Diagnostics".

Definition session_sota : ResearchSession :=
  {| session_id := "s5"; session_title := "";
     session_topic := "state of the art diagnostics" |}.

(** A page that shows the papers [l], all added, with [input] typed into
    the chat field. *)
Definition page_with (l : list Paper) (input : string) : PageState :=
  {| sessionId := "s1"; session := Some session_ml; papers := l;
     addedPaperIds := list_to_set (paper_id <$> l);
     addingPaper := None; removingPaper := None; chatInput := input;
     chatMessages := []; chatLoading := false; draftContent := "";
     draftLoading := false; draftStyle := literature_review;
     bibStyle := bibtex; bibLoading := false; activeTab := sources |}.

End Sample.

(** * More of the session page, the dashboard and the onboarding *)

(** ** Comparing doubles for identity *)

Module NumEq.

(** Structural identity of two doubles (so [+0] and [-0] differ), as a
    boolean. *)
Definition eqb (x y : spec_float) : bool :=
  match x, y with
  | S754_zero s, S754_zero s' => Bool.eqb s s'
  | S754_infinity s, S754_infinity s' => Bool.eqb s s'
  | S754_nan, S754_nan => true
  | S754_finite s m e, S754_finite s' m' e' =>
      Bool.eqb s s' && Pos.eqb m m' && Z.eqb e e'
  | _, _ => false
  end.

(** The score of every relevance up to every largest relevance below
    [bound] is the exactly rounded percentage. *)
Definition exact_below (bound : nat) : bool :=
  forallb
    (λ m, forallb
       (λ r, eqb (relevanceScore r m) (Num.of_Z (Spec.relevanceScore r m)))
       (seq 0 (S m)))
    (seq 1 (bound - 1)).

End NumEq.

(** ** Texts that differ in letter case only *)

Definition same_text (p q : Paper) : Prop :=
  Str.toLowerCase (paper_title p) = Str.toLowerCase (paper_title q)
  ∧ Str.toLowerCase (default "" (paper_abstract p))
    = Str.toLowerCase (default "" (paper_abstract q)).

Definition same_topic (s s' : ResearchSession) : Prop :=
  Str.toLowerCase (session_title s) = Str.toLowerCase (session_title s')
  ∧ Str.toLowerCase (session_topic s) = Str.toLowerCase (session_topic s').

(** ** Shortened titles and file names *)

Module Text.

(** [s.trimEnd()] *)
Definition trimEnd (s : string) : string :=
  String.rev (Str.trimStart (String.rev s)).

(** [s.slice(0, n)] *)
Fixpoint slice (n : nat) (s : string) : string :=
  match n, s with
  | S n', String c s' => String c (slice n' s')
  | _, _ => ""
  end.

End Text.

(** The shortened title of a bar,
    [title.length > 24 ? title.slice(0, 21).trimEnd() + '…' : title].
    The ellipsis U+2026 is no Latin-1 code unit, so a shortened title is
    kept as the text before the ellipsis and whether the ellipsis is
    there. *)
Record ShortTitle : Type := {
  short_text : string;
  short_ellipsis : bool;
}.

Definition shortTitle (title : string) : ShortTitle :=
  if bool_decide (24 < String.length title)
  then {| short_text := Text.trimEnd (Text.slice 21 title);
          short_ellipsis := true |}
  else {| short_text := title; short_ellipsis := false |}.

(** The number of code units of a shortened title. *)
Definition short_length (t : ShortTitle) : nat :=
  String.length (short_text t) + (if short_ellipsis t then 1 else 0).

(** The class [[^a-z0-9\-]] under the [i] flag: a code unit is outside the
    negated class, and so is kept, when it equals a member of [a-z0-9\-]
    up to canonicalisation. *)
Definition is_safe (c : ascii) : bool :=
  existsb
    (λ a, (Char.is_lower a || Char.is_digit a || Char.is_hyphen a)
          && bool_decide (Char.canonicalize a = Char.canonicalize c))
    Spec.all_ascii.

(** [s.replace(/[^a-z0-9\-]+/gi, '-')]: every maximal run of code units of
    the class becomes one hyphen.  [in_run] holds while the last code unit
    read was of the class. *)
Fixpoint replace_unsafe (in_run : bool) (s : string) : string :=
  match s with
  | "" => ""
  | String c s' =>
      if is_safe c then String c (replace_unsafe false s')
      else if in_run then replace_unsafe true s'
      else String "-" (replace_unsafe true s')
  end.

(** [(session?.title || 'session').replace(/[^a-z0-9\-]+/gi, '-').slice(0, 40)],
    the stem of the name of a downloaded file.  A missing session and an
    empty title both give ['session']. *)
Definition safeTitle (session : option ResearchSession) : string :=
  Text.slice 40
    (replace_unsafe false
       (Str.or_else (from_option session_title "" session) "session")).

(** ** Tokens and texts on which the two counts agree *)

(** A token that neither starts nor ends with a hyphen. *)
Definition no_outer_hyphen (t : string) : Prop :=
  ∀ c, head (Spec.chars t) = Some c ∨ last (Spec.chars t) = Some c →
       Char.is_hyphen c = false.

(** A text without the underscore, the one word character that
    [tokenize] replaces by a space. *)
Definition no_underscore (text : string) : Prop :=
  ∀ c, c ∈ Spec.chars text → c ≠ "_"%char.

(** ** More of the session page: buttons, handlers and setters *)

(** The add button of a paper card, [disabled={isAdded || isAdding}]. *)
Definition isAdded (st : PageState) (paper : Paper) : bool :=
  bool_decide (paper_id paper ∈ addedPaperIds st).

Definition isAdding (st : PageState) (paper : Paper) : bool :=
  bool_decide (addingPaper st = Some (paper_id paper)).

Definition addButtonDisabled (st : PageState) (paper : Paper) : bool :=
  isAdded st paper || isAdding st paper.

(** The download button of the draft, [disabled={!draftContent.trim()}]. *)
Definition downloadDraftDisabled (st : PageState) : bool :=
  Str.is_empty (Str.trim (draftContent st)).

Definition setDraftStyle (st : PageState) (v : DraftStyle) : PageState :=
  {| sessionId := sessionId st; session := session st;
     papers := papers st; addedPaperIds := addedPaperIds st;
     addingPaper := addingPaper st; removingPaper := removingPaper st;
     chatInput := chatInput st; chatMessages := chatMessages st;
     chatLoading := chatLoading st; draftContent := draftContent st;
     draftLoading := draftLoading st; draftStyle := v;
     bibStyle := bibStyle st; bibLoading := bibLoading st;
     activeTab := activeTab st |}.

Definition setBibStyle (st : PageState) (v : BibliographyStyle) : PageState :=
  {| sessionId := sessionId st; session := session st;
     papers := papers st; addedPaperIds := addedPaperIds st;
     addingPaper := addingPaper st; removingPaper := removingPaper st;
     chatInput := chatInput st; chatMessages := chatMessages st;
     chatLoading := chatLoading st; draftContent := draftContent st;
     draftLoading := draftLoading st; draftStyle := draftStyle st;
     bibStyle := v; bibLoading := bibLoading st;
     activeTab := activeTab st |}.

Definition setSession (st : PageState) (v : option ResearchSession)
  : PageState :=
  {| sessionId := sessionId st; session := v;
     papers := papers st; addedPaperIds := addedPaperIds st;
     addingPaper := addingPaper st; removingPaper := removingPaper st;
     chatInput := chatInput st; chatMessages := chatMessages st;
     chatLoading := chatLoading st; draftContent := draftContent st;
     draftLoading := draftLoading st; draftStyle := draftStyle st;
     bibStyle := bibStyle st; bibLoading := bibLoading st;
     activeTab := activeTab st |}.

Definition newline : string := String "010" "".

(** The file starts with a header line that names the session; the name
    of the downloaded file is left out of the [Download] effect. *)
Definition handleDownloadDraft (st : PageState) : PageState * list Effect :=
  if Str.is_empty (Str.trim (draftContent st)) then
    (st, [Alert "No draft to download yet."])
  else
    let header :=
      "# Draft for Session: "
      +:+ Str.or_else (from_option session_title "" (session st)) (sessionId st)
      +:+ newline +:+ newline in
    (st, [Download "md" (header +:+ draftContent st)]).

(** ** Uploading a PDF *)

Record File : Type := {
  file_type : string;
  file_size : Z;
  file_name : string;
}.

(** [20 * 1024 * 1024] *)
Definition maxSize : Z := 20 * 1024 * 1024.

(** How the upload to the storage ends: without error, with the error
    the client returns, or by throwing. *)
Inductive StorageResult : Type := Stored | StorageError | StorageThrows.

Inductive UploadEffect : Type :=
  | ResetInput   (* e.target.value = '' *)
  | StorageUpload (path : string) (file : File)
  | PostAddUploaded (session_id pdf_url filename : string)
      (* POST /sources/add-uploaded *)
  | PageEffect (e : Effect).

Definition is_alert (e : UploadEffect) : bool :=
  match e with PageEffect (Alert _) => true | _ => false end.

(** [file] is [e.target.files?.[0]]; [now] is the text of [Date.now()],
    [publicUrl] the storage's [getPublicUrl]; [stored], [posted] and
    [fetched] are the outcomes of the three calls.  The flag
    [uploadingPdf], set while the handler works and cleared at its end, is
    left out. *)
Definition handleUploadPdf (file : option File) (now : string)
    (publicUrl : string → string) (stored : StorageResult)
    (posted : Outcome ()) (fetched : Outcome (list (option Paper)))
    (st : PageState) : PageState * list UploadEffect :=
  match file with
  | None => (st, [])
  | Some f =>
      if negb (bool_decide (file_type f = "application/pdf")) then
        (st, [ResetInput; PageEffect (Alert "Please upload a PDF file.")])
      else if (maxSize <? file_size f)%Z then
        (st, [ResetInput;
              PageEffect
                (Alert "File too large. Please upload a PDF smaller than 20 MB.")])
      else
        let filePath := sessionId st +:+ "/" +:+ now +:+ "-" +:+ file_name f in
        let upload := StorageUpload filePath f in
        match stored with
        | StorageThrows =>
            (st, [ResetInput; upload;
                  PageEffect (ConsoleError "Upload PDF error:");
                  PageEffect (Alert "Failed to upload and process PDF.")])
        | StorageError =>
            (st, [ResetInput; upload;
                  PageEffect (ConsoleError "Upload error:");
                  PageEffect (Alert "Failed to upload PDF to storage.")])
        | Stored =>
            let post :=
              PostAddUploaded (sessionId st) (publicUrl filePath) (file_name f) in
            match posted with
            | Rejected _ =>
                (st, [ResetInput; upload; post;
                      PageEffect (ConsoleError "Upload PDF error:");
                      PageEffect (Alert "Failed to upload and process PDF.")])
            | Resolved _ =>
                let fetch := fetchPapers fetched st in
                (fetch.1,
                 [ResetInput; upload; post] ++ (PageEffect <$> fetch.2)
                 ++ [PageEffect (Alert "PDF uploaded and added to sources.")])
            end
        end
  end.

(** ** What happens when the page mounts *)

(** What the page does to the world outside its state: an effect of one
    of the handlers above or of the upload, or one of the calls and the
    navigation of the two effects that run when the page mounts. *)
Inductive SideEffect : Type :=
  | OfHandler (e : Effect)
  | OfUpload (e : UploadEffect)
  | SelectSession (session_id : string)
      (* research_sessions.select('*').eq('id', ...).single() *)
  | GetHistory (session_id : string)
      (* GET /rag/history *)
  | RouterPush (route : string).

(** [loadHistory]: [response] carries [res.data], which replaces the chat
    history whenever the request resolves. *)
Definition loadHistory (response : Outcome (list ChatMessage))
    (st : PageState) : PageState * list SideEffect :=
  let request := GetHistory (sessionId st) in
  match response with
  | Resolved data => (setChatMessages st (λ _, data), [request])
  | Rejected _ =>
      (st, [request; OfHandler (ConsoleError "Failed to load chat history:")])
  end.

(** [init]: [response] carries the row of the session, [fetched] is the
    outcome of the request of [fetchPapers], which catches its own
    errors.  The page's [loading] flag and the search for suggestions
    that follows ([Search.autoSearch]) are left out. *)
Definition init (response : Outcome ResearchSession)
    (fetched : Outcome (list (option Paper))) (st : PageState)
  : PageState * list SideEffect :=
  let request := SelectSession (sessionId st) in
  match response with
  | Resolved sessionData =>
      let st := setSession st (Some sessionData) in
      let fetch := fetchPapers fetched st in
      (fetch.1, request :: (OfHandler <$> fetch.2))
  | Rejected _ =>
      (st, [request; OfHandler (ConsoleError "Error initializing session:");
            RouterPush "/dashboard"])
  end.

(** ** The session page under any sequence of operations *)

(** Everything that writes the state of the page: the two effects that
    run when it mounts, and what the user does.  Each operation is one
    handler run to its end, an asynchronous one with the outcomes of its
    requests.  (The page runs [init] and [loadHistory] once for a session;
    a sequence of operations may hold them any number of times.) *)
Inductive PageOp : Type :=
  | OpInit (response : Outcome ResearchSession)
      (fetched : Outcome (list (option Paper)))
  | OpLoadHistory (response : Outcome (list ChatMessage))
  | OpUploadPdf (file : option File) (now : string)
      (publicUrl : string → string) (stored : StorageResult)
      (posted : Outcome ()) (fetched : Outcome (list (option Paper)))
  | OpFetchPapers (response : Outcome (list (option Paper)))
  | OpAddPaper (paper : Paper) (response : Outcome ())
  | OpRemovePaper (paperId : string) (confirmed : bool) (response : Outcome ())
  | OpTypeChat (text : string)
      (* onChange={(e) => setChatInput(e.target.value)} *)
  | OpChatSubmit (response : Outcome string)
  | OpSelectDraftStyle (style : DraftStyle)
  | OpGenerateDraft (response : Outcome string)
  | OpEditDraft (text : string)
      (* onChange={(e) => setDraftContent(e.target.value)} *)
  | OpDownloadDraft
  | OpSelectBibStyle (style : BibliographyStyle)
  | OpExportBibliography (response : Outcome string)
  | OpSelectTab (tab : Tab).

(** The effects of a handler, and of the upload, among the side effects
    of the page. *)
Definition of_handler (result : PageState * list Effect)
  : PageState * list SideEffect :=
  (result.1, OfHandler <$> result.2).

Definition of_upload (result : PageState * list UploadEffect)
  : PageState * list SideEffect :=
  (result.1, OfUpload <$> result.2).

Definition step (op : PageOp) (st : PageState)
  : PageState * list SideEffect :=
  match op with
  | OpInit response fetched => init response fetched st
  | OpLoadHistory response => loadHistory response st
  | OpUploadPdf file now publicUrl stored posted fetched =>
      of_upload (handleUploadPdf file now publicUrl stored posted fetched st)
  | OpFetchPapers response => of_handler (fetchPapers response st)
  | OpAddPaper paper response => of_handler (handleAddPaper paper response st)
  | OpRemovePaper paperId confirmed response =>
      of_handler (handleRemovePaper paperId confirmed response st)
  | OpTypeChat text => (setChatInput st text, [])
  | OpChatSubmit response => of_handler (handleChatSubmit response st)
  | OpSelectDraftStyle style => (setDraftStyle st style, [])
  | OpGenerateDraft response => of_handler (handleGenerateDraft response st)
  | OpEditDraft text => (setDraftContent st text, [])
  | OpDownloadDraft => of_handler (handleDownloadDraft st)
  | OpSelectBibStyle style => (setBibStyle st style, [])
  | OpExportBibliography response =>
      of_handler (handleExportBibliography response st)
  | OpSelectTab tab => (setActiveTab st tab, [])
  end.

(** A run of operations: the last state, and the effects in order. *)
Definition run (ops : list PageOp) (st : PageState)
  : PageState * list SideEffect :=
  fold_left
    (λ acc op, let next := step op acc.1 in (next.1, acc.2 ++ next.2))
    ops (st, []).





(** The list of papers and the set of added ids tell the same ids. *)
Definition in_step (st : PageState) : Prop :=
  addedPaperIds st = list_to_set (paper_id <$> papers st).

(** No handler is at work: every busy flag is clear. *)
Definition idle (st : PageState) : Prop :=
  addingPaper st = None ∧ removingPaper st = None ∧ chatLoading st = false
  ∧ draftLoading st = false ∧ bibLoading st = false.

(** Which operations write which part of the state. *)
Definition writes_corpus (op : PageOp) : bool :=
  match op with
  | OpInit (Resolved _) (Resolved _) => true
  | OpUploadPdf (Some _) _ _ Stored (Resolved _) (Resolved _) => true
  | OpFetchPapers (Resolved _) => true
  | OpAddPaper _ (Resolved _) => true
  | OpRemovePaper _ true (Resolved _) => true
  | _ => false
  end.

Definition writes_chat (op : PageOp) : bool :=
  match op with
  | OpLoadHistory (Resolved _) => true
  | OpChatSubmit _ => true
  | _ => false
  end.

Definition writes_draft (op : PageOp) : bool :=
  match op with
  | OpEditDraft _ => true
  | OpGenerateDraft (Resolved _) => true
  | _ => false
  end.

Definition writes_tab (op : PageOp) : bool :=
  match op with
  | OpSelectTab _ => true
  | OpGenerateDraft (Resolved _) => true
  | _ => false
  end.

Definition writes_session (op : PageOp) : bool :=
  match op with OpInit (Resolved _) _ => true | _ => false end.



(** Membership in a list of effects that is written out: one case for
    each entry that can be the effect looked for. *)
Ltac in_effects H :=
  repeat (apply elem_of_cons in H as [H|H]; [try discriminate H|]);
  try (by apply elem_of_nil in H).


(** ** Searching for papers *)

Module Search.

Inductive SortBy : Type := by_relevance | by_citations | by_year.

(** A year field, [number | '']: empty, or what [parseInt] made of the
    text typed. *)
Inductive YearField : Type :=
  | YearBlank
  | YearNaN
  | YearNumber (n : Z).


Record Params : Type := {
  query : string;
  limit : Z;
  sort_by : SortBy;
  year_from : option Z;
  year_to : option Z;
}.


Record State : Type := {
  searchQuery : string;
  searching : bool;
  searchResults : list Paper;
  suggestedPapers : list Paper;
  autoSearching : bool;
  sourcesSearched : list string;
  sortBy : SortBy;
  yearFrom : YearField;
  yearTo : YearField;
}.

Inductive Effect : Type :=
  | Get (params : Params)   (* GET /sources/search *)
  | ConsoleError (label : string)
  | Alert (msg : string).





End Search.

(** ** The dashboard: the store of sessions and the page *)

Module Dashboard.

(** [ResearchSession] of the store. *)
Record Session : Type := {
  id : string;
  title : string;
  topic : string;
  description : option string;
  created_at : string;
  updated_at : string;
  paper_count : option Z;
}.

(** [Partial<ResearchSession>]: the fields that are given. *)
Record Updates : Type := {
  new_id : option string;
  new_title : option string;
  new_topic : option string;
  new_description : option (option string);
  new_created_at : option string;
  new_updated_at : option string;
  new_paper_count : option (option Z);
}.

(** [{ ...s, ...updates }] *)
Definition merge (s : Session) (updates : Updates) : Session :=
  {| id := default (id s) (new_id updates);
     title := default (title s) (new_title updates);
     topic := default (topic s) (new_topic updates);
     description := default (description s) (new_description updates);
     created_at := default (created_at s) (new_created_at updates);
     updated_at := default (updated_at s) (new_updated_at updates);
     paper_count := default (paper_count s) (new_paper_count updates) |}.

(** [{ ...first, ...second }] on updates: a field of [second] wins. *)
Definition both (first second : Updates) : Updates :=
  {| new_id := match new_id second with Some v => Some v | None => new_id first end;
     new_title :=
       match new_title second with Some v => Some v | None => new_title first end;
     new_topic :=
       match new_topic second with Some v => Some v | None => new_topic first end;
     new_description :=
       match new_description second with
       | Some v => Some v | None => new_description first end;
     new_created_at :=
       match new_created_at second with
       | Some v => Some v | None => new_created_at first end;
     new_updated_at :=
       match new_updated_at second with
       | Some v => Some v | None => new_updated_at first end;
     new_paper_count :=
       match new_paper_count second with
       | Some v => Some v | None => new_paper_count first end |}.

Record Store : Type := {
  sessions : list Session;
  activeSession : option Session;
  loading : bool;
}.

Definition initial : Store :=
  {| sessions := []; activeSession := None; loading := false |}.

Definition setSessions (l : list Session) (st : Store) : Store :=
  {| sessions := l; activeSession := activeSession st; loading := loading st |}.

Definition setActiveSession (s : option Session) (st : Store) : Store :=
  {| sessions := sessions st; activeSession := s; loading := loading st |}.

Definition setLoading (v : bool) (st : Store) : Store :=
  {| sessions := sessions st; activeSession := activeSession st; loading := v |}.

Definition addSession (s : Session) (st : Store) : Store :=
  {| sessions := s :: sessions st; activeSession := activeSession st;
     loading := loading st |}.

Definition updateSession (i : string) (updates : Updates) (st : Store) : Store :=
  {| sessions :=
       (λ s, if bool_decide (id s = i) then merge s updates else s)
       <$> sessions st;
     activeSession := activeSession st; loading := loading st |}.

Definition removeSession (i : string) (st : Store) : Store :=
  {| sessions := filter (λ s, id s ≠ i) (sessions st);
     activeSession := activeSession st; loading := loading st |}.

(** The form of the new-session dialog. *)
Record Form : Type := {
  form_title : string;
  form_topic : string;
  form_description : string;
}.

Definition empty_form : Form :=
  {| form_title := ""; form_topic := ""; form_description := "" |}.

(** [DashboardPage]: the signed-in user's id, the store, and the cells of
    the page ([loading] is the page's own, not the store's). *)
Record Page : Type := {
  user : option string;
  store : Store;
  page_loading : bool;
  showNewSessionModal : bool;
  newSession : Form;
  creating : bool;
}.

Inductive Effect : Type :=
  | SelectSessions (user_id : string)
  | InsertSession (user_id title topic : string) (description : option string)
  | DeleteSession (session_id : string)
  | Push (route : string)
  | Confirm (msg : string)
  | ConsoleError (label : string).

(** [response] carries [data], [None] when it is missing. *)
Definition fetchSessions (response : Outcome (option (list Session)))
    (pg : Page) : Page * list Effect :=
  match user pg with
  | None => (pg, [])
  | Some uid =>
      match response with
      | Resolved data =>
          ({| user := user pg;
              store := setSessions (default [] data) (store pg);
              page_loading := false;
              showNewSessionModal := showNewSessionModal pg;
              newSession := newSession pg; creating := creating pg |},
           [SelectSessions uid])
      | Rejected _ =>
          ({| user := user pg; store := store pg; page_loading := false;
              showNewSessionModal := showNewSessionModal pg;
              newSession := newSession pg; creating := creating pg |},
           [SelectSessions uid; ConsoleError "Error fetching sessions:"])
      end
  end.

(** [response] carries the inserted row. *)
Definition handleCreateSession (response : Outcome Session) (pg : Page)
  : Page * list Effect :=
  match user pg with
  | None => (pg, [])
  | Some uid =>
      let request :=
        InsertSession uid (form_title (newSession pg))
          (form_topic (newSession pg))
          (if Str.is_empty (form_description (newSession pg)) then None
           else Some (form_description (newSession pg))) in
      match response with
      | Resolved data =>
          ({| user := user pg;
              store := setSessions (data :: sessions (store pg)) (store pg);
              page_loading := page_loading pg;
              showNewSessionModal := false;
              newSession := empty_form; creating := false |},
           [request; Push ("/dashboard/session/" +:+ id data)])
      | Rejected _ =>
          ({| user := user pg; store := store pg;
              page_loading := page_loading pg;
              showNewSessionModal := showNewSessionModal pg;
              newSession := newSession pg; creating := false |},
           [request; ConsoleError "Error creating session:"])
      end
  end.

Definition handleDeleteSession (i : string) (confirmed : bool)
    (response : Outcome ()) (pg : Page) : Page * list Effect :=
  let dialog :=
    Confirm "Are you sure you want to delete this research session?" in
  if negb confirmed then (pg, [dialog])
  else
    match response with
    | Resolved _ =>
        ({| user := user pg; store := removeSession i (store pg);
            page_loading := page_loading pg;
            showNewSessionModal := showNewSessionModal pg;
            newSession := newSession pg; creating := creating pg |},
         [dialog; DeleteSession i])
    | Rejected _ =>
        (pg, [dialog; DeleteSession i; ConsoleError "Error deleting session:"])
    end.

End Dashboard.

(** ** The first visit: onboarding *)

Module Onboarding.

(** The titles of [steps]. *)
Definition steps : list string :=
  ["Discover Research Papers"; "Chat with Your Sources";
   "Generate Cited Drafts"; "Accelerate Your Research"].

(** The step shown, the browser's [localStorage], and the routes pushed,
    in order. *)
Record State : Type := {
  currentStep : nat;
  localStorage : gmap string string;
  pushed : list string;
}.

Definition initial (storage : gmap string string) : State :=
  {| currentStep := 0; localStorage := storage; pushed := [] |}.

Definition setCurrentStep (n : nat) (st : State) : State :=
  {| currentStep := n; localStorage := localStorage st; pushed := pushed st |}.

(** [localStorage.setItem('onboarding_completed', 'true');
    router.push('/auth')] *)
Definition complete (st : State) : State :=
  {| currentStep := currentStep st;
     localStorage := <["onboarding_completed" := "true"]> (localStorage st);
     pushed := pushed st ++ ["/auth"] |}.

Definition handleNext (st : State) : State :=
  if bool_decide (currentStep st < length steps - 1)
  then setCurrentStep (currentStep st + 1) st
  else complete st.

Definition handlePrevious (st : State) : State :=
  if bool_decide (0 < currentStep st)
  then setCurrentStep (currentStep st - 1) st
  else st.

Definition handleSkip (st : State) : State := complete st.

(** A click: on Next, on Previous, on Skip, or on a progress dot; there
    is one dot for each step. *)
Inductive Event : Type := Next | Previous | Skip | Dot (index : nat).

Definition click (ev : Event) (st : State) : State :=
  match ev with
  | Next => handleNext st
  | Previous => handlePrevious st
  | Skip => handleSkip st
  | Dot index =>
      if bool_decide (index < length steps) then setCurrentStep index st
      else st
  end.

Definition clicks (evs : list Event) (st : State) : State :=
  fold_left (λ st ev, click ev st) evs st.

(** [Home]: where the landing page sends the visitor; a stored value is
    truthy when it is not the empty string. *)
Definition Home (storage : gmap string string) : string :=
  match storage !! "onboarding_completed" with
  | Some v => if Str.is_empty v then "/onboarding" else "/auth"
  | None => "/onboarding"
  end.

End Onboarding.

(** ** Who is signed in: the auth store, its provider and the layout *)

Module Auth.

Record User : Type := {
  user_id : string;
  email : option string;
  full_name : option string;   (* user_metadata.full_name *)
}.

Record Store : Type := {
  user : option User;
  loading : bool;
}.

Definition initial : Store := {| user := None; loading := true |}.

Definition setUser (u : option User) (st : Store) : Store :=
  {| user := u; loading := false |}.

Definition setLoading (v : bool) (st : Store) : Store :=
  {| user := user st; loading := v |}.

Definition signOut (st : Store) : Store := {| user := None; loading := false |}.

(** The events of [onAuthStateChange]. *)
Inductive AuthChangeEvent : Type :=
  | SIGNED_IN
  | SIGNED_OUT
  | TOKEN_REFRESHED
  | OTHER (name : string).

(** [AuthProvider]: the check of the session on mount, [response] being
    [session?.user ?? null], and the listener. *)
Definition initializeAuth (response : Outcome (option User)) (st : Store)
  : Store :=
  match response with
  | Resolved u => setLoading false (setUser u st)
  | Rejected _ => setLoading false (setUser None st)
  end.

Definition onAuthStateChange (event : AuthChangeEvent)
    (session_user : option User) (st : Store) : Store :=
  match event with
  | SIGNED_IN | SIGNED_OUT | TOKEN_REFRESHED => setUser session_user st
  | OTHER _ => st
  end.

(** What happens to the store: the provider's two writers, a sign-in on
    the auth page ([setUser(data.user)]) and the layout's
    [handleSignOut], which signs out of the store however the call to
    the backend ends. *)
Inductive Action : Type :=
  | Initialize (response : Outcome (option User))
  | Change (event : AuthChangeEvent) (session_user : option User)
  | SignedIn (u : option User)
  | SignOut (response : Outcome ()).

Definition act (a : Action) (st : Store) : Store :=
  match a with
  | Initialize response => initializeAuth response st
  | Change event session_user => onAuthStateChange event session_user st
  | SignedIn u => setUser u st
  | SignOut _ => signOut st
  end.

Definition acts (l : list Action) (st : Store) : Store :=
  fold_left (λ st a, act a st) l st.

(** [full_name || email || 'User'] *)
Definition displayName (u : User) : string :=
  Str.or_else (default "" (full_name u))
    (Str.or_else (default "" (email u)) "User").

(** The layout: its redirect, [!loading && !user], and what it renders. *)
Definition redirects (st : Store) : bool :=
  negb (loading st) && bool_decide (user st = None).

Inductive View : Type :=
  | Spinner
  | Nothing
  | Content (displayName : string).

Definition render (st : Store) : View :=
  if loading st then Spinner
  else match user st with
       | None => Nothing
       | Some u => Content (displayName u)
       end.

End Auth.

(** * Proofs *)

(** ** The primitives at work *)

Example split_keeps_outer_fields :
  Str.split_spaces "  a  b " = [""; "a"; "b"; ""]
  ∧ Str.split_spaces "" = [""]
  ∧ Str.trim "  a b  " = "a b".
Proof. repeat split. Qed.

Example tokenize_sample :
  tokenize "Deep_learning for  EEG: it's a Self-Supervised, deep model (2024)"
  = ["deep"; "learning"; "self-supervised"; "model"; "2024"].
Proof. vm_compute. reflexivity. Qed.

(** "deep" is matched in "deep", "deep-learning" and "(deep!)", not in
    "deep_learning" or "deeper". *)
Example whole_word_sample :
  Regex.match_all "deep" "deep deep_learning deep-learning (deep!) deeper" = 3
  ∧ Regex.match_all "DEEP" "a deep one" = 1.
Proof. vm_compute. repeat split. Qed.

(** [Math.round]: 2.5 to 3, -2.5 to -2, 0.4 to 0; and scores of thirds and
    of an eighth. *)
Example round_sample :
  Num.round (Num.div (Num.of_Z 5) (Num.of_Z 2)) = Num.of_Z 3
  ∧ Num.round (Num.div (Num.of_Z (-5)) (Num.of_Z 2)) = Num.of_Z (-2)
  ∧ Num.round (Num.div (Num.of_Z 2) (Num.of_Z 5)) = Num.of_Z 0
  ∧ relevanceScore 1 3 = Num.of_Z 33
  ∧ relevanceScore 2 3 = Num.of_Z 67
  ∧ relevanceScore 1 8 = Num.of_Z 13.
Proof. vm_compute. repeat split. Qed.

(** ** The shape of [metricsChartData] *)

Lemma metricsChartData_items (s : ResearchSession) (l : list Paper) :
  metricsChartData (Some s) l =
  let rawPoints := rawPoint (tokenize (topicText s)) <$> l in
  imap (chartItem (maxRelevance rawPoints)) rawPoints.
Proof.
  unfold metricsChartData.
  destruct l as [|p l]; [reflexivity|].
  rewrite bool_decide_false by discriminate.
  rewrite bool_decide_false by discriminate.
  reflexivity.
Qed.

Lemma metricsChartData_field {A} (f : MetricsChartItem → A) (g : RawPoint → A)
    (s : ResearchSession) (l : list Paper) :
  (∀ m i r, f (chartItem m i r) = g r) →
  f <$> metricsChartData (Some s) l
  = (λ p, g (rawPoint (tokenize (topicText s)) p)) <$> l.
Proof.
  intros Hfg. rewrite metricsChartData_items. cbv zeta.
  rewrite fmap_imap.
  rewrite (imap_ext _ (const g)) by (intros; simpl; apply Hfg).
  rewrite imap_const, <- list_fmap_compose. reflexivity.
Qed.

(** ** Citations *)

Lemma citations_of_spec (p : Paper) : citations p = Spec.citations p.
Proof.
  unfold citations, Spec.citations.
  destruct (paper_citation_count p) as [| |n|]; try reflexivity.
  destruct (Z.ltb_spec 0 n); lia.
Qed.

(** C9 — the citations of every bar are the stored count of its paper when
    that is a number at or above zero, and 0 when it is negative or is not
    a number at all; the result is never negative. *)
Theorem citations_clamped (s : ResearchSession) (l : list Paper) :
  item_citations <$> metricsChartData (Some s) l = Spec.citations <$> l
  ∧ (∀ p n, paper_citation_count p = JsNumber n → (0 ≤ n)%Z →
       citations p = n)
  ∧ (∀ p n, paper_citation_count p = JsNumber n → (n < 0)%Z →
       citations p = 0%Z)
  ∧ (∀ p, (∀ n, paper_citation_count p ≠ JsNumber n) → citations p = 0%Z)
  ∧ (∀ p, (0 ≤ citations p)%Z).
Proof.
  split; [|repeat split].
  - rewrite (metricsChartData_field item_citations raw_citations)
      by reflexivity.
    apply list_fmap_ext. intros i p _. simpl. apply citations_of_spec.
  - intros p n Hc Hn. rewrite citations_of_spec. unfold Spec.citations.
    rewrite Hc. lia.
  - intros p n Hc Hn. rewrite citations_of_spec. unfold Spec.citations.
    rewrite Hc. lia.
  - intros p Hc. unfold citations.
    destruct (paper_citation_count p) as [| |n|]; try reflexivity.
    destruct (Hc n eq_refl).
  - intros p. rewrite citations_of_spec. unfold Spec.citations.
    destruct (paper_citation_count p); lia.
Qed.

(** The clamp at work on a page of three papers: a count of 50, a count
    of -3 and a missing count. *)
Lemma citations_clamped_witness :
  item_citations <$>
    metricsChartData (Some Sample.session_ml)
      [Sample.paper_A; Sample.paper_plain; Sample.paper_e2e]
  = [50%Z; 0%Z; 0%Z]
  ∧ citations Sample.paper_A = 50%Z
  ∧ citations Sample.paper_plain = 0%Z
  ∧ citations Sample.paper_e2e = 0%Z.
Proof.
  pose proof (citations_clamped Sample.session_ml
    [Sample.paper_A; Sample.paper_plain; Sample.paper_e2e])
    as (Hmap & Hpos & Hneg & Hmiss & _).
  split; [rewrite Hmap; reflexivity|].
  split; [apply (Hpos Sample.paper_A 50%Z); [reflexivity|lia]|].
  split; [apply (Hneg Sample.paper_plain (-3)%Z); [reflexivity|lia]|].
  apply (Hmiss Sample.paper_e2e). intros n. discriminate.
Defined.

(** ** The metrics example *)

(** C1 — for the topic "machine learning diagnostics" and the corpus of
    Paper A ("Machine Learning for Diagnostics", 50 citations) and Paper B
    ("Cooking Recipes", 5 citations), both with empty abstracts, the chart
    has one bar per paper with relevance(A) > relevance(B),
    relevanceScore(A) = 100, relevanceScore(B) = 0, citations(A) = 50 and
    citations(B) = 5; the same holds when the session's title repeats the
    topic. *)
Theorem metrics_example :
  ∀ s, s = Sample.session_ml ∨ s = Sample.session_ml_titled →
  ∃ a b,
    metricsChartData (Some s) [Sample.paper_A; Sample.paper_B] = [a; b]
    ∧ item_id a = "A" ∧ item_id b = "B"
    ∧ item_relevance a > item_relevance b
    ∧ item_relevanceScore a = Num.of_Z 100
    ∧ item_relevanceScore b = Num.of_Z 0
    ∧ item_citations a = 50%Z
    ∧ item_citations b = 5%Z.
Proof.
  intros s [-> | ->]; eexists _, _;
    (split; [vm_compute; reflexivity|]);
    repeat split; vm_compute; lia.
Qed.

Lemma metrics_example_witness :
  ∃ a b,
    metricsChartData (Some Sample.session_ml) [Sample.paper_A; Sample.paper_B]
    = [a; b]
    ∧ item_id a = "A" ∧ item_id b = "B"
    ∧ item_relevance a > item_relevance b
    ∧ item_relevanceScore a = Num.of_Z 100
    ∧ item_relevanceScore b = Num.of_Z 0
    ∧ item_citations a = 50%Z
    ∧ item_citations b = 5%Z.
Proof. apply (metrics_example Sample.session_ml). left. reflexivity. Defined.

(** ** Adding and removing papers *)

Lemma addPaperUpdater_present (paper : Paper) (prev : list Paper) :
  paper_id paper ∈ (paper_id <$> prev) → addPaperUpdater paper prev = prev.
Proof.
  intros Hin. unfold addPaperUpdater.
  apply list_elem_of_fmap in Hin as (q & Hq & Hin).
  replace (existsb _ prev) with true; [reflexivity|].
  symmetry. apply existsb_exists. exists q.
  split; [by apply list_elem_of_In|]. by apply bool_decide_eq_true.
Qed.

Lemma addPaperUpdater_absent (paper : Paper) (prev : list Paper) :
  paper_id paper ∉ (paper_id <$> prev) →
  addPaperUpdater paper prev = paper :: prev.
Proof.
  intros Hnin. unfold addPaperUpdater.
  destruct (existsb _ prev) eqn:Hex; [|reflexivity].
  apply existsb_exists in Hex as (q & Hin & Hq).
  apply bool_decide_eq_true in Hq. destruct Hnin.
  rewrite <- Hq. apply list_elem_of_fmap_2. by apply list_elem_of_In.
Qed.

(** The updater keeps the ids apart, whatever list it is applied to: it
    does so also when several additions are in flight and resolve in any
    order, each updater running on the list the previous one left. *)
Lemma addPaperUpdater_unique (paper : Paper) (prev : list Paper) :
  Spec.unique_ids prev → Spec.unique_ids (addPaperUpdater paper prev).
Proof.
  unfold Spec.unique_ids. intros Hnd.
  destruct (decide (paper_id paper ∈ (paper_id <$> prev))) as [Hin|Hnin].
  - by rewrite addPaperUpdater_present.
  - rewrite addPaperUpdater_absent by done. simpl. by constructor.
Qed.

Lemma handleAddPaper_papers (paper : Paper) (response : Outcome ())
    (st : PageState) :
  papers (handleAddPaper paper response st).1 = papers st
  ∨ papers (handleAddPaper paper response st).1
    = addPaperUpdater paper (papers st).
Proof.
  unfold handleAddPaper.
  destruct (_ || _); [by left|].
  destruct response; [by right | by left].
Qed.

Lemma handleAddPaper_unique (paper : Paper) (response : Outcome ())
    (st : PageState) :
  Spec.unique_ids (papers st) →
  Spec.unique_ids (papers (handleAddPaper paper response st).1).
Proof.
  intros Hnd.
  destruct (handleAddPaper_papers paper response st) as [-> | ->];
    [done | by apply addPaperUpdater_unique].
Qed.

Lemma handleAddPaper_present (paper : Paper) (response : Outcome ())
    (st : PageState) :
  paper_id paper ∈ (paper_id <$> papers st) →
  papers (handleAddPaper paper response st).1 = papers st.
Proof.
  intros Hin.
  destruct (handleAddPaper_papers paper response st) as [-> | ->];
    [done | by apply addPaperUpdater_present].
Qed.

Lemma addPapers_unique (ops : list (Paper * Outcome ())) (st : PageState) :
  Spec.unique_ids (papers st) → Spec.unique_ids (papers (addPapers ops st)).
Proof.
  revert st. induction ops as [|[paper response] ops IH]; intros st Hnd.
  - done.
  - simpl. apply IH. by apply handleAddPaper_unique.
Qed.

(** The updaters of additions that were in flight together run one after
    the other, each on the list the one before left, in the order the
    requests resolve. *)
Lemma addPaperUpdaters_unique (resolved : list Paper) (prev : list Paper) :
  Spec.unique_ids prev →
  Spec.unique_ids
    (fold_left (λ prev paper, addPaperUpdater paper prev) resolved prev).
Proof.
  revert prev. induction resolved as [|paper resolved IH]; intros prev Hnd.
  - done.
  - simpl. apply IH. by apply addPaperUpdater_unique.
Qed.

(** A fetch replaces the list by the rows of the store, and the set of
    added ids by their ids. *)
Lemma fetchPapers_resolved (data : list (option Paper)) (st : PageState) :
  let st' := (fetchPapers (Resolved data) st).1 in
  papers st' = omap (λ item, item) data
  ∧ ∀ i, i ∈ addedPaperIds st' ↔ i ∈ (paper_id <$> papers st').
Proof.
  simpl. split; [done|]. intros i. by rewrite elem_of_list_to_set.
Qed.

(** C7 — whatever add-paper operations are run on a session page whose
    list has no repeated id (the page starts with an empty list), and
    however their requests end, the list never holds two entries with the
    same id; this is so too when the updaters of overlapping additions run
    in any order; adding a paper whose id is in the list leaves the list
    as it was. *)
Theorem add_paper_keeps_ids_unique (st : PageState)
    (ops : list (Paper * Outcome ())) :
  Spec.unique_ids (papers st) →
  Spec.unique_ids (papers (addPapers ops st))
  ∧ (∀ sid, Spec.unique_ids (papers (addPapers ops (initialState sid))))
  ∧ (∀ resolved,
       Spec.unique_ids
         (fold_left (λ prev paper, addPaperUpdater paper prev) resolved
            (papers st)))
  ∧ (∀ paper response,
       paper_id paper ∈ (paper_id <$> papers st) →
       papers (handleAddPaper paper response st).1 = papers st).
Proof.
  intros Hnd. split; [by apply addPapers_unique|]. split; [|split].
  - intros sid. apply addPapers_unique. constructor.
  - intros resolved. by apply addPaperUpdaters_unique.
  - intros paper response. apply handleAddPaper_present.
Qed.

Lemma add_paper_keeps_ids_unique_witness :
  let st := Sample.page_with [Sample.paper_B] "" in
  let ops :=
    [(Sample.paper_A, Resolved ()); (Sample.paper_B, Resolved ());
     (Sample.paper_e2e, Rejected None); (Sample.paper_A, Resolved ())] in
  Spec.unique_ids (papers st)
  ∧ paper_id <$> papers (addPapers ops st) = ["A"; "B"]
  ∧ Spec.unique_ids (papers (addPapers ops st))
  ∧ papers (handleAddPaper Sample.paper_B (Resolved ()) st).1 = papers st.
Proof.
  intros st ops.
  assert (Hst : Spec.unique_ids (papers st)).
  { unfold Spec.unique_ids. simpl. apply NoDup_singleton. }
  destruct (add_paper_keeps_ids_unique st ops Hst) as (Hrun & _ & _ & Hsame).
  split; [exact Hst|]. split; [vm_compute; reflexivity|].
  split; [exact Hrun|].
  apply Hsame. simpl. apply list_elem_of_here.
Defined.

(** C8 — after paper [P] has been removed (the dialog confirmed, the
    store's delete without error) the list has no entry with id [P], [P]
    is not among the added ids, and the papers with other ids are all
    still there, unchanged and in their order; so are the other added
    ids. *)
Theorem remove_paper_frame (P : string) (st : PageState) :
  let st' := (handleRemovePaper P true (Resolved ()) st).1 in
  (P ∉ (paper_id <$> papers st'))
  ∧ (P ∉ addedPaperIds st')
  ∧ papers st' = filter (λ p, paper_id p ≠ P) (papers st)
  ∧ (∀ p, paper_id p ≠ P → (p ∈ papers st' ↔ p ∈ papers st))
  ∧ (∀ i, i ≠ P → (i ∈ addedPaperIds st' ↔ i ∈ addedPaperIds st)).
Proof.
  simpl. repeat split.
  - intros Hin. apply list_elem_of_fmap in Hin as (q & Hq & Hin).
    apply list_elem_of_filter in Hin as [Hne _]. by destruct Hne.
  - rewrite elem_of_difference, elem_of_singleton. tauto.
  - intros Hin. by apply list_elem_of_filter in Hin as [_ Hin].
  - intros Hin. by apply list_elem_of_filter.
  - rewrite elem_of_difference. tauto.
  - intros Hin. rewrite elem_of_difference, elem_of_singleton. tauto.
Qed.

(** ** The empty corpus *)

(** C5 — on a page whose paper list is empty, draft generation and
    bibliography export return at once, leaving the state as it is and
    doing nothing but showing their empty-corpus message: no request is
    sent, whatever the backend would have answered; the chat submit button
    (and the two buttons of the draft tab) is disabled, and submitting the
    chat form sends nothing. *)
Theorem empty_corpus_blocks (st : PageState) :
  papers st = [] →
  (∀ response,
     handleGenerateDraft response st
     = (st, [Alert "Add some sources to this session before generating a draft."]))
  ∧ (∀ response,
       handleExportBibliography response st
       = (st, [Alert "Add some sources to this session before exporting references."]))
  ∧ (∀ response, filter is_request (handleGenerateDraft response st).2 = [])
  ∧ (∀ response,
       filter is_request (handleExportBibliography response st).2 = [])
  ∧ chatSubmitDisabled st = true
  ∧ generateDraftDisabled st = true
  ∧ exportRefsDisabled st = true
  ∧ (∀ response, submitChatForm response st = (st, [])).
Proof.
  intros Hempty.
  assert (Hdraft : ∀ response,
    handleGenerateDraft response st
    = (st, [Alert "Add some sources to this session before generating a draft."])).
  { intros response. unfold handleGenerateDraft. by rewrite Hempty. }
  assert (Hbib : ∀ response,
    handleExportBibliography response st
    = (st, [Alert "Add some sources to this session before exporting references."])).
  { intros response. unfold handleExportBibliography. by rewrite Hempty. }
  assert (Hchat : chatSubmitDisabled st = true).
  { unfold chatSubmitDisabled. rewrite Hempty. simpl.
    by rewrite !orb_true_r. }
  repeat split.
  - exact Hdraft.
  - exact Hbib.
  - intros response. by rewrite Hdraft.
  - intros response. by rewrite Hbib.
  - exact Hchat.
  - unfold generateDraftDisabled. rewrite Hempty. simpl. apply orb_true_r.
  - unfold exportRefsDisabled. rewrite Hempty. simpl. apply orb_true_r.
  - intros response. unfold submitChatForm. by rewrite Hchat.
Qed.

Lemma empty_corpus_blocks_witness :
  let st := Sample.page_with [] "What is new?" in
  papers st = []
  ∧ handleGenerateDraft (Resolved "A draft.") st
    = (st, [Alert "Add some sources to this session before generating a draft."])
  ∧ handleExportBibliography (Resolved "@article{x}") st
    = (st, [Alert "Add some sources to this session before exporting references."])
  ∧ submitChatForm (Resolved "An answer.") st = (st, []).
Proof.
  intros st.
  destruct (empty_corpus_blocks st eq_refl)
    as (Hdraft & Hbib & _ & _ & _ & _ & _ & Hchat).
  split; [reflexivity|].
  split; [apply Hdraft|]. split; [apply Hbib | apply Hchat].
Defined.

(** With a paper on the page the same handlers do send their request. *)
Example nonempty_corpus_sends :
  let st := Sample.page_with [Sample.paper_A] "What is new?" in
  filter is_request (handleGenerateDraft (Resolved "A draft.") st).2
  = [Send (DraftGenerate "s1" literature_review)]
  ∧ filter is_request (handleExportBibliography (Resolved "@article{x}") st).2
    = [Send (DraftBibliography "s1" bibtex)]
  ∧ filter is_request (submitChatForm (Resolved "An answer.") st).2
    = [Send (RagChat "s1" "What is new?")].
Proof. vm_compute. repeat split. Qed.

(** ** A failed chat call *)

(** C6, as stated, fails: after a chat call that ends in an error the
    history is not the question alone; an entry of role [assistant],
    made up by the page, follows it. *)
Lemma chat_failure_adds_assistant_entry :
  let st := Sample.page_with [Sample.paper_A] "  What is new? " in
  let st' := (handleChatSubmit (Rejected None) st).1 in
  chatMessages st'
  = [{| role := user; content := "What is new?" |};
     {| role := assistant; content := "Error: Failed to get answer" |}]
  ∧ ¬ Spec.question_only (chatMessages st) (chatMessages st') "What is new?".
Proof.
  vm_compute. split; [reflexivity|]. intros H. discriminate H.
Qed.

(** C6, amended — when the call for a chat question fails, the history
    gains the user's question (trimmed) followed by one entry of role
    [assistant] whose content is "Error: " and the detail sent by the
    backend, or "Error: Failed to get answer" when there is none; that
    entry and a console message are how the failure is shown.  The request
    was sent once, the input is cleared and the loading flag is down
    again. *)
Theorem chat_failure_recorded (st : PageState) (detail : option string) :
  Str.trim (chatInput st) ≠ "" →
  let question := Str.trim (chatInput st) in
  let result := handleChatSubmit (Rejected detail) st in
  chatMessages result.1
  = chatMessages st
    ++ [{| role := user; content := question |};
        {| role := assistant;
           content := "Error: " +:+ detail_or detail "Failed to get answer" |}]
  ∧ result.2 = [Send (RagChat (sessionId st) question);
                ConsoleError "Chat error:"]
  ∧ chatInput result.1 = ""
  ∧ chatLoading result.1 = false
  ∧ papers result.1 = papers st.
Proof.
  intros Hq. unfold handleChatSubmit, Str.is_empty.
  rewrite bool_decide_false by exact Hq. simpl.
  rewrite <- app_assoc. repeat split.
Qed.

Lemma chat_failure_recorded_witness :
  let st := Sample.page_with [Sample.paper_A] "  What is new? " in
  let result := handleChatSubmit (Rejected (Some "Model timed out")) st in
  Str.trim (chatInput st) ≠ ""
  ∧ chatMessages result.1
    = [{| role := user; content := "What is new?" |};
       {| role := assistant; content := "Error: Model timed out" |}]
  ∧ result.2 = [Send (RagChat "s1" "What is new?"); ConsoleError "Chat error:"].
Proof.
  intros st result.
  assert (Hq : Str.trim (chatInput st) ≠ "") by (vm_compute; discriminate).
  destruct (chat_failure_recorded st (Some "Model timed out") Hq)
    as (Hmsgs & Heff & _).
  split; [exact Hq|]. split; [exact Hmsgs | exact Heff].
Defined.

(** A call that succeeds records the model's answer instead. *)
Example chat_success_recorded :
  let st := Sample.page_with [Sample.paper_A] "What is new?" in
  chatMessages (handleChatSubmit (Resolved "Nothing yet.") st).1
  = [{| role := user; content := "What is new?" |};
     {| role := assistant; content := "Nothing yet." |}].
Proof. reflexivity. Qed.

(** ** Token sets *)

Lemma JsSet_add_elem (s : list string) (t u : string) :
  u ∈ JsSet.add s t ↔ u ∈ s ∨ u = t.
Proof.
  unfold JsSet.add, JsSet.has. case_bool_decide as Hin.
  - split; [by left|]. intros [?| ->]; done.
  - rewrite elem_of_app, list_elem_of_singleton. done.
Qed.

Lemma JsSet_add_NoDup (s : list string) (t : string) :
  NoDup s → NoDup (JsSet.add s t).
Proof.
  intros Hnd. unfold JsSet.add, JsSet.has. case_bool_decide as Hin; [done|].
  apply NoDup_app. split; [done|]. split; [|apply NoDup_singleton].
  intros u Hu Hu'. apply list_elem_of_singleton in Hu'. by subst.
Qed.

Lemma JsSet_fold_add (l acc : list string) :
  NoDup acc →
  NoDup (fold_left JsSet.add l acc)
  ∧ ∀ u, u ∈ fold_left JsSet.add l acc ↔ u ∈ acc ∨ u ∈ l.
Proof.
  revert acc. induction l as [|t l IH]; intros acc Hnd; simpl.
  - split; [done|]. intros u. rewrite elem_of_nil. tauto.
  - destruct (IH (JsSet.add acc t) (JsSet_add_NoDup _ _ Hnd)) as [Hnd' Hin].
    split; [done|]. intros u.
    rewrite Hin, JsSet_add_elem, elem_of_cons. tauto.
Qed.

Lemma JsSet_of_list_NoDup (l : list string) : NoDup (JsSet.of_list l).
Proof. apply JsSet_fold_add. constructor. Qed.

Lemma JsSet_of_list_elem (l : list string) (u : string) :
  u ∈ JsSet.of_list l ↔ u ∈ l.
Proof.
  unfold JsSet.of_list.
  destruct (JsSet_fold_add l [] (NoDup_nil_2)) as [_ Hin].
  rewrite Hin, elem_of_nil. tauto.
Qed.

Lemma tokenize_NoDup (text : string) : NoDup (tokenize text).
Proof.
  unfold tokenize. destruct (Str.is_empty text).
  - constructor.
  - apply JsSet_of_list_NoDup.
Qed.

(** The tokens of a text are the fields of at least four code units of the
    lower-cased, blanked text. *)
Lemma elem_of_tokenize (text t : string) :
  t ∈ tokenize text ↔
  4 ≤ String.length t
  ∧ t ∈ Str.split_spaces (Str.blank_other (Str.toLowerCase text)).
Proof.
  unfold tokenize, Str.is_empty. case_bool_decide as Hempty.
  - subst text. simpl. rewrite elem_of_nil.
    split; [tauto|]. intros [Hlen Hin].
    apply list_elem_of_singleton in Hin. subst t. simpl in Hlen. lia.
  - rewrite JsSet_of_list_elem, list_elem_of_filter. done.
Qed.

(** *** Characters of the fields *)

Lemma chars_rev_app (s1 s2 : string) (c : ascii) :
  c ∈ Spec.chars (String.rev_app s1 s2) ↔
  c ∈ Spec.chars s1 ∨ c ∈ Spec.chars s2.
Proof.
  revert s2. induction s1 as [|a s1 IH]; intros s2; simpl.
  - rewrite elem_of_nil. tauto.
  - rewrite IH. unfold Spec.chars. simpl. rewrite !elem_of_cons. tauto.
Qed.

Lemma chars_rev (s : string) (c : ascii) :
  c ∈ Spec.chars (String.rev s) ↔ c ∈ Spec.chars s.
Proof.
  unfold String.rev. rewrite chars_rev_app.
  unfold Spec.chars at 2. simpl. rewrite elem_of_nil. tauto.
Qed.

Lemma chars_map (f : ascii → ascii) (s : string) (c : ascii) :
  c ∈ Spec.chars (Str.map f s) → ∃ d, d ∈ Spec.chars s ∧ c = f d.
Proof.
  induction s as [|a s IH]; unfold Spec.chars; simpl.
  - by rewrite elem_of_nil.
  - rewrite elem_of_cons. intros [-> | Hin].
    + exists a. split; [apply list_elem_of_here | done].
    + destruct (IH Hin) as (d & Hd & ->). exists d.
      split; [by apply list_elem_of_further | done].
Qed.

(** Every code unit of a field was read from the text or was in the field
    under construction, and is no white space. *)
Lemma split_go_chars (P : ascii → Prop) (s cur : string) (in_run : bool) :
  (∀ c, c ∈ Spec.chars cur → P c) →
  (∀ c, c ∈ Spec.chars s → Char.is_space c = false → P c) →
  ∀ t c, t ∈ Str.split_go in_run cur s → c ∈ Spec.chars t → P c.
Proof.
  revert cur in_run. induction s as [|a s IH]; intros cur in_run Hcur Hs t c; simpl.
  - intros Ht%list_elem_of_singleton Hc. subst t.
    apply Hcur. by apply chars_rev.
  - assert (Hs' : ∀ c, c ∈ Spec.chars s → Char.is_space c = false → P c).
    { intros d Hd. apply Hs. unfold Spec.chars. simpl.
      by apply list_elem_of_further. }
    destruct (Char.is_space a) eqn:Ha.
    + destruct in_run.
      * by apply IH.
      * rewrite elem_of_cons. intros [-> | Ht] Hc.
        -- apply Hcur. by apply chars_rev.
        -- revert Ht Hc. apply IH; [|done].
           intros d. unfold Spec.chars. simpl. by rewrite elem_of_nil.
    + apply IH; [|done].
      intros d. unfold Spec.chars. simpl. rewrite elem_of_cons.
      intros [-> | Hd]; [|by apply Hcur].
      apply Hs; [|done]. unfold Spec.chars. simpl. apply list_elem_of_here.
Qed.

Lemma is_kept_not_space (c : ascii) :
  Char.is_kept c = true → Char.is_space c = false →
  Char.is_token_char c = true.
Proof.
  unfold Char.is_kept, Char.is_token_char. intros Hk Hs.
  rewrite Hs, orb_false_r in Hk. exact Hk.
Qed.

Lemma tokenize_token_chars (text t : string) :
  t ∈ tokenize text → Spec.token_shape t.
Proof.
  intros [Hlen Hin]%elem_of_tokenize. split; [done|].
  intros c Hc. clear Hlen. revert t c Hin Hc.
  apply split_go_chars.
  - intros c. unfold Spec.chars. simpl. by rewrite elem_of_nil.
  - intros c Hc Hspace. apply is_kept_not_space; [|done].
    apply chars_map in Hc as (d & _ & ->).
    destruct (Char.is_kept d) eqn:Hd; [done | reflexivity].
Qed.

(** *** Relevance *)

Lemma relevance_of_fold (paperTokens topicTokens : list string) (n : nat) :
  fold_left
    (λ relevance t, if JsSet.has paperTokens t then S relevance else relevance)
    topicTokens n
  = n + length (filter (λ t, t ∈ paperTokens) topicTokens).
Proof.
  revert n. induction topicTokens as [|t l IH]; intros n; simpl.
  - lia.
  - rewrite IH. unfold JsSet.has. rewrite filter_cons.
    case_bool_decide; destruct (decide _); try done; simpl; lia.
Qed.

Lemma relevance_of_filter (topicTokens paperTokens : list string) :
  relevance topicTokens paperTokens
  = length (filter (λ t, t ∈ paperTokens) topicTokens).
Proof. unfold relevance. by rewrite relevance_of_fold. Qed.

Lemma relevance_of_intersection (topicTokens paperTokens : list string) :
  NoDup topicTokens →
  relevance topicTokens paperTokens
  = size (list_to_set topicTokens ∩ list_to_set paperTokens : gset string).
Proof.
  intros Hnd. rewrite relevance_of_filter.
  rewrite <- (size_list_to_set (C := gset string))
    by by apply NoDup_filter.
  f_equal. apply set_eq. intros t.
  rewrite elem_of_intersection, !elem_of_list_to_set, list_elem_of_filter.
  tauto.
Qed.

Lemma relevance_of_le (topicTokens paperTokens : list string) :
  relevance topicTokens paperTokens ≤ length topicTokens.
Proof. rewrite relevance_of_filter. apply length_filter. Qed.

Lemma rawPoint_relevance (s : ResearchSession) (p : Paper) :
  raw_relevance (rawPoint (tokenize (topicText s)) p) = Spec.relevance s p.
Proof.
  simpl. unfold Spec.relevance, Spec.token_set.
  apply relevance_of_intersection, tokenize_NoDup.
Qed.

(** C3, as stated, fails on the tokens: punctuation is not all stripped,
    the hyphens of a text stay in its tokens. *)
Lemma hyphen_not_stripped :
  tokenize (paperText Sample.paper_sota) = ["state-of-the-art"; "diagnostics"]
  ∧ ¬ Spec.punctuation_stripped (tokenize (paperText Sample.paper_sota)).
Proof.
  split; [vm_compute; reflexivity|].
  intros Hstripped.
  specialize (Hstripped "state-of-the-art" "-"%char).
  assert (Hfalse : Char.is_punctuation "-" = false); [|discriminate Hfalse].
  apply Hstripped.
  - vm_compute. apply list_elem_of_here.
  - vm_compute. do 5 apply list_elem_of_further. apply list_elem_of_here.
Qed.

(** C3, amended — the relevance of every bar is the number of distinct
    tokens that the session's token set (title and topic) and the paper's
    token set (title and abstract) share; a token is a run, at least four
    code units long, of lower-case letters, digits and hyphens: the texts
    are lower-cased, every other character that is not white space is
    turned into a space, and hyphens are kept. *)
Theorem relevance_is_shared_tokens (s : ResearchSession) (l : list Paper) :
  item_relevance <$> metricsChartData (Some s) l = Spec.relevance s <$> l
  ∧ (∀ text t, t ∈ tokenize text → Spec.token_shape t)
  ∧ (∀ text t,
       t ∈ tokenize text ↔
       4 ≤ String.length t
       ∧ t ∈ Str.split_spaces (Str.blank_other (Str.toLowerCase text))).
Proof.
  split; [|split].
  - rewrite (metricsChartData_field item_relevance raw_relevance)
      by reflexivity.
    apply list_fmap_ext. intros i p _. apply rawPoint_relevance.
  - apply tokenize_token_chars.
  - apply elem_of_tokenize.
Qed.

Lemma relevance_is_shared_tokens_witness :
  item_relevance <$>
    metricsChartData (Some Sample.session_sota)
      [Sample.paper_sota; Sample.paper_A; Sample.paper_B]
  = [1; 1; 0]
  ∧ "state-of-the-art" ∈ tokenize (paperText Sample.paper_sota)
  ∧ Spec.token_shape "state-of-the-art".
Proof.
  destruct (relevance_is_shared_tokens Sample.session_sota
    [Sample.paper_sota; Sample.paper_A; Sample.paper_B]) as (Hrel & Hshape & _).
  assert (Hin : "state-of-the-art" ∈ tokenize (paperText Sample.paper_sota)).
  { vm_compute. apply list_elem_of_here. }
  split; [rewrite Hrel; vm_compute; reflexivity|].
  split; [exact Hin | exact (Hshape _ _ Hin)].
Defined.

(** ** Whole-word matches *)

Lemma forall_ascii (P : ascii → bool) :
  forallb P Spec.all_ascii = true → ∀ c, P c = true.
Proof.
  intros Hall c. rewrite forallb_forall in Hall. apply Hall.
  apply list_elem_of_In. unfold Spec.all_ascii.
  rewrite <- (ascii_nat_embedding c).
  apply list_elem_of_fmap_2, elem_of_seq.
  pose proof (nat_ascii_bounded c). lia.
Qed.

(** A code unit that equals a word character under the [i] flag is a word
    character. *)
Lemma canonicalize_word (c d : ascii) :
  Char.canonicalize c = Char.canonicalize d →
  Char.is_word c = true → Char.is_word d = true.
Proof.
  intros Hcd Hc.
  pose proof (forall_ascii
    (λ c, forallb
       (λ d, implb
          (bool_decide (Char.canonicalize c = Char.canonicalize d)
           && Char.is_word c)
          (Char.is_word d)) Spec.all_ascii)) as Hall.
  specialize (Hall ltac:(vm_compute; reflexivity) c).
  pose proof (forall_ascii _ Hall d) as Hd. simpl in Hd.
  rewrite bool_decide_true, Hc in Hd by done. exact Hd.
Qed.

Lemma literal_at_get (t text : string) (a : nat) :
  Regex.literal_at t text a = true →
  ∀ k c, String.get k t = Some c →
  ∃ d, String.get (a + k) text = Some d
       ∧ Char.canonicalize c = Char.canonicalize d.
Proof.
  revert a. induction t as [|c0 t IH]; intros a Hlit k c Hget.
  - discriminate Hget.
  - simpl in Hlit. destruct (String.get a text) as [d0|] eqn:Hd0; [|done].
    apply andb_true_iff in Hlit as [Heq Hlit].
    apply bool_decide_eq_true in Heq.
    destruct k as [|k]; simpl in Hget.
    + injection Hget as <-. exists d0. by rewrite Nat.add_0_r.
    + destruct (IH _ Hlit k c Hget) as (d & Hd & Hcd).
      exists d. by rewrite <- Nat.add_succ_comm.
Qed.

Lemma get_chars (t : string) (k : nat) (c : ascii) :
  String.get k t = Some c → c ∈ Spec.chars t.
Proof.
  revert k. induction t as [|c0 t IH]; intros k Hget; [discriminate Hget|].
  unfold Spec.chars. simpl. destruct k as [|k]; simpl in Hget.
  - injection Hget as <-. apply list_elem_of_here.
  - apply list_elem_of_further. by apply (IH k).
Qed.

Lemma get_lt (t : string) (k : nat) :
  k < String.length t → ∃ c, String.get k t = Some c.
Proof.
  revert k. induction t as [|c0 t IH]; intros k Hk; simpl in Hk; [lia|].
  destruct k as [|k]; simpl; [by eexists|]. apply IH. lia.
Qed.

(** Inside a match of a hyphen-free token every code unit is a word
    character. *)
Lemma literal_at_word (t text : string) (a i : nat) :
  Spec.hyphen_free t → Regex.literal_at t text a = true →
  a ≤ i < a + String.length t → Regex.is_word_at text i = true.
Proof.
  intros Hfree Hlit Hi.
  destruct (get_lt t (i - a)) as [c Hc]; [lia|].
  destruct (literal_at_get _ _ _ Hlit _ _ Hc) as (d & Hd & Hcd).
  replace (a + (i - a)) with i in Hd by lia.
  unfold Regex.is_word_at. rewrite Hd.
  apply (canonicalize_word c); [done|]. apply Hfree. by eapply get_chars.
Qed.

(** Two matches of a hyphen-free token do not overlap: a second match
    cannot begin inside the first, where there is no word boundary. *)
Lemma matches_apart (t text : string) (a b : nat) :
  Spec.hyphen_free t →
  Regex.matches_at t text a = true → Regex.matches_at t text b = true →
  a < b → a + Scan.width t ≤ b.
Proof.
  intros Hfree Ha Hb Hab.
  unfold Scan.width.
  destruct (decide (a + String.length t ≤ b)) as [|Hlt]; [lia|].
  exfalso. unfold Regex.matches_at in Ha, Hb.
  apply andb_true_iff in Ha as [[_ Hlit]%andb_true_iff _].
  apply andb_true_iff in Hb as [[Hbound _]%andb_true_iff _].
  unfold Regex.word_boundary in Hbound.
  destruct b as [|b]; [lia|].
  rewrite (literal_at_word t text a b) in Hbound by (done || lia).
  rewrite (literal_at_word t text a (S b)) in Hbound by (done || lia).
  discriminate Hbound.
Qed.

(** *** The global match and the occurrences kept from the left *)

Section Matches.
Variables t text : string.

Lemma keep_disjoint_le (next : nat) (l : list nat) :
  Scan.keep_disjoint (Scan.width t) next l ≤ length l.
Proof.
  revert next. induction l as [|i l IH]; intros next; simpl; [lia|].
  case_bool_decide.
  - specialize (IH (i + Scan.width t)). lia.
  - specialize (IH next). lia.
Qed.

(** Indices below [next] are passed over. *)
Lemma keep_disjoint_skip (n j next : nat) :
  j ≤ next →
  Scan.keep_disjoint (Scan.width t) next (filter (Scan.match_at t text) (seq j n))
  = Scan.keep_disjoint (Scan.width t) next (filter (Scan.match_at t text) (seq next (j + n - next))).
Proof.
  revert j. induction n as [|n IH]; intros j Hj.
  - replace (j + 0 - next) with 0 by lia. reflexivity.
  - destruct (decide (j = next)) as [->|Hne].
    + by replace (next + S n - next) with (S n) by lia.
    + replace (j + S n - next) with (S j + n - next) by lia.
      rewrite <- IH by lia. simpl seq. rewrite filter_cons.
      destruct (decide (Scan.match_at t text j)); [|done].
      simpl. rewrite bool_decide_false by lia. done.
Qed.

Lemma keep_disjoint_next (next next' : nat) (l : list nat) :
  Forall (λ i, next ≤ i ∧ next' ≤ i) l →
  Scan.keep_disjoint (Scan.width t) next l = Scan.keep_disjoint (Scan.width t) next' l.
Proof.
  intros Hall. destruct l as [|i l]; [done|].
  apply Forall_cons in Hall as [[Hi Hi'] _]. simpl.
  by rewrite !bool_decide_true.
Qed.

Lemma match_count_disjoint (fuel i : nat) :
  S (String.length text) - i ≤ fuel →
  Regex.match_count fuel t text i
  = Scan.keep_disjoint (Scan.width t) i
      (filter (Scan.match_at t text) (seq i (S (String.length text) - i))).
Proof.
  revert i. induction fuel as [|fuel IH]; intros i Hfuel.
  - by replace (S (String.length text) - i) with 0 by lia.
  - simpl. case_bool_decide as Hend.
    + by replace (S (String.length text) - i) with 0 by lia.
    + replace (S (String.length text) - i)
        with (S (String.length text - i)) by lia.
      simpl seq. rewrite filter_cons.
      destruct (decide (Scan.match_at t text i)) as [Hm|Hm].
      * unfold Scan.match_at in Hm. rewrite Hm. simpl.
        rewrite bool_decide_true by done. f_equal.
        fold (Scan.width t). rewrite IH by (unfold Scan.width; lia).
        rewrite (keep_disjoint_skip _ (S i)) by (unfold Scan.width; lia).
        do 3 f_equal. lia.
      * apply not_true_is_false in Hm. rewrite Hm.
        rewrite IH by lia.
        replace (S (String.length text) - S i)
          with (String.length text - i) by lia.
        apply keep_disjoint_next, Forall_forall.
        intros j [_ Hj%elem_of_seq]%list_elem_of_filter. lia.
Qed.

(** The rounds given to the global match are enough: more change
    nothing. *)
Lemma match_count_fuel (fuel : nat) :
  S (String.length text) ≤ fuel →
  Regex.match_count fuel t text 0 = Regex.match_all t text.
Proof.
  intros Hfuel. unfold Regex.match_all.
  rewrite !match_count_disjoint by lia. done.
Qed.

Lemma match_all_disjoint :
  Regex.match_all t text = Scan.disjoint_matches t text.
Proof.
  unfold Regex.match_all. rewrite match_count_disjoint by lia.
  by rewrite Nat.sub_0_r.
Qed.

Lemma match_all_le :
  Regex.match_all t text ≤ length (Scan.match_indices t text).
Proof. rewrite match_all_disjoint. apply keep_disjoint_le. Qed.

(** When the occurrences lie at least [width] apart all are kept. *)
Lemma keep_disjoint_all (next n j : nat) :
  (∀ a b, Scan.match_at t text a → Scan.match_at t text b → a < b → a + Scan.width t ≤ b) →
  next ≤ j ∨ (∃ a, Scan.match_at t text a ∧ a < j ∧ next = a + Scan.width t) →
  Scan.keep_disjoint (Scan.width t) next (filter (Scan.match_at t text) (seq j n))
  = length (filter (Scan.match_at t text) (seq j n)).
Proof.
  intros Hapart. revert next j. induction n as [|n IH]; intros next j Hnext.
  - done.
  - simpl seq. rewrite filter_cons. destruct (decide (Scan.match_at t text j)) as [Hj|Hj].
    + simpl. rewrite bool_decide_true.
      * f_equal. apply IH. right. exists j. split; [done|]. lia.
      * destruct Hnext as [|(a & Ha & Haj & ->)]; [done|].
        by apply Hapart.
    + apply IH. destruct Hnext as [|(a & Ha & Haj & ->)]; [left; lia|].
      right. exists a. split; [done|]. lia.
Qed.

Lemma match_all_hyphen_free :
  Spec.hyphen_free t →
  Regex.match_all t text = length (Scan.match_indices t text).
Proof.
  intros Hfree. rewrite match_all_disjoint.
  apply keep_disjoint_all; [|left; lia].
  intros a b Ha Hb Hab. exact (matches_apart t text a b Hfree Ha Hb Hab).
Qed.

End Matches.

Lemma keywordHits_of_fold (text : string) (topicTokens : list string) (n : nat) :
  fold_left (λ keywordHits t, keywordHits + Regex.match_all t text)
    topicTokens n
  = n + sum_list_with (λ t, Regex.match_all t text) topicTokens.
Proof.
  revert n. induction topicTokens as [|t l IH]; intros n; simpl; [lia|].
  rewrite IH. lia.
Qed.

Lemma keywordHits_of_sum (topicTokens : list string) (text : string) :
  keywordHits topicTokens text
  = sum_list_with (λ t, Regex.match_all t text) topicTokens.
Proof. unfold keywordHits. by rewrite keywordHits_of_fold. Qed.

Lemma sum_list_with_ext_in {A} (f g : A → nat) (l : list A) :
  (∀ x, x ∈ l → f x = g x) → sum_list_with f l = sum_list_with g l.
Proof.
  induction l as [|x l IH]; intros Hfg; simpl; [done|].
  rewrite Hfg by apply list_elem_of_here.
  rewrite IH; [done|]. intros y Hy. apply Hfg. by apply list_elem_of_further.
Qed.

Lemma sum_list_with_le {A} (f g : A → nat) (l : list A) :
  (∀ x, f x ≤ g x) → sum_list_with f l ≤ sum_list_with g l.
Proof.
  intros Hfg. induction l as [|x l IH]; simpl; [done|].
  specialize (Hfg x). lia.
Qed.

(** ** Binary64 arithmetic of the relevance score *)

Section Binary64.

Local Open Scope Z_scope.

Lemma fexp_eq (e : Z) :
  SpecFloat.fexp Num.prec Num.emax e = Z.max (e - 53) (-1074).
Proof. reflexivity. Qed.

Lemma digits2_size (p : positive) : digits2_pos p = Pos.size p.
Proof. induction p; simpl; congruence. Qed.

Lemma size_bounds (p : positive) :
  2 ^ (Z.pos (Pos.size p) - 1) ≤ Z.pos p < 2 ^ Z.pos (Pos.size p).
Proof.
  pose proof (Pos.size_gt p) as Hgt. pose proof (Pos.size_le p) as Hle.
  apply Pos2Z.pos_lt_pos in Hgt. apply Pos2Z.pos_le_pos in Hle.
  rewrite Pos2Z.inj_pow in Hgt, Hle. rewrite (Pos2Z.inj_xO p) in Hle.
  split; [|exact Hgt].
  replace (Z.pos (Pos.size p)) with (Z.pos (Pos.size p) - 1 + 1) in Hle
    by lia.
  rewrite Z.pow_add_r, Z.pow_1_r in Hle by lia. lia.
Qed.

(** A mantissa below [2^k] has at most [k] digits. *)
Lemma digits_le (m k : Z) :
  0 ≤ m → 0 ≤ k → m ≤ 2 ^ k → Zdigits2 m ≤ k + 1.
Proof.
  intros Hm Hk Hle. destruct m as [|p|p]; simpl; [lia| |lia].
  rewrite digits2_size. destruct (size_bounds p) as [Hlo _].
  destruct (Z.le_gt_cases (Z.pos (Pos.size p)) (k + 1)) as [|Hgt]; [done|].
  assert (2 ^ (k + 1) ≤ 2 ^ (Z.pos (Pos.size p) - 1))
    by (apply Z.pow_le_mono_r; lia).
  rewrite Z.pow_add_r, Z.pow_1_r in H by lia.
  assert (0 < 2 ^ k) by (apply Z.pow_pos_nonneg; lia). lia.
Qed.

(** *** Shifting right *)

Lemma shr_1_spec (r : shr_record) :
  0 ≤ shr_m r →
  0 ≤ shr_m (shr_1 r)
  ∧ shr_m (shr_1 r) = shr_m r / 2
  ∧ (Spec.exact_record r → shr_m r mod 2 = 0 → Spec.exact_record (shr_1 r)).
Proof.
  destruct r as [m b s]. cbn [shr_m]. intros Hm.
  unfold Spec.exact_record.
  destruct m as [|[p|p|]|p]; cbn [shr_1 shr_m shr_r shr_s]; try lia.
  - split; [lia|]. split; [done|]. intros [-> ->] _. done.
  - rewrite (Pos2Z.inj_xI p). split; [lia|]. split.
    + apply (Z.div_unique _ _ _ 1); lia.
    + intros _ Hmod. exfalso.
      rewrite Z.add_comm, Z.mul_comm, Z.mod_add in Hmod by lia.
      discriminate Hmod.
  - rewrite (Pos2Z.inj_xO p). split; [lia|]. split.
    + apply (Z.div_unique _ _ _ 0); lia.
    + intros [-> ->] _. done.
  - split; [lia|]. split; [done|]. intros _ Hmod. discriminate Hmod.
Qed.

Lemma shr_iter_spec (p : positive) (r : shr_record) :
  0 ≤ shr_m r →
  0 ≤ shr_m (SpecFloat.iter_pos shr_1 p r)
  ∧ shr_m (SpecFloat.iter_pos shr_1 p r) = shr_m r / 2 ^ Z.pos p
  ∧ (Spec.exact_record r → shr_m r mod 2 ^ Z.pos p = 0 →
     Spec.exact_record (SpecFloat.iter_pos shr_1 p r)).
Proof.
  revert r. induction p as [p IH|p IH|]; intros r Hm; simpl.
  - destruct (shr_1_spec r Hm) as (H1 & E1 & X1).
    destruct (IH _ H1) as (H2 & E2 & X2).
    destruct (IH _ H2) as (H3 & E3 & X3).
    assert (Hpow : 2 ^ Z.pos p~1 = 2 * (2 ^ Z.pos p * 2 ^ Z.pos p)).
    { rewrite (Pos2Z.inj_xI p), Z.pow_add_r, Z.pow_1_r by lia.
      replace (2 * Z.pos p) with (Z.pos p + Z.pos p) by lia.
      rewrite Z.pow_add_r by lia. lia. }
    assert (0 < 2 ^ Z.pos p) by (apply Z.pow_pos_nonneg; lia).
    split; [done|]. split.
    + rewrite E3, E2, E1, Hpow. rewrite !Z.div_div by lia. done.
    + intros Hx Hmod. rewrite Hpow in Hmod.
      apply Z.mod_divide in Hmod as [k Hk]; [|lia].
      apply X3; [apply X2; [apply X1; [done|] |] |].
      * rewrite Hk. apply Z.mod_divide; [lia|].
        exists (k * (2 ^ Z.pos p * 2 ^ Z.pos p)). lia.
      * rewrite E1, Hk. apply Z.mod_divide; [lia|].
        exists (k * 2 ^ Z.pos p).
        replace (k * (2 * (2 ^ Z.pos p * 2 ^ Z.pos p)))
          with ((k * 2 ^ Z.pos p * 2 ^ Z.pos p) * 2) by lia.
        rewrite Z.div_mul by lia. lia.
      * rewrite E2, E1, Hk. apply Z.mod_divide; [lia|]. exists k.
        replace (k * (2 * (2 ^ Z.pos p * 2 ^ Z.pos p)))
          with ((k * 2 ^ Z.pos p * 2 ^ Z.pos p) * 2) by lia.
        rewrite Z.div_mul by lia. rewrite Z.div_mul by lia. done.
  - destruct (IH _ Hm) as (H2 & E2 & X2).
    destruct (IH _ H2) as (H3 & E3 & X3).
    assert (Hpow : 2 ^ Z.pos p~0 = 2 ^ Z.pos p * 2 ^ Z.pos p).
    { rewrite (Pos2Z.inj_xO p).
      replace (2 * Z.pos p) with (Z.pos p + Z.pos p) by lia.
      rewrite Z.pow_add_r by lia. lia. }
    assert (0 < 2 ^ Z.pos p) by (apply Z.pow_pos_nonneg; lia).
    split; [done|]. split.
    + rewrite E3, E2, Hpow. rewrite !Z.div_div by lia. done.
    + intros Hx Hmod. rewrite Hpow in Hmod.
      apply Z.mod_divide in Hmod as [k Hk]; [|lia].
      apply X3; [apply X2; [done|] |].
      * rewrite Hk. apply Z.mod_divide; [lia|].
        exists (k * 2 ^ Z.pos p). lia.
      * rewrite E2, Hk. apply Z.mod_divide; [lia|]. exists k.
        replace (k * (2 ^ Z.pos p * 2 ^ Z.pos p))
          with (k * 2 ^ Z.pos p * 2 ^ Z.pos p) by lia.
        rewrite Z.div_mul by lia. done.
  - destruct (shr_1_spec r Hm) as (H1 & E1 & X1).
    rewrite Z.pow_1_r. done.
Qed.

Lemma round_nearest_even_room (m : Z) (l : location) :
  m ≤ round_nearest_even m l ≤ m + Spec.room l.
Proof.
  destruct l as [|[]]; simpl; try lia. destruct (Z.even m); lia.
Qed.

Lemma shr_record_of_loc_m (m : Z) (l : location) :
  shr_m (shr_record_of_loc m l) = m.
Proof. by destruct l as [|[]]. Qed.

Lemma loc_of_shr_record_of_loc (m : Z) (l : location) :
  loc_of_shr_record (shr_record_of_loc m l) = l.
Proof. by destruct l as [|[]]. Qed.

Lemma exact_loc (r : shr_record) :
  Spec.exact_record r → loc_of_shr_record r = loc_Exact.
Proof. destruct r as [m b s]. intros [Hb Hs]. simpl in *. by subst. Qed.

(** *** Rounding to the format, bounded *)

Lemma room_0 (l : location) : Spec.room l ≤ 0 → l = loc_Exact.
Proof. destruct l; simpl; [done | lia]. Qed.

(** One shift to the exponent of the format keeps a value that is at
    most the integer [B] at most [B] after rounding to nearest. *)
Lemma shr_fexp_within (B mx ex : Z) (lx : location) :
  0 < B ≤ 2 ^ 7 → 0 ≤ mx → ex < 0 →
  mx + Spec.room lx ≤ B * 2 ^ (- ex) →
  let mrs := (shr_fexp Num.prec Num.emax mx ex lx).1 in
  let e := (shr_fexp Num.prec Num.emax mx ex lx).2 in
  e < 0 ∧ 0 ≤ shr_m mrs
  ∧ round_nearest_even (shr_m mrs) (loc_of_shr_record mrs) ≤ B * 2 ^ (- e).
Proof.
  intros HB Hmx Hex Hle. unfold shr_fexp, shr.
  pose proof (round_nearest_even_room mx lx) as Hroom.
  assert (Hsame :
    ex < 0 ∧ 0 ≤ shr_m (shr_record_of_loc mx lx)
    ∧ round_nearest_even (shr_m (shr_record_of_loc mx lx))
        (loc_of_shr_record (shr_record_of_loc mx lx)) ≤ B * 2 ^ (- ex)).
  { rewrite shr_record_of_loc_m, loc_of_shr_record_of_loc. lia. }
  destruct (SpecFloat.fexp Num.prec Num.emax (Zdigits2 mx + ex) - ex) as [|p|p] eqn:Hn;
    cbn [fst snd Datatypes.fst Datatypes.snd]; [exact Hsame| |exact Hsame].
  clear Hsame.
  assert (Hpow : 0 < 2 ^ (- ex)) by (apply Z.pow_pos_nonneg; lia).
  assert (Hdig : Zdigits2 mx ≤ 7 - ex + 1).
  { apply digits_le; [lia..|].
    replace (7 - ex) with (7 + - ex) by lia. rewrite Z.pow_add_r by lia.
    assert (B * 2 ^ (- ex) ≤ 2 ^ 7 * 2 ^ (- ex))
      by (apply Z.mul_le_mono_nonneg_r; lia).
    assert (0 ≤ Spec.room lx) by (destruct lx; simpl; lia). lia. }
  rewrite fexp_eq in Hn.
  assert (He : ex + Z.pos p < 0) by lia.
  destruct (shr_iter_spec p (shr_record_of_loc mx lx)) as (H1 & E1 & X1).
  { rewrite shr_record_of_loc_m. lia. }
  rewrite shr_record_of_loc_m in E1, X1.
  set (K := B * 2 ^ (- (ex + Z.pos p))).
  assert (H2p : 0 < 2 ^ Z.pos p) by (apply Z.pow_pos_nonneg; lia).
  assert (HK : B * 2 ^ (- ex) = K * 2 ^ Z.pos p).
  { unfold K. rewrite <- Z.mul_assoc, <- Z.pow_add_r by lia.
    do 2 f_equal. lia. }
  split; [exact He|]. split; [exact H1|].
  pose proof (round_nearest_even_room
    (shr_m (SpecFloat.iter_pos shr_1 p (shr_record_of_loc mx lx)))
    (loc_of_shr_record
       (SpecFloat.iter_pos shr_1 p (shr_record_of_loc mx lx)))) as Hr.
  assert (Hm1 : mx / 2 ^ Z.pos p ≤ K).
  { apply Z.div_le_upper_bound; [done|]. lia. }
  destruct (Z.lt_ge_cases (mx / 2 ^ Z.pos p) K) as [Hlt|Hge].
  - assert (Spec.room
      (loc_of_shr_record
         (SpecFloat.iter_pos shr_1 p (shr_record_of_loc mx lx))) ≤ 1)
      by (destruct (loc_of_shr_record _); simpl; lia).
    lia.
  - pose proof (Z.mul_div_le mx (2 ^ Z.pos p) H2p) as Hfloor.
    assert (Hmx' : mx = K * 2 ^ Z.pos p) by nia.
    assert (Hlx : lx = loc_Exact).
    { apply room_0. destruct lx; simpl in *; nia. }
    subst lx. rewrite exact_loc.
    + cbn [round_nearest_even]. rewrite E1. exact Hm1.
    + apply X1; [done|]. rewrite Hmx'. apply Z.mod_mul. lia.
Qed.

Lemma round_aux_within (B mx ex : Z) (lx : location) :
  0 < B ≤ 2 ^ 7 → 0 ≤ mx → ex < 0 →
  mx + Spec.room lx ≤ B * 2 ^ (- ex) →
  Spec.within B (binary_round_aux Num.prec Num.emax false mx ex lx).
Proof.
  intros HB Hmx Hex Hle. unfold binary_round_aux.
  destruct (shr_fexp_within B mx ex lx HB Hmx Hex Hle) as (He1 & Hm1 & Hr1).
  destruct (shr_fexp Num.prec Num.emax mx ex lx) as [mrs1 e1].
  cbn [fst snd] in He1, Hm1, Hr1.
  pose proof (round_nearest_even_room (shr_m mrs1)
                (loc_of_shr_record mrs1)) as Hroom1.
  set (m2 := round_nearest_even (shr_m mrs1) (loc_of_shr_record mrs1)) in *.
  destruct (shr_fexp_within B m2 e1 loc_Exact HB) as (He2 & Hm2 & Hr2);
    [lia | done | simpl; lia |].
  destruct (shr_fexp Num.prec Num.emax m2 e1 loc_Exact) as [mrs2 e2].
  cbn [fst snd] in He2, Hm2, Hr2.
  pose proof (round_nearest_even_room (shr_m mrs2)
                (loc_of_shr_record mrs2)) as Hroom2.
  destruct (shr_m mrs2) as [|m|m]; [done| |lia].
  replace (e2 <=? Num.emax - Num.prec) with true
    by (symmetry; apply Z.leb_le; unfold Num.emax, Num.prec; lia).
  simpl. lia.
Qed.

(** *** Integers as doubles *)

Lemma iter_xO_spec (p d : positive) :
  Z.pos (Pos.iter xO p d) = Z.pos p * 2 ^ Z.pos d
  ∧ Pos.size (Pos.iter xO p d) = (Pos.size p + d)%positive.
Proof.
  induction d as [|d [IHv IHs]] using Pos.peano_ind.
  - simpl. split; [lia|]. symmetry. apply Pos.add_1_r.
  - rewrite Pos.iter_succ. split.
    + rewrite (Pos2Z.inj_xO (Pos.iter xO p d)), IHv, Pos2Z.inj_succ.
      rewrite Z.pow_succ_r by lia. lia.
    + simpl. rewrite IHs. lia.
Qed.

(** A mantissa of 53 digits at an exponent of the format is a double
    already. *)
Lemma round_aux_canonical (s : bool) (m : positive) (e : Z) :
  Pos.size m = 53%positive → -1074 ≤ e ≤ 971 →
  binary_round_aux Num.prec Num.emax s (Z.pos m) e loc_Exact
  = S754_finite s m e.
Proof.
  intros Hsize He. unfold binary_round_aux, shr_fexp.
  cbn [Zdigits2 shr_record_of_loc]. rewrite digits2_size, Hsize, fexp_eq.
  replace (Z.max (53 + e - 53) (-1074) - e) with 0 by lia.
  cbn [shr shr_m loc_of_shr_record round_nearest_even Zdigits2
       shr_record_of_loc].
  rewrite digits2_size, Hsize, fexp_eq.
  replace (Z.max (53 + e - 53) (-1074) - e) with 0 by lia.
  cbn [shr shr_m].
  replace (e <=? Num.emax - Num.prec) with true; [done|].
  symmetry. apply Z.leb_le. unfold Num.emax, Num.prec. lia.
Qed.

Lemma of_Z_pos (p : positive) :
  Z.pos p < 2 ^ 53 →
  ∃ m, Num.of_Z (Z.pos p) = S754_finite false m (Z.pos (Pos.size p) - 53)
       ∧ Z.pos m = Z.pos p * 2 ^ (53 - Z.pos (Pos.size p)).
Proof.
  intros Hp. destruct (size_bounds p) as [Hlo _].
  assert (Hsize : Z.pos (Pos.size p) ≤ 53).
  { destruct (Z.le_gt_cases (Z.pos (Pos.size p)) 53) as [|Hgt]; [done|].
    assert (2 ^ 53 ≤ 2 ^ (Z.pos (Pos.size p) - 1))
      by (apply Z.pow_le_mono_r; lia). lia. }
  unfold Num.of_Z, binary_normalize, binary_round, shl_align.
  rewrite digits2_size, fexp_eq.
  replace (Z.max (Z.pos (Pos.size p) + 0 - 53) (-1074) - 0)
    with (Z.pos (Pos.size p) - 53) by lia.
  replace (Z.max (Z.pos (Pos.size p) + 0 - 53) (-1074))
    with (Z.pos (Pos.size p) - 53) by lia.
  destruct (Z.pos (Pos.size p) - 53) as [|d|d] eqn:Hd; [|lia|].
  - exists p. rewrite round_aux_canonical; [|lia|lia].
    split; [done|]. replace (53 - Z.pos (Pos.size p)) with 0 by lia. lia.
  - destruct (iter_xO_spec p d) as [Hv Hs].
    exists (Pos.iter xO p d). rewrite round_aux_canonical; [|lia|lia].
    split; [done|]. rewrite Hv. do 2 f_equal. lia.
Qed.

(** *** The quotient *)

Lemma new_location_room (nb k : Z) :
  0 ≤ Spec.room (new_location nb k) ≤ 1
  ∧ (k = 0 → Spec.room (new_location nb k) = 0).
Proof.
  unfold new_location, new_location_even, new_location_odd.
  destruct (Z.even nb); destruct (Z.eqb_spec k 0); simpl; lia.
Qed.

(** A quotient of two doubles that is at most 1 before rounding is at
    most 1 after. *)
Lemma div_within_one (mr mm : positive) (er em : Z) :
  er ≤ em → Z.pos mr ≤ Z.pos mm * 2 ^ (em - er) →
  Spec.within 1
    (Num.div (S754_finite false mr er) (S754_finite false mm em)).
Proof.
  intros He Hle. unfold Num.div, SFdiv, SFdiv_core_binary.
  cbn [Zdigits2 xorb]. rewrite (digits2_size mr), (digits2_size mm).
  destruct (size_bounds mr) as [Hr1 Hr2].
  destruct (size_bounds mm) as [Hm1 Hm2].
  set (d1 := Z.pos (Pos.size mr)) in *. set (d2 := Z.pos (Pos.size mm)) in *.
  assert (Hd : d1 + er - (d2 + em) ≤ 0).
  { assert (H2 : 0 < 2 ^ (em - er)) by (apply Z.pow_pos_nonneg; lia).
    assert (Hlt : 2 ^ (d1 - 1) < 2 ^ (d2 + (em - er))).
    { rewrite Z.pow_add_r by (unfold d2; lia). nia. }
    apply Z.pow_lt_mono_r_iff in Hlt; unfold d2 in *; lia. }
  rewrite fexp_eq.
  set (e' := Z.min (Z.max (d1 + er - (d2 + em) - 53) (-1074)) (er - em)).
  assert (He' : e' ≤ -53 ∧ e' ≤ er - em) by (unfold e'; lia).
  set (m' := match er - em - e' with
             | 0 => Z.pos mr
             | Z.pos _ => Z.shiftl (Z.pos mr) (er - em - e')
             | Z.neg _ => 0
             end).
  assert (Hm' : m' = Z.pos mr * 2 ^ (er - em - e')).
  { unfold m'. destruct (er - em - e') as [|s|s] eqn:Hs; [simpl; lia| |lia].
    rewrite Z.shiftl_mul_pow2 by lia. done. }
  assert (Hbound : m' ≤ Z.pos mm * 2 ^ (- e')).
  { rewrite Hm'. replace (- e') with ((em - er) + (er - em - e')) by lia.
    rewrite Z.pow_add_r by lia.
    assert (0 < 2 ^ (er - em - e')) by (apply Z.pow_pos_nonneg; lia).
    nia. }
  assert (Hm'0 : 0 ≤ m').
  { rewrite Hm'. assert (0 < 2 ^ (er - em - e'))
      by (apply Z.pow_pos_nonneg; lia). lia. }
  pose proof (Z_div_mod m' (Z.pos mm) ltac:(lia)) as Hdiv.
  destruct (Z.div_eucl m' (Z.pos mm)) as [q r]. destruct Hdiv as [Heq Hrem].
  destruct (new_location_room (Z.pos mm) r) as [Hroom Hexact].
  assert (0 < 2 ^ (- e')) by (apply Z.pow_pos_nonneg; lia).
  cbv beta iota zeta.
  apply round_aux_within; [lia | nia | lia |].
  destruct (Z.eq_dec r 0) as [->|Hr0].
  - rewrite Hexact by done. nia.
  - nia.
Qed.

Lemma div_self (m : positive) (e : Z) :
  Num.div (S754_finite false m e) (S754_finite false m e) = Num.of_Z 1.
Proof.
  unfold Num.div, SFdiv, SFdiv_core_binary. cbn [xorb].
  rewrite !Z.sub_diag. change (SpecFloat.fexp Num.prec Num.emax 0) with (-53).
  change (Z.min (-53) 0) with (-53). change (0 - -53) with 53.
  cbv iota. rewrite Z.shiftl_mul_pow2 by lia.
  pose proof (Z_div_mod (Z.pos m * 2 ^ 53) (Z.pos m) ltac:(lia)) as Hdiv.
  destruct (Z.div_eucl (Z.pos m * 2 ^ 53) (Z.pos m)) as [q r].
  destruct Hdiv as [Heq Hrem].
  assert (q = 2 ^ 53 ∧ r = 0) as [-> ->].
  { apply (Z.div_mod_unique (Z.pos m)); lia. }
  replace (new_location (Z.pos m) 0) with loc_Exact.
  - vm_compute. reflexivity.
  - unfold new_location, new_location_even, new_location_odd.
    by destruct (Z.even _).
Qed.

(** *** The product and its rounding *)

Lemma of_Z_100 : Num.of_Z 100 = S754_finite false 7036874417766400 (-46).
Proof. vm_compute. reflexivity. Qed.

Lemma mul_within_100 (x : spec_float) :
  Spec.within 1 x → Spec.within 100 (Num.mul x (Num.of_Z 100)).
Proof.
  rewrite of_Z_100. destruct x as [[]|[]| |[] m e]; try done.
  intros [He Hm]. unfold Num.mul, SFmul. cbn [xorb].
  assert (0 < 2 ^ (- e)) by (apply Z.pow_pos_nonneg; lia).
  apply round_aux_within; [lia | lia | lia |].
  cbn [Spec.room]. rewrite Pos2Z.inj_mul.
  replace (- (e + -46)) with (46 + - e) by lia.
  rewrite Z.pow_add_r by lia. lia.
Qed.

Lemma round_within_100 (x : spec_float) :
  Spec.within 100 x → ∃ k, 0 ≤ k ≤ 100 ∧ Num.round x = Num.of_Z k.
Proof.
  destruct x as [[]|[]| |[] m e]; try done.
  - intros _. exists 0. split; [lia | done].
  - intros [He Hm]. unfold Num.round.
    replace (0 <=? e) with false by (symmetry; apply Z.leb_gt; lia).
    cbn [cond_Zopp].
    set (k := (2 * Z.pos m + 2 ^ (- e)) / 2 ^ (1 - e)).
    assert (H2 : 0 < 2 ^ (- e)) by (apply Z.pow_pos_nonneg; lia).
    assert (Hpow : 2 ^ (1 - e) = 2 * 2 ^ (- e)).
    { replace (1 - e) with (1 + - e) by lia.
      rewrite Z.pow_add_r by lia. lia. }
    assert (Hk : 0 ≤ k ≤ 100).
    { unfold k. rewrite Hpow. split.
      - apply Z.div_pos; lia.
      - apply Z.lt_succ_r, Z.div_lt_upper_bound; lia. }
    exists k. split; [done|].
    destruct (Z.eqb_spec k 0) as [->|]; done.
Qed.

End Binary64.

(** ** The relevance score *)

Lemma relevanceScore_range (r m : nat) :
  r ≤ m → 0 < m → (Z.of_nat m < 2 ^ 53)%Z →
  ∃ k, (0 ≤ k ≤ 100)%Z ∧ relevanceScore r m = Num.of_Z k.
Proof.
  intros Hrm Hm Hbig. unfold relevanceScore.
  apply round_within_100, mul_within_100. unfold Num.of_nat.
  destruct (Z.of_nat m) as [|pm|pm] eqn:Em; [lia| |lia].
  destruct (of_Z_pos pm Hbig) as (mm & -> & Hmm).
  destruct (Z.of_nat r) as [|pr|pr] eqn:Er; [done| |lia].
  assert (Hle : (Z.pos pr ≤ Z.pos pm)%Z) by lia.
  destruct (of_Z_pos pr ltac:(lia)) as (mr & -> & Hmr).
  destruct (size_bounds pr) as [Hr1 Hr2].
  destruct (size_bounds pm) as [Hm1 Hm2].
  assert (Hsize : (Z.pos (Pos.size pr) ≤ Z.pos (Pos.size pm))%Z).
  { assert (Hlt : (2 ^ (Z.pos (Pos.size pr) - 1)
                   < 2 ^ Z.pos (Pos.size pm))%Z) by lia.
    apply Z.pow_lt_mono_r_iff in Hlt; lia. }
  assert (Hsm : (Z.pos (Pos.size pm) ≤ 53)%Z).
  { destruct (Z.le_gt_cases (Z.pos (Pos.size pm)) 53) as [|Hgt]; [done|].
    assert (2 ^ 53 ≤ 2 ^ (Z.pos (Pos.size pm) - 1))%Z
      by (apply Z.pow_le_mono_r; lia). lia. }
  apply div_within_one; [lia|].
  rewrite Hmr, Hmm, <- Z.mul_assoc, <- Z.pow_add_r by lia.
  replace (53 - Z.pos (Pos.size pm)
           + (Z.pos (Pos.size pm) - 53 - (Z.pos (Pos.size pr) - 53)))%Z
    with (53 - Z.pos (Pos.size pr))%Z by lia.
  apply Z.mul_le_mono_nonneg_r; [|done].
  apply Z.pow_nonneg. lia.
Qed.

Lemma relevanceScore_full (m : nat) :
  0 < m → (Z.of_nat m < 2 ^ 53)%Z → relevanceScore m m = Num.of_Z 100.
Proof.
  intros Hm Hbig. unfold relevanceScore, Num.of_nat.
  destruct (Z.of_nat m) as [|pm|pm] eqn:Em; [lia| |lia].
  destruct (of_Z_pos pm Hbig) as (mm & -> & _).
  rewrite div_self. vm_compute. reflexivity.
Qed.

(** A corpus without any shared token: the divisor is 1, not 0, and the
    score is 0. *)
Lemma relevanceScore_zero : relevanceScore 0 1 = Num.of_Z 0.
Proof. vm_compute. reflexivity. Qed.

(** *** The largest relevance *)

Lemma fold_max_spec (l : list RawPoint) (a : nat) :
  let M := fold_left (λ m p, Nat.max m (raw_relevance p)) l a in
  a ≤ M
  ∧ (∀ p, p ∈ l → raw_relevance p ≤ M)
  ∧ (M = a ∨ ∃ p, p ∈ l ∧ raw_relevance p = M).
Proof.
  revert a. induction l as [|q l IH]; intros a; simpl.
  - split; [done|]. split; [|by left]. intros p Hp. by apply elem_of_nil in Hp.
  - destruct (IH (Nat.max a (raw_relevance q))) as (Hge & Hall & Hex).
    split; [lia|]. split.
    + intros p [->|Hp]%elem_of_cons; [lia | by apply Hall].
    + destruct Hex as [Heq|(p & Hp & Heq)].
      * destruct (Nat.max_spec a (raw_relevance q)) as [[_ Hmax]|[_ Hmax]].
        -- right. exists q. split; [apply list_elem_of_here | lia].
        -- left. lia.
      * right. exists p. split; [by apply list_elem_of_further | done].
Qed.

Lemma maxRelevance_of_spec (l : list RawPoint) :
  0 < maxRelevance l
  ∧ (∀ p, p ∈ l → raw_relevance p ≤ maxRelevance l)
  ∧ (maxRelevance l = 1 ∧ (∀ p, p ∈ l → raw_relevance p = 0)
     ∨ ∃ p, p ∈ l ∧ raw_relevance p = maxRelevance l).
Proof.
  unfold maxRelevance.
  destruct (fold_max_spec l 0) as (_ & Hall & Hex). cbv zeta in Hall, Hex.
  destruct (Nat.eqb_spec (fold_left (λ m p, Nat.max m (raw_relevance p)) l 0) 0)
    as [Hz|Hnz].
  - split; [lia|]. split.
    + intros p Hp. specialize (Hall p Hp). lia.
    + left. split; [done|]. intros p Hp. specialize (Hall p Hp). lia.
  - split; [lia|]. split; [done|]. right.
    destruct Hex as [|Hex]; [done | exact Hex].
Qed.

(** *** How many tokens a text can have *)

Lemma length_rev_app (s1 s2 : string) :
  String.length (String.rev_app s1 s2) = String.length s1 + String.length s2.
Proof.
  revert s2. induction s1 as [|c s1 IH]; intros s2; simpl; [done|].
  rewrite IH. simpl. lia.
Qed.

Lemma length_rev (s : string) : String.length (String.rev s) = String.length s.
Proof. unfold String.rev. rewrite length_rev_app. simpl. lia. Qed.

Lemma length_map (f : ascii → ascii) (s : string) :
  String.length (Str.map f s) = String.length s.
Proof. induction s as [|c s IH]; simpl; [done | by rewrite IH]. Qed.

Lemma split_go_total (s cur : string) (in_run : bool) :
  sum_list_with String.length (Str.split_go in_run cur s)
  ≤ String.length cur + String.length s.
Proof.
  revert cur in_run. induction s as [|c s IH]; intros cur in_run; simpl.
  - rewrite length_rev. lia.
  - destruct (Char.is_space c).
    + destruct in_run.
      * specialize (IH cur true). lia.
      * simpl. rewrite length_rev. specialize (IH "" true). simpl in IH. lia.
    + specialize (IH (String c cur) false). simpl in IH. lia.
Qed.

Lemma long_fields_le (l : list string) :
  length (filter (λ t, 4 ≤ String.length t) l)
  ≤ sum_list_with String.length l.
Proof.
  induction l as [|t l IH]; simpl; [done|].
  rewrite filter_cons. destruct (decide _); simpl; lia.
Qed.

Lemma JsSet_of_list_length (l : list string) :
  length (JsSet.of_list l) ≤ length l.
Proof.
  apply submseteq_length, NoDup_submseteq; [apply JsSet_of_list_NoDup|].
  intros t. by rewrite JsSet_of_list_elem.
Qed.

Lemma tokenize_length (text : string) :
  length (tokenize text) ≤ String.length text.
Proof.
  unfold tokenize. destruct (Str.is_empty text); [simpl; lia|].
  etrans; [apply JsSet_of_list_length|].
  etrans; [apply long_fields_le|].
  etrans; [apply split_go_total|].
  unfold Str.blank_other, Str.toLowerCase. rewrite !length_map. simpl. lia.
Qed.

(** *** The scores of a chart *)

Lemma chart_item_inv (s : ResearchSession) (l : list Paper)
    (item : MetricsChartItem) :
  item ∈ metricsChartData (Some s) l →
  let rawPoints := rawPoint (tokenize (topicText s)) <$> l in
  ∃ p, p ∈ rawPoints
       ∧ item_relevance item = raw_relevance p
       ∧ item_relevanceScore item
         = relevanceScore (raw_relevance p) (maxRelevance rawPoints).
Proof.
  rewrite metricsChartData_items. cbv zeta.
  intros (i & p & -> & Hp)%elem_of_lookup_imap_1.
  exists p. split; [|done]. by eapply list_elem_of_lookup_2.
Qed.

Lemma chart_item_intro (s : ResearchSession) (l : list Paper) (p : RawPoint) :
  p ∈ rawPoint (tokenize (topicText s)) <$> l →
  ∃ item, item ∈ metricsChartData (Some s) l
          ∧ item_relevance item = raw_relevance p.
Proof.
  intros [i Hi]%list_elem_of_lookup_1.
  exists (chartItem (maxRelevance (rawPoint (tokenize (topicText s)) <$> l))
            i p).
  split; [|done]. rewrite metricsChartData_items. cbv zeta.
  by eapply elem_of_lookup_imap_2.
Qed.

Lemma chart_max_small (s : ResearchSession) (l : list Paper) :
  (Z.of_nat (String.length (topicText s)) < 2 ^ 53)%Z →
  (Z.of_nat (maxRelevance (rawPoint (tokenize (topicText s)) <$> l))
   < 2 ^ 53)%Z.
Proof.
  intros Hlen.
  destruct (maxRelevance_of_spec (rawPoint (tokenize (topicText s)) <$> l))
    as (_ & _ & [[-> _]|(p & Hp & <-)]); [lia|].
  apply list_elem_of_fmap in Hp as (q & -> & _). simpl.
  pose proof (relevance_of_le (tokenize (topicText s))
                (tokenize (paperText q))).
  pose proof (tokenize_length (topicText s)). lia.
Qed.

(** C2 — the score is not always round(100 x relevance / max): for a
    topic of forty tokens, a paper that has all forty and a paper that has
    twenty-three of them, the quotient 23/40 and its product with 100 are
    rounded as doubles, the product comes out just under 57.5, and the
    score of the second paper is 57, where 100 x 23 / 40 = 57.5 rounds
    to 58. *)
Theorem relevanceScore_tie_rounds_down :
  let items :=
    metricsChartData (Some Sample.session_forty)
      [Sample.paper_forty; Sample.paper_twenty_three] in
  length (tokenize (topicText Sample.session_forty)) = 40
  ∧ item_relevance <$> items = [40; 23]
  ∧ item_relevanceScore <$> items = [Num.of_Z 100; Num.of_Z 57]
  ∧ Num.mul (Num.div (Num.of_nat 23) (Num.of_nat 40)) (Num.of_nat 100)
    = S754_finite false 8092405580431359 (-47)
  ∧ (2 * (8092405580431359 + 1) = 115 * 2 ^ 47)%Z
  ∧ Spec.relevanceScore 23 40 = 58%Z
  ∧ Num.of_Z 57 ≠ Num.of_Z (Spec.relevanceScore 23 40).
Proof.
  cbv zeta. split; [vm_compute; reflexivity|].
  split; [vm_compute; reflexivity|].
  split; [vm_compute; reflexivity|]. split; [vm_compute; reflexivity|].
  split; [reflexivity|]. split; [reflexivity|].
  vm_compute. intros H. discriminate H.
Qed.

(** The other half of C2 holds: when no paper shares a token with the
    topic the divisor is 1 and every score is 0. *)
Lemma relevanceScore_no_shared_token (s : ResearchSession) (l : list Paper) :
  (∀ item, item ∈ metricsChartData (Some s) l → item_relevance item = 0) →
  ∀ item, item ∈ metricsChartData (Some s) l →
    item_relevanceScore item = Num.of_Z 0.
Proof.
  intros Hzero item Hitem.
  destruct (chart_item_inv s l item Hitem) as (p & Hp & Hrel & ->).
  destruct (maxRelevance_of_spec (rawPoint (tokenize (topicText s)) <$> l))
    as (Hpos & _ & [[-> _]|(q & Hq & Hmax)]).
  - rewrite <- Hrel, (Hzero item Hitem). apply relevanceScore_zero.
  - assert (Hq0 : raw_relevance q = 0).
    { destruct (chart_item_intro s l q Hq) as (iq & Hiq & <-).
      by apply Hzero. }
    lia.
Qed.

(** C10 — every score of a chart is a whole number from 0 to 100, and
    when some paper has a positive relevance every paper whose relevance
    is the largest of the chart scores exactly 100.  (A string has fewer
    than 2^53 code units, so the topic text does.) *)
Theorem relevanceScore_bounds (s : ResearchSession) (l : list Paper) :
  (Z.of_nat (String.length (topicText s)) < 2 ^ 53)%Z →
  let items := metricsChartData (Some s) l in
  (∀ item, item ∈ items →
     ∃ k, (0 ≤ k ≤ 100)%Z ∧ item_relevanceScore item = Num.of_Z k)
  ∧ ((∃ item, item ∈ items ∧ 0 < item_relevance item) →
     ∀ item, item ∈ items →
       (∀ other, other ∈ items → item_relevance other ≤ item_relevance item) →
       item_relevanceScore item = Num.of_Z 100).
Proof.
  intros Hlen items.
  pose proof (chart_max_small s l Hlen) as Hsmall.
  destruct (maxRelevance_of_spec (rawPoint (tokenize (topicText s)) <$> l))
    as (Hpos & Hall & Hmax).
  split.
  - intros item Hitem.
    destruct (chart_item_inv s l item Hitem) as (p & Hp & _ & ->).
    apply relevanceScore_range; [by apply Hall | done | done].
  - intros (top & Htop & Hpositive) item Hitem Hlargest.
    destruct (chart_item_inv s l item Hitem) as (p & Hp & Hrel & ->).
    destruct (chart_item_inv s l top Htop) as (pt & Hpt & Hrelt & _).
    destruct Hmax as [[_ Hzero]|(q & Hq & Hmax)].
    { specialize (Hzero pt Hpt). lia. }
    assert (Hpq : raw_relevance p = raw_relevance q).
    { apply Nat.le_antisymm; [rewrite Hmax; by apply Hall|].
      rewrite <- Hrel.
      destruct (chart_item_intro s l q Hq) as (iq & Hiq & <-).
      by apply Hlargest. }
    rewrite Hpq, Hmax. by apply relevanceScore_full.
Qed.

Lemma relevanceScore_bounds_witness :
  let items :=
    metricsChartData (Some Sample.session_forty)
      [Sample.paper_forty; Sample.paper_twenty_three; Sample.paper_B] in
  (Z.of_nat (String.length (topicText Sample.session_forty)) < 2 ^ 53)%Z
  ∧ item_relevance <$> items = [40; 23; 0]
  ∧ (∀ item, item ∈ items →
       ∃ k, (0 ≤ k ≤ 100)%Z ∧ item_relevanceScore item = Num.of_Z k)
  ∧ (∀ item, item ∈ items → item_relevance item = 40 →
       item_relevanceScore item = Num.of_Z 100).
Proof.
  intros items.
  assert (Hlen :
    (Z.of_nat (String.length (topicText Sample.session_forty)) < 2 ^ 53)%Z)
    by (vm_compute; reflexivity).
  assert (Hrel : item_relevance <$> items = [40; 23; 0])
    by (vm_compute; reflexivity).
  destruct (relevanceScore_bounds Sample.session_forty
    [Sample.paper_forty; Sample.paper_twenty_three; Sample.paper_B] Hlen)
    as [Hrange Hfull].
  split; [exact Hlen|]. split; [exact Hrel|]. split; [exact Hrange|].
  intros item Hitem H40. apply Hfull; [|exact Hitem|].
  - exists item. split; [exact Hitem | lia].
  - intros other Hother.
    assert (Hin : item_relevance other ∈ item_relevance <$> items)
      by (by apply list_elem_of_fmap_2).
    rewrite Hrel in Hin. rewrite H40.
    repeat (apply elem_of_cons in Hin as [->|Hin]; [lia|]).
    apply elem_of_nil in Hin. destruct Hin.
Defined.

(** * Further properties *)

(** ** The chart as a whole *)

Lemma imap_idx (m : nat) (l : list RawPoint) (k : nat) :
  item_idx <$> imap (λ i, chartItem m (k + i)) l = seq (k + 1) (length l).
Proof.
  revert k. induction l as [|r l IH]; intros k; [done|].
  rewrite imap_cons. simpl. f_equal; [lia|].
  replace (S (k + 1)) with (S k + 1) by lia.
  rewrite <- (IH (S k)). f_equal. apply imap_ext. intros i x _. simpl.
  f_equal. lia.
Qed.

(** X1 — the chart has one bar per paper, in the order of the papers; the
    bars are numbered from 1 and carry the id and the title of their
    paper.  There is no bar at all without a session. *)
Theorem chart_one_bar_per_paper (s : ResearchSession) (l : list Paper) :
  length (metricsChartData (Some s) l) = length l
  ∧ item_id <$> metricsChartData (Some s) l = paper_id <$> l
  ∧ item_title <$> metricsChartData (Some s) l = paper_title <$> l
  ∧ item_idx <$> metricsChartData (Some s) l = seq 1 (length l)
  ∧ metricsChartData None l = [].
Proof.
  split; [|split; [|split; [|split]]].
  - rewrite metricsChartData_items. cbv zeta.
    by rewrite length_imap, length_fmap.
  - by rewrite (metricsChartData_field item_id raw_id).
  - by rewrite (metricsChartData_field item_title raw_title).
  - rewrite metricsChartData_items. cbv zeta.
    rewrite <- (length_fmap (rawPoint (tokenize (topicText s))) l).
    apply (imap_idx _ _ 0).
  - done.
Qed.

Lemma chart_lookup (s : ResearchSession) (l : list Paper) (i : nat) (p : Paper) :
  l !! i = Some p →
  metricsChartData (Some s) l !! i
  = Some (chartItem (maxRelevance (rawPoint (tokenize (topicText s)) <$> l)) i
            (rawPoint (tokenize (topicText s)) p)).
Proof.
  intros Hp. rewrite metricsChartData_items. cbv zeta.
  by rewrite list_lookup_imap, list_lookup_fmap, Hp.
Qed.

(** ** Scores that are exact *)

Lemma NumEq_eqb_eq (x y : spec_float) : NumEq.eqb x y = true → x = y.
Proof.
  destruct x as [s|s| |s m e], y as [s'|s'| |s' m' e']; simpl; try done.
  - by intros ->%Bool.eqb_prop.
  - by intros ->%Bool.eqb_prop.
  - intros [[->%Bool.eqb_prop ->%Pos.eqb_eq]%andb_true_iff ->%Z.eqb_eq]%andb_true_iff.
    done.
Qed.

Lemma relevanceScore_exact (r m : nat) :
  r ≤ m → 0 < m < 40 →
  relevanceScore r m = Num.of_Z (Spec.relevanceScore r m).
Proof.
  intros Hr Hm.
  assert (Hall : NumEq.exact_below 40 = true) by (vm_compute; reflexivity).
  unfold NumEq.exact_below in Hall. rewrite forallb_forall in Hall.
  specialize (Hall m). rewrite forallb_forall in Hall.
  apply NumEq_eqb_eq, Hall.
  - apply list_elem_of_In, elem_of_seq. lia.
  - apply list_elem_of_In, elem_of_seq. lia.
Qed.

Lemma fold_max_max_list (l : list RawPoint) (a : nat) :
  fold_left (λ m p, Nat.max m (raw_relevance p)) l a
  = Nat.max a (max_list (raw_relevance <$> l)).
Proof.
  revert a. induction l as [|p l IH]; intros a; simpl; [lia|].
  rewrite IH. symmetry. apply Nat.max_assoc.
Qed.

Lemma maxRelevance_max_list (l : list RawPoint) :
  maxRelevance l = Nat.max 1 (max_list (raw_relevance <$> l)).
Proof.
  unfold maxRelevance. rewrite fold_max_max_list.
  destruct (Nat.eqb_spec (Nat.max 0 (max_list (raw_relevance <$> l))) 0); lia.
Qed.

Lemma chart_relevances (s : ResearchSession) (l : list Paper) :
  item_relevance <$> metricsChartData (Some s) l
  = raw_relevance <$> (rawPoint (tokenize (topicText s)) <$> l).
Proof.
  rewrite (metricsChartData_field item_relevance raw_relevance) by done.
  by rewrite <- list_fmap_compose.
Qed.

(** X2 — in a chart whose largest relevance is below 40 every score is the
    exactly rounded percentage of the paper's relevance in the largest
    relevance (in 1 when no paper shares a token with the topic). *)
Theorem relevanceScore_exact_below_40 (s : ResearchSession) (l : list Paper) :
  let chart := metricsChartData (Some s) l in
  let largest := Nat.max 1 (max_list (item_relevance <$> chart)) in
  max_list (item_relevance <$> chart) < 40 →
  ∀ item, item ∈ chart →
    item_relevanceScore item
    = Num.of_Z (Spec.relevanceScore (item_relevance item) largest).
Proof.
  intros chart largest Hsmall item Hitem.
  destruct (chart_item_inv s l item Hitem) as (p & Hp & Hrel & ->).
  unfold largest, chart in *. rewrite chart_relevances in *.
  rewrite <- maxRelevance_max_list, Hrel.
  destruct (maxRelevance_of_spec (rawPoint (tokenize (topicText s)) <$> l))
    as (Hpos & Hall & _).
  apply relevanceScore_exact; [by apply Hall|].
  rewrite maxRelevance_max_list. lia.
Qed.

Lemma relevanceScore_exact_below_40_witness :
  let chart :=
    metricsChartData (Some Sample.session_plain)
      [Sample.paper_plain; Sample.paper_A; Sample.paper_B] in
  max_list (item_relevance <$> chart) < 40
  ∧ item_relevance <$> chart = [4; 1; 0]
  ∧ ∀ item, item ∈ chart →
      item_relevanceScore item
      = Num.of_Z (Spec.relevanceScore (item_relevance item) 4).
Proof.
  intros chart.
  assert (Hrel : item_relevance <$> chart = [4; 1; 0])
    by (vm_compute; reflexivity).
  assert (Hsmall : max_list (item_relevance <$> chart) < 40)
    by (rewrite Hrel; simpl; lia).
  split; [exact Hsmall|]. split; [exact Hrel|].
  intros item Hitem.
  pose proof (relevanceScore_exact_below_40 Sample.session_plain
    [Sample.paper_plain; Sample.paper_A; Sample.paper_B] Hsmall item Hitem)
    as Hexact.
  fold chart in Hexact. rewrite Hrel in Hexact. exact Hexact.
Defined.

(** ** Scores at the two ends *)

Lemma filter_all {A} (P : A → Prop) `{!∀ x, Decision (P x)} (l : list A) :
  Forall P l → filter P l = l.
Proof.
  induction 1 as [|x l Hx _ IH]; [done|].
  by rewrite filter_cons_True, IH.
Qed.

Lemma relevanceScore_none (m : nat) :
  0 < m → (Z.of_nat m < 2 ^ 53)%Z → relevanceScore 0 m = Num.of_Z 0.
Proof.
  intros Hm Hbig. unfold relevanceScore, Num.of_nat.
  destruct (Z.of_nat m) as [|pm|pm] eqn:Em; [lia| |lia].
  destruct (of_Z_pos pm Hbig) as (mm & -> & _). reflexivity.
Qed.

(** X3 — a paper that shares no token with the topic scores 0, whatever
    the other papers of the corpus are.  (A string has fewer than 2^53
    code units, so the topic text does.) *)
Theorem relevanceScore_zero_relevance (s : ResearchSession) (l : list Paper) :
  (Z.of_nat (String.length (topicText s)) < 2 ^ 53)%Z →
  ∀ item, item ∈ metricsChartData (Some s) l →
    item_relevance item = 0 → item_relevanceScore item = Num.of_Z 0.
Proof.
  intros Hlen item Hitem Hzero.
  destruct (chart_item_inv s l item Hitem) as (p & Hp & Hrel & ->).
  rewrite <- Hrel, Hzero.
  destruct (maxRelevance_of_spec (rawPoint (tokenize (topicText s)) <$> l))
    as (Hpos & _ & _).
  apply relevanceScore_none; [done | by apply chart_max_small].
Qed.

Lemma relevanceScore_zero_relevance_witness :
  let chart :=
    metricsChartData (Some Sample.session_forty)
      [Sample.paper_forty; Sample.paper_B] in
  item_relevance <$> chart = [40; 0]
  ∧ ∀ item, item ∈ chart → item_relevance item = 0 →
      item_relevanceScore item = Num.of_Z 0.
Proof.
  intros chart. split; [vm_compute; reflexivity|].
  apply (relevanceScore_zero_relevance Sample.session_forty
           [Sample.paper_forty; Sample.paper_B]).
  vm_compute. reflexivity.
Defined.

(** X4 — a paper whose text has every token of the topic (there being at
    least one) has the number of topic tokens as its relevance and scores
    100. *)
Theorem all_topic_tokens_score_100 (s : ResearchSession) (l : list Paper)
    (i : nat) (p : Paper) :
  (Z.of_nat (String.length (topicText s)) < 2 ^ 53)%Z →
  l !! i = Some p →
  tokenize (topicText s) ≠ [] →
  (∀ t, t ∈ tokenize (topicText s) → t ∈ tokenize (paperText p)) →
  ∃ item,
    metricsChartData (Some s) l !! i = Some item
    ∧ item_id item = paper_id p
    ∧ item_relevance item = length (tokenize (topicText s))
    ∧ item_relevanceScore item = Num.of_Z 100.
Proof.
  intros Hlen Hp Hne Hall.
  eexists. split; [by apply chart_lookup|]. split; [done|].
  assert (Hrel : relevance (tokenize (topicText s)) (tokenize (paperText p))
                 = length (tokenize (topicText s))).
  { rewrite relevance_of_filter. f_equal.
    apply filter_all, Forall_forall. exact Hall. }
  split; [exact Hrel|]. simpl. rewrite Hrel.
  destruct (maxRelevance_of_spec (rawPoint (tokenize (topicText s)) <$> l))
    as (Hpos & Hle & Hmax).
  assert (Hin : rawPoint (tokenize (topicText s)) p
                ∈ rawPoint (tokenize (topicText s)) <$> l).
  { apply list_elem_of_fmap_2. by eapply list_elem_of_lookup_2. }
  assert (HM : maxRelevance (rawPoint (tokenize (topicText s)) <$> l)
               = length (tokenize (topicText s))).
  { apply Nat.le_antisymm.
    - destruct Hmax as [[-> _]|(q & Hq & <-)].
      + destruct (tokenize (topicText s)); [done | simpl; lia].
      + apply list_elem_of_fmap in Hq as (q' & -> & _). simpl.
        apply relevance_of_le.
    - specialize (Hle _ Hin). simpl in Hle. by rewrite Hrel in Hle. }
  rewrite HM. apply relevanceScore_full.
  - destruct (tokenize (topicText s)); [done | simpl; lia].
  - pose proof (tokenize_length (topicText s)). lia.
Qed.

Lemma all_topic_tokens_score_100_witness :
  ∃ item,
    metricsChartData (Some Sample.session_forty)
      [Sample.paper_B; Sample.paper_forty] !! 1 = Some item
    ∧ item_id item = "P40"
    ∧ item_relevance item = 40
    ∧ item_relevanceScore item = Num.of_Z 100.
Proof.
  destruct (all_topic_tokens_score_100 Sample.session_forty
    [Sample.paper_B; Sample.paper_forty] 1 Sample.paper_forty)
    as (item & Hitem & Hid & Hrel & Hscore).
  - vm_compute. reflexivity.
  - reflexivity.
  - vm_compute. discriminate.
  - intros t Ht.
    assert (Hsub : forallb
      (λ t, bool_decide (t ∈ tokenize (paperText Sample.paper_forty)))
      (tokenize (topicText Sample.session_forty)) = true)
      by (vm_compute; reflexivity).
    rewrite forallb_forall in Hsub.
    apply list_elem_of_In, Hsub in Ht. by apply bool_decide_eq_true in Ht.
  - exists item. split; [exact Hitem|]. split; [exact Hid|].
    split; [|exact Hscore]. rewrite Hrel. vm_compute. reflexivity.
Defined.

(** The scores of a chart are made from its relevances alone. *)
Lemma chart_scores (s : ResearchSession) (l : list Paper) :
  let relevances := item_relevance <$> metricsChartData (Some s) l in
  item_relevanceScore <$> metricsChartData (Some s) l
  = (λ r, relevanceScore r (Nat.max 1 (max_list relevances))) <$> relevances.
Proof.
  cbv zeta. rewrite chart_relevances, <- maxRelevance_max_list.
  rewrite metricsChartData_items. cbv zeta. rewrite fmap_imap.
  rewrite (imap_ext _
    (const (λ r, relevanceScore (raw_relevance r)
                   (maxRelevance (rawPoint (tokenize (topicText s)) <$> l)))))
    by done.
  by rewrite imap_const, <- (list_fmap_compose raw_relevance).
Qed.

(** ** The tokens of a text made of two fields *)

Lemma map_app (f : ascii → ascii) (a b : string) :
  Str.map f (a +:+ b) = Str.map f a +:+ Str.map f b.
Proof. induction a as [|c a IH]; simpl; [done | by rewrite IH]. Qed.

Lemma toLowerCase_idem_char (c : ascii) :
  Char.toLowerCase (Char.toLowerCase c) = Char.toLowerCase c.
Proof.
  apply Ascii.eqb_eq.
  apply (forall_ascii
    (λ c, Ascii.eqb (Char.toLowerCase (Char.toLowerCase c))
            (Char.toLowerCase c))).
  vm_compute. reflexivity.
Qed.

Lemma toLowerCase_idem (s : string) :
  Str.toLowerCase (Str.toLowerCase s) = Str.toLowerCase s.
Proof.
  unfold Str.toLowerCase.
  induction s as [|c s IH]; simpl; [done|].
  by rewrite toLowerCase_idem_char, IH.
Qed.

Lemma or_else_empty (a : string) : Str.or_else a "" = a.
Proof.
  unfold Str.or_else, Str.is_empty. case_bool_decide as Ha; [by rewrite Ha | done].
Qed.

(** A field that is not empty is found whether or not the text is read as
    the continuation of a run of white space. *)
Lemma split_go_run (b t : string) :
  t ≠ "" → t ∈ Str.split_go true "" b ↔ t ∈ Str.split_spaces b.
Proof.
  intros Ht. unfold Str.split_spaces. destruct b as [|c b]; simpl; [done|].
  destruct (Char.is_space c); [|done].
  rewrite elem_of_cons. split; [by right|]. intros [->|H]; done.
Qed.

Lemma split_go_app (in_run : bool) (cur a b t : string) :
  (in_run = true → cur = "") → t ≠ "" →
  t ∈ Str.split_go in_run cur (a +:+ " " +:+ b) ↔
  t ∈ Str.split_go in_run cur a ∨ t ∈ Str.split_spaces b.
Proof.
  intros Hrun Ht. revert in_run cur Hrun.
  induction a as [|c a IH]; intros in_run cur Hrun.
  - change ("" +:+ " " +:+ b) with (String " " b).
    cbn [Str.split_go]. change (Char.is_space " ") with true. cbv iota.
    rewrite <- split_go_run by done.
    destruct in_run.
    + rewrite (Hrun eq_refl). cbn. rewrite list_elem_of_singleton.
      split; [by right|]. intros [->|H]; done.
    + rewrite elem_of_cons, list_elem_of_singleton. tauto.
  - change (String c a +:+ " " +:+ b) with (String c (a +:+ " " +:+ b)).
    cbn [Str.split_go]. destruct (Char.is_space c).
    + destruct in_run.
      * by apply IH.
      * rewrite !elem_of_cons, IH by done. tauto.
    + by apply IH.
Qed.

Lemma tokens_of_fields (a b : string) :
  Spec.token_set (Str.toLowerCase (a +:+ " " +:+ b))
  = Spec.token_set a ∪ Spec.token_set b.
Proof.
  unfold Spec.token_set. apply set_eq. intros t.
  rewrite elem_of_union, !elem_of_list_to_set, !elem_of_tokenize.
  rewrite toLowerCase_idem. unfold Str.toLowerCase, Str.blank_other.
  rewrite !map_app. unfold Str.split_spaces at 1.
  split.
  - intros [Hlen Hin]. apply split_go_app in Hin; [tauto|done|].
    intros ->. simpl in Hlen. lia.
  - intros Hin.
    assert (Hlen : 4 ≤ String.length t) by tauto.
    split; [done|]. apply split_go_app; [done| |tauto].
    intros ->. simpl in Hlen. lia.
Qed.

(** X5 — the tokens of the topic text are the tokens of the session's
    title together with those of its topic, and the tokens of a paper's
    text are the tokens of its title together with those of its abstract:
    joining two fields with a space neither makes nor loses a token. *)
Theorem tokens_of_both_fields (s : ResearchSession) (p : Paper) :
  Spec.token_set (topicText s)
  = Spec.token_set (session_title s) ∪ Spec.token_set (session_topic s)
  ∧ Spec.token_set (paperText p)
    = Spec.token_set (paper_title p)
      ∪ Spec.token_set (default "" (paper_abstract p)).
Proof.
  unfold topicText, paperText. rewrite !or_else_empty.
  split; apply tokens_of_fields.
Qed.

(** ** Letter case *)

Lemma same_text_paperText (p q : Paper) :
  same_text p q → paperText p = paperText q.
Proof.
  intros [Ht Ha]. unfold paperText. rewrite !or_else_empty.
  unfold Str.toLowerCase in *. rewrite !map_app. by rewrite Ht, Ha.
Qed.

Lemma same_topic_topicText (s s' : ResearchSession) :
  same_topic s s' → topicText s = topicText s'.
Proof.
  intros [Ht Ha]. unfold topicText. rewrite !or_else_empty.
  unfold Str.toLowerCase in *. rewrite !map_app. by rewrite Ht, Ha.
Qed.

(** X6 — letter case takes no part in the metrics: two sessions and two
    corpora whose titles, topics and abstracts differ in letter case only
    give charts with the same relevances, the same keyword hits and the
    same scores. *)
Theorem metrics_ignore_letter_case (s s' : ResearchSession)
    (l l' : list Paper) :
  same_topic s s' → Forall2 same_text l l' →
  let chart := metricsChartData (Some s) l in
  let chart' := metricsChartData (Some s') l' in
  item_relevance <$> chart = item_relevance <$> chart'
  ∧ item_keywordHits <$> chart = item_keywordHits <$> chart'
  ∧ item_relevanceScore <$> chart = item_relevanceScore <$> chart'.
Proof.
  intros Hs Hl chart chart'.
  assert (Hrel : item_relevance <$> chart = item_relevance <$> chart').
  { unfold chart, chart'. rewrite !chart_relevances, <- !list_fmap_compose.
    rewrite (same_topic_topicText s s' Hs).
    induction Hl as [|p q l l' Hpq _ IH]; [done|].
    rewrite !fmap_cons, IH. f_equal. simpl.
    by rewrite (same_text_paperText p q Hpq). }
  split; [exact Hrel|]. split.
  - clear Hrel. unfold chart, chart'.
    rewrite !(metricsChartData_field item_keywordHits raw_keywordHits) by done.
    rewrite (same_topic_topicText s s' Hs).
    induction Hl as [|p q l l' Hpq _ IH]; [done|].
    rewrite !fmap_cons, IH. f_equal. simpl.
    by rewrite (same_text_paperText p q Hpq).
  - unfold chart, chart' in *. rewrite !chart_scores. by rewrite Hrel.
Qed.

Lemma metrics_ignore_letter_case_witness :
  let shouted := Sample.no_count_paper "a" "MACHINE learning FOR diagnostics" in
  same_topic Sample.session_ml Sample.session_ml
  ∧ Forall2 same_text [Sample.paper_A; Sample.paper_B] [shouted; Sample.paper_B]
  ∧ item_relevanceScore <$>
      metricsChartData (Some Sample.session_ml) [Sample.paper_A; Sample.paper_B]
    = item_relevanceScore <$>
        metricsChartData (Some Sample.session_ml) [shouted; Sample.paper_B].
Proof.
  intros shouted.
  assert (Hs : same_topic Sample.session_ml Sample.session_ml)
    by (split; reflexivity).
  assert (Hl : Forall2 same_text [Sample.paper_A; Sample.paper_B]
                 [shouted; Sample.paper_B]).
  { repeat constructor; vm_compute; reflexivity. }
  split; [exact Hs|]. split; [exact Hl|].
  exact (proj2 (proj2 (metrics_ignore_letter_case _ _ _ _ Hs Hl))).
Defined.

(** ** Trimming, slicing and the texts made with them *)

Lemma chars_app (a b : string) :
  Spec.chars (a +:+ b) = Spec.chars a ++ Spec.chars b.
Proof.
  unfold Spec.chars. induction a as [|c a IH]; simpl; [done | by rewrite IH].
Qed.

Lemma chars_inj (a b : string) : Spec.chars a = Spec.chars b → a = b.
Proof.
  unfold Spec.chars. intros H.
  rewrite <- (string_of_list_ascii_of_string a),
          <- (string_of_list_ascii_of_string b).
  by rewrite H.
Qed.

Lemma chars_length (s : string) : length (Spec.chars s) = String.length s.
Proof.
  unfold Spec.chars. induction s as [|c s IH]; simpl; [done | by rewrite IH].
Qed.

Lemma chars_rev_app_eq (s1 s2 : string) :
  Spec.chars (String.rev_app s1 s2) = reverse (Spec.chars s1) ++ Spec.chars s2.
Proof.
  revert s2. induction s1 as [|c s1 IH]; intros s2; simpl; [done|].
  rewrite IH. unfold Spec.chars. simpl.
  rewrite reverse_cons, <- app_assoc. done.
Qed.

Lemma chars_rev_eq (s : string) :
  Spec.chars (String.rev s) = reverse (Spec.chars s).
Proof.
  unfold String.rev. rewrite chars_rev_app_eq.
  unfold Spec.chars at 2. simpl. by rewrite app_nil_r.
Qed.


(** What [trimStart] takes away is white space, and what it leaves does
    not start with white space. *)
Lemma trimStart_chars (s : string) :
  ∃ pre,
    Spec.chars s = pre ++ Spec.chars (Str.trimStart s)
    ∧ Forall (λ c, Char.is_space c = true) pre
    ∧ ∀ c, head (Spec.chars (Str.trimStart s)) = Some c →
           Char.is_space c = false.
Proof.
  induction s as [|c s (pre & Heq & Hpre & Hhead)].
  - exists []. split; [done|]. split; [constructor|]. intros c Hc. discriminate Hc.
  - simpl. destruct (Char.is_space c) eqn:Hc.
    + exists (c :: pre). split.
      * unfold Spec.chars in *. simpl. by rewrite Heq.
      * split; [by constructor | exact Hhead].
    + exists []. split; [done|]. split; [constructor|].
      intros d Hd. unfold Spec.chars in Hd. simpl in Hd. congruence.
Qed.


Lemma trimEnd_chars (s : string) :
  ∃ suf,
    Spec.chars s = Spec.chars (Text.trimEnd s) ++ suf
    ∧ Forall (λ c, Char.is_space c = true) suf
    ∧ ∀ c, last (Spec.chars (Text.trimEnd s)) = Some c →
           Char.is_space c = false.
Proof.
  unfold Text.trimEnd.
  destruct (trimStart_chars (String.rev s)) as (pre & Heq & Hpre & Hhead).
  exists (reverse pre). rewrite chars_rev_eq in *. split.
  - rewrite <- reverse_app, <- Heq. by rewrite reverse_involutive.
  - split; [by apply Forall_reverse|].
    intros c. rewrite last_reverse. apply Hhead.
Qed.


Lemma trim_trimEnd (s : string) : Str.trim s = Text.trimEnd (Str.trimStart s).
Proof. reflexivity. Qed.

(** What [trim] leaves: the text between a prefix and a suffix of white
    space, with no white space at either end. *)
Lemma trim_chars (s : string) :
  ∃ pre suf,
    Spec.chars s = pre ++ Spec.chars (Str.trim s) ++ suf
    ∧ Forall (λ c, Char.is_space c = true) pre
    ∧ Forall (λ c, Char.is_space c = true) suf
    ∧ (∀ c, head (Spec.chars (Str.trim s)) = Some c → Char.is_space c = false)
    ∧ (∀ c, last (Spec.chars (Str.trim s)) = Some c → Char.is_space c = false).
Proof.
  rewrite trim_trimEnd.
  destruct (trimStart_chars s) as (pre & Heq & Hpre & Hhead).
  destruct (trimEnd_chars (Str.trimStart s)) as (suf & Heq' & Hsuf & Hlast).
  exists pre, suf. split; [by rewrite Heq, Heq' at 1|].
  split; [done|]. split; [done|]. split; [|done].
  intros c Hc. apply Hhead. rewrite Heq'.
  destruct (Spec.chars (Text.trimEnd (Str.trimStart s))); [done | exact Hc].
Qed.


Lemma trim_blank (s : string) :
  Str.trim s = "" ↔ ∀ c, c ∈ Spec.chars s → Char.is_space c = true.
Proof.
  destruct (trim_chars s) as (pre & suf & Heq & Hpre & Hsuf & Hhead & _).
  rewrite Forall_forall in Hpre, Hsuf. split.
  - intros Hempty c. rewrite Heq, Hempty. unfold Spec.chars at 1. simpl.
    rewrite elem_of_app. intros [?|?]; auto.
  - intros Hall. destruct (Str.trim s) as [|c t] eqn:Ht; [done|].
    exfalso. specialize (Hhead c eq_refl).
    rewrite (Hall c) in Hhead; [done|].
    rewrite Heq. apply elem_of_app. right. apply elem_of_app. left.
    unfold Spec.chars. simpl. left.
Qed.


Lemma slice_chars (n : nat) (s : string) :
  Spec.chars (Text.slice n s) = take n (Spec.chars s).
Proof.
  unfold Spec.chars. revert s.
  induction n as [|n IH]; intros [|c s]; simpl; try done.
  by rewrite IH.
Qed.

Lemma prefix_of_chars (a s : string) (rest : list ascii) :
  Spec.chars s = Spec.chars a ++ rest →
  s = a +:+ string_of_list_ascii rest.
Proof.
  intros Heq. apply chars_inj. rewrite chars_app, Heq. f_equal.
  unfold Spec.chars. by rewrite list_ascii_of_string_of_list_ascii.
Qed.

(** X7 — the shortened title of a bar never has more than 24 code units
    and is the start of the title; it is the whole title exactly when it
    has no ellipsis, and a title that is cut is longer than 24 code units,
    keeps at most 21 of them and has no white space before the
    ellipsis. *)
Theorem shortTitle_fits (title : string) :
  let short := shortTitle title in
  short_length short ≤ 24
  ∧ (∃ rest, title = short_text short +:+ rest)
  ∧ (short_ellipsis short = false ↔ short_text short = title)
  ∧ (short_ellipsis short = true →
       24 < String.length title
       ∧ String.length (short_text short) ≤ 21
       ∧ ∀ c, last (Spec.chars (short_text short)) = Some c →
              Char.is_space c = false).
Proof.
  cbv zeta. unfold shortTitle, short_length.
  case_bool_decide as Hlong; cbn [short_text short_ellipsis].
  - destruct (trimEnd_chars (Text.slice 21 title)) as (suf & Heq & _ & Hlast).
    assert (Hlen : String.length (Text.trimEnd (Text.slice 21 title)) ≤ 21).
    { apply (f_equal length) in Heq.
      rewrite slice_chars, length_app, length_take, !chars_length in Heq. lia. }
    split; [lia|]. split.
    + exists (string_of_list_ascii (suf ++ drop 21 (Spec.chars title))).
      apply prefix_of_chars. rewrite app_assoc, <- Heq, slice_chars.
      by rewrite take_drop.
    + split; [|done]. split; [done|]. intros Heq'. rewrite Heq' in Hlen. lia.
  - split; [lia|]. split.
    + exists "". apply chars_inj. rewrite chars_app.
      unfold Spec.chars at 3. simpl. by rewrite app_nil_r.
    + split; [done | discriminate].
Qed.

(** The code units that the replacement keeps are the ASCII letters, the
    digits and the hyphen. *)
Lemma is_safe_spec (c : ascii) :
  is_safe c
  = Char.is_lower c || Char.is_upper c || Char.is_digit c || Char.is_hyphen c.
Proof.
  apply Bool.eqb_prop.
  apply (forall_ascii
    (λ c, Bool.eqb (is_safe c)
            (Char.is_lower c || Char.is_upper c || Char.is_digit c
             || Char.is_hyphen c))).
  vm_compute. reflexivity.
Qed.

Lemma replace_unsafe_chars (in_run : bool) (s : string) (c : ascii) :
  c ∈ Spec.chars (replace_unsafe in_run s) → is_safe c = true.
Proof.
  revert in_run. unfold Spec.chars.
  induction s as [|a s IH]; intros in_run; simpl; [by rewrite elem_of_nil|].
  destruct (is_safe a) eqn:Ha.
  - simpl. rewrite elem_of_cons. intros [->|H]; [done | by eapply IH].
  - destruct in_run; [by apply IH|].
    simpl. rewrite elem_of_cons. intros [->|H]; [by vm_compute | by eapply IH].
Qed.

Lemma replace_unsafe_fixed (in_run : bool) (s : string) :
  (∀ c, c ∈ Spec.chars s → is_safe c = true) →
  replace_unsafe in_run s = s.
Proof.
  unfold Spec.chars. revert in_run.
  induction s as [|a s IH]; intros in_run Hall; simpl; [done|].
  rewrite (Hall a) by (simpl; left).
  f_equal. apply IH. intros c Hc. apply Hall. simpl. by right.
Qed.

Lemma slice_fixed (n : nat) (s : string) :
  String.length s ≤ n → Text.slice n s = s.
Proof.
  intros Hlen. apply chars_inj. rewrite slice_chars.
  apply take_ge. by rewrite chars_length.
Qed.

(** X8 — the stem of the name of a downloaded file is never empty, has at
    most 40 code units and is made of ASCII letters, digits and hyphens
    only (no separator, dot or white space); a title that is such a stem
    already is taken as it is, and without a session or with an empty
    title the stem is "session". *)
Theorem safeTitle_is_safe (session : option ResearchSession) :
  let stem := safeTitle session in
  stem ≠ ""
  ∧ String.length stem ≤ 40
  ∧ (∀ c, c ∈ Spec.chars stem →
       Char.is_lower c || Char.is_upper c || Char.is_digit c
       || Char.is_hyphen c = true)
  ∧ (∀ s, session = Some s →
       session_title s ≠ "" → String.length (session_title s) ≤ 40 →
       (∀ c, c ∈ Spec.chars (session_title s) →
          Char.is_lower c || Char.is_upper c || Char.is_digit c
          || Char.is_hyphen c = true) →
       stem = session_title s)
  ∧ ((session = None ∨ ∃ s, session = Some s ∧ session_title s = "") →
       stem = "session").
Proof.
  cbv zeta. unfold safeTitle.
  set (title := Str.or_else (from_option session_title "" session) "session").
  assert (Htitle : title ≠ "").
  { unfold title, Str.or_else, Str.is_empty. by case_bool_decide. }
  split; [|split; [|split; [|split]]].
  - destruct title as [|a t]; [done|]. simpl.
    destruct (is_safe a); discriminate.
  - rewrite <- chars_length, slice_chars, length_take. lia.
  - intros c Hc. rewrite <- is_safe_spec.
    rewrite slice_chars in Hc. apply elem_of_take in Hc as (i & Hi & _).
    apply (replace_unsafe_chars false title).
    by eapply list_elem_of_lookup_2.
  - intros s -> Hne Hlen Hall. unfold title. cbn [from_option].
    unfold Str.or_else, Str.is_empty. rewrite bool_decide_false by done.
    rewrite replace_unsafe_fixed.
    + by apply slice_fixed.
    + intros c Hc. rewrite is_safe_spec. by apply Hall.
  - intros [->|(s & -> & Hs)]; unfold title; cbn [from_option];
      [|rewrite Hs]; vm_compute; reflexivity.
Qed.

(** ** The session page under any sequence of operations *)

Lemma run_invariant (P : PageState → Prop) :
  (∀ op st, P st → P (step op st).1) →
  ∀ ops st, P st → P (run ops st).1.
Proof.
  intros Hstep ops st Hst. unfold run.
  assert (Hacc : P (st, @nil SideEffect).1) by done.
  revert Hacc. generalize (st, @nil SideEffect).
  induction ops as [|op ops IH]; intros acc Hacc; [done|].
  simpl. apply IH. simpl. by apply Hstep.
Qed.


Lemma ids_of_filter (P : string) (l : list Paper) :
  (list_to_set (paper_id <$> filter (λ p, paper_id p ≠ P) l) : gset string)
  = list_to_set (paper_id <$> l) ∖ {[P]}.
Proof.
  apply set_eq. intros i.
  rewrite elem_of_difference, elem_of_singleton, !elem_of_list_to_set,
    !list_elem_of_fmap.
  split.
  - intros (q & -> & [Hne Hin]%list_elem_of_filter). split; [by exists q | done].
  - intros [(q & -> & Hin) Hne]. exists q. split; [done|].
    by apply list_elem_of_filter.
Qed.

(** The state the upload leaves: the one before, or the one a fetch that
    succeeded leaves, when the storage and the backend took the file. *)
Lemma upload_state (file : option File) (now : string)
    (publicUrl : string → string) (stored : StorageResult)
    (posted : Outcome ()) (fetched : Outcome (list (option Paper)))
    (st : PageState) :
  (handleUploadPdf file now publicUrl stored posted fetched st).1 = st
  ∨ ∃ f a rows,
      file = Some f ∧ stored = Stored ∧ posted = Resolved a
      ∧ fetched = Resolved rows
      ∧ (handleUploadPdf file now publicUrl stored posted fetched st).1
        = (fetchPapers (Resolved rows) st).1.
Proof.
  unfold handleUploadPdf. destruct file as [f|]; [|by left].
  destruct (negb _); [by left|]. destruct (_ <? _)%Z; [by left|].
  destruct stored; try (by left). destruct posted as [a|d]; [|by left].
  destruct fetched as [rows|d]; [|by left].
  right. by exists f, a, rows.
Qed.

Lemma step_in_step (op : PageOp) (st : PageState) :
  in_step st → in_step (step op st).1.
Proof.
  unfold in_step. intros Hst. destruct op as
    [[sd|d] fetched|[hist|d]|file now url stored posted fetched
     |[data|d]|paper [[]|d]|P [] [[]|d]|text|[a|d]| |[c|d]|text| | |[t|d]|tab];
    simpl; try done.
  - by destruct fetched.
  - destruct (upload_state file now url stored posted fetched st)
      as [->|(f & a & rows & _ & _ & _ & _ & ->)]; done.
  - unfold handleAddPaper. destruct (_ || _) eqn:Hguard; [done|]. simpl.
    apply orb_false_iff in Hguard as [Hadded _].
    apply bool_decide_eq_false in Hadded. rewrite Hst in Hadded.
    rewrite elem_of_list_to_set in Hadded.
    rewrite addPaperUpdater_absent by done. simpl. rewrite Hst.
    apply (comm_L (∪)).
  - unfold handleAddPaper. by destruct (_ || _).
  - by rewrite ids_of_filter, Hst.
  - unfold handleChatSubmit. by destruct (Str.is_empty _).
  - unfold handleChatSubmit. by destruct (Str.is_empty _).
  - unfold handleGenerateDraft. by case_bool_decide.
  - unfold handleGenerateDraft. by case_bool_decide.
  - unfold handleDownloadDraft. by destruct (Str.is_empty _).
  - unfold handleExportBibliography. case_bool_decide; [done|].
    by destruct (Str.is_empty _).
  - unfold handleExportBibliography. by case_bool_decide.
Qed.

(** X9 — whatever operations are run on the page, and however their
    requests end, the set of added ids holds exactly the ids of the papers
    of the list: from the first render, and from any state in which it
    did. *)
Theorem corpus_stays_in_step (ops : list PageOp) :
  (∀ sid, in_step (run ops (initialState sid)).1)
  ∧ (∀ st, in_step st → in_step (run ops st).1).
Proof.
  split.
  - intros sid. apply (run_invariant in_step step_in_step). reflexivity.
  - apply (run_invariant in_step step_in_step).
Qed.

Lemma step_idle (op : PageOp) (st : PageState) :
  idle st → idle (step op st).1.
Proof.
  unfold idle. intros Hst. destruct op as
    [[sd|d] fetched|[hist|d]|file now url stored posted fetched
     |[data|d]|paper [[]|d]|P [] [[]|d]|text|[a|d]| |[c|d]|text| | |[t|d]|tab];
    simpl; try tauto.
  - by destruct fetched.
  - destruct (upload_state file now url stored posted fetched st)
      as [->|(f & a & rows & _ & _ & _ & _ & ->)]; simpl; tauto.
  - unfold handleAddPaper. destruct (_ || _); simpl; tauto.
  - unfold handleAddPaper. destruct (_ || _); simpl; tauto.
  - unfold handleChatSubmit. destruct (Str.is_empty _); simpl; tauto.
  - unfold handleChatSubmit. destruct (Str.is_empty _); simpl; tauto.
  - unfold handleGenerateDraft. case_bool_decide; simpl; tauto.
  - unfold handleGenerateDraft. case_bool_decide; simpl; tauto.
  - unfold handleDownloadDraft. destruct (Str.is_empty _); simpl; tauto.
  - unfold handleExportBibliography. case_bool_decide; [simpl; tauto|].
    destruct (Str.is_empty _); simpl; tauto.
  - unfold handleExportBibliography. case_bool_decide; simpl; tauto.
Qed.

(** X10 — every handler clears the busy flag it set, however its request
    ends (and also when the bibliography export returns early on an empty
    text): between operations no paper is being added or removed and no
    answer, draft or bibliography is being waited for. *)
Theorem busy_flags_cleared (ops : list PageOp) :
  (∀ sid, idle (run ops (initialState sid)).1)
  ∧ (∀ st, idle st → idle (run ops st).1).
Proof.
  split.
  - intros sid. apply (run_invariant idle step_idle). by repeat split.
  - apply (run_invariant idle step_idle).
Qed.

(** ** Requests *)





(** ** Adding and removing again *)

Lemma state_ext (a b : PageState) :
  sessionId a = sessionId b → session a = session b → papers a = papers b →
  addedPaperIds a = addedPaperIds b → addingPaper a = addingPaper b →
  removingPaper a = removingPaper b → chatInput a = chatInput b →
  chatMessages a = chatMessages b → chatLoading a = chatLoading b →
  draftContent a = draftContent b → draftLoading a = draftLoading b →
  draftStyle a = draftStyle b → bibStyle a = bibStyle b →
  bibLoading a = bibLoading b → activeTab a = activeTab b → a = b.
Proof. destruct a, b. simpl. intros. by subst. Qed.

Lemma filter_other_ids (P : string) (l : list Paper) :
  P ∉ (paper_id <$> l) → filter (λ p, paper_id p ≠ P) l = l.
Proof.
  intros Hnin. induction l as [|q l IH]; [done|].
  rewrite fmap_cons, not_elem_of_cons in Hnin. destruct Hnin as [Hne Hnin].
  rewrite filter_cons_True by done. by rewrite IH.
Qed.

(** X12 — on a page whose added ids are those of its list, adding a paper
    that is not there and removing it again gives the page back: the
    list, the added ids and everything else are as before, with no paper
    being added or removed. *)
Theorem add_then_remove_round_trip (paper : Paper) (st : PageState) :
  in_step st → addButtonDisabled st paper = false →
  (handleRemovePaper (paper_id paper) true (Resolved ())
     (handleAddPaper paper (Resolved ()) st).1).1
  = setRemovingPaper (setAddingPaper st None) None.
Proof.
  unfold in_step, addButtonDisabled, isAdded, isAdding.
  intros Hst Hguard. unfold handleAddPaper. rewrite Hguard.
  apply orb_false_iff in Hguard as [Hadded _].
  apply bool_decide_eq_false in Hadded.
  assert (Hnin : paper_id paper ∉ (paper_id <$> papers st)).
  { rewrite Hst in Hadded. by rewrite elem_of_list_to_set in Hadded. }
  apply state_ext; simpl; try done.
  - rewrite addPaperUpdater_absent by done.
    rewrite filter_cons_False by (intros H; by apply H).
    by apply filter_other_ids.
  - apply set_eq. intros i.
    rewrite elem_of_difference, elem_of_union, elem_of_singleton.
    split; [tauto|]. intros Hi. split; [by left|]. by intros ->.
Qed.

Lemma add_then_remove_round_trip_witness :
  let st := Sample.page_with [Sample.paper_B] "" in
  in_step st ∧ addButtonDisabled st Sample.paper_A = false
  ∧ papers
      (handleRemovePaper "A" true (Resolved ())
         (handleAddPaper Sample.paper_A (Resolved ()) st).1).1
    = [Sample.paper_B].
Proof.
  intros st.
  assert (Hst : in_step st) by reflexivity.
  assert (Hguard : addButtonDisabled st Sample.paper_A = false)
    by (vm_compute; reflexivity).
  split; [exact Hst|]. split; [exact Hguard|].
  change "A" with (paper_id Sample.paper_A).
  rewrite (add_then_remove_round_trip Sample.paper_A st Hst Hguard).
  reflexivity.
Defined.

(** ** Who writes what *)

(** X13 — the list of papers and the added ids change only when a fetch
    succeeds (on its own, at the end of [init] or at the end of an upload
    that went through), or an addition or a confirmed removal does; the
    chat history only when a question is submitted or the stored history
    arrives; the draft only when the user edits it or a generation
    succeeds; the tab only when the user picks one or a generation
    succeeds; the session only when [init] has read it.  So a failed
    request or a declined dialog leaves the corpus as it was, a failed
    generation keeps the draft, and exports and downloads change none of
    them. *)
Theorem state_is_written_by (op : PageOp) (st : PageState) :
  let st' := (step op st).1 in
  (writes_corpus op = false →
     papers st' = papers st ∧ addedPaperIds st' = addedPaperIds st)
  ∧ (writes_chat op = false → chatMessages st' = chatMessages st)
  ∧ (writes_draft op = false → draftContent st' = draftContent st)
  ∧ (writes_tab op = false → activeTab st' = activeTab st)
  ∧ (writes_session op = false → session st' = session st).
Proof.
  destruct op as
    [[sd|d] fetched|[hist|d]|file now url stored posted fetched
     |[data|d]|paper [[]|d]|P [] [[]|d]|text|[a|d]| |[c|d]|text| | |[t|d]|tab];
    cbv zeta; simpl;
    try (unfold handleAddPaper; destruct (_ || _));
    try (unfold handleChatSubmit; destruct (Str.is_empty _));
    try (unfold handleGenerateDraft; case_bool_decide);
    try (unfold handleDownloadDraft; destruct (Str.is_empty _));
    try (unfold handleExportBibliography; case_bool_decide;
         try destruct (Str.is_empty _));
    try (unfold handleUploadPdf; destruct file as [f|];
         [destruct (negb _); [|destruct (_ <? _)%Z; [|
            destruct stored; [destruct posted as [[]|dp];
              [destruct fetched as [rows|df]|]| |]]]|]);
    try (destruct fetched);
    simpl; repeat split; intros; done.
Qed.

(** ** The chat history *)




(** X15 — a question is ignored exactly when it is blank: the submission
    changes nothing and sends nothing, whatever the backend would have
    answered, if and only if every code unit typed is white space (there
    may be none). *)
Theorem blank_question_ignored (response : Outcome string) (st : PageState) :
  handleChatSubmit response st = (st, [])
  ↔ ∀ c, c ∈ Spec.chars (chatInput st) → Char.is_space c = true.
Proof.
  rewrite <- trim_blank. unfold handleChatSubmit, Str.is_empty.
  case_bool_decide as Hblank; [done|].
  split; [|done]. destruct response; intros H; by inversion H.
Qed.

(** ** The add button *)

(** X16 — the add button of a paper is disabled exactly when a click
    would do nothing: with the button enabled the handler always sends
    its request.  On a page whose added ids are those of its list the
    button shows a paper as added exactly when the list has its id, and
    an addition that succeeds puts the paper at the head of the list. *)
Theorem add_button_tells_the_guard (paper : Paper) (st : PageState) :
  (∀ response,
     addButtonDisabled st paper = true
     ↔ handleAddPaper paper response st = (st, []))
  ∧ (∀ response,
       addButtonDisabled st paper = false →
       Send (AddToSession (sessionId st) paper)
       ∈ (handleAddPaper paper response st).2)
  ∧ (in_step st →
       (isAdded st paper = true ↔ paper_id paper ∈ (paper_id <$> papers st))
       ∧ (addButtonDisabled st paper = false →
          papers (handleAddPaper paper (Resolved ()) st).1
          = paper :: papers st)).
Proof.
  unfold addButtonDisabled, isAdded, isAdding, handleAddPaper.
  split; [|split].
  - intros response. destruct (_ || _); [done|].
    split; [done|]. destruct response; intros H; by inversion H.
  - intros response ->. destruct response; simpl; apply list_elem_of_here.
  - unfold in_step. intros Hst. split.
    + by rewrite bool_decide_eq_true, Hst, elem_of_list_to_set.
    + intros Hguard. rewrite Hguard. simpl.
      apply orb_false_iff in Hguard as [Hadded _].
      apply bool_decide_eq_false in Hadded.
      rewrite Hst, elem_of_list_to_set in Hadded.
      by apply addPaperUpdater_absent.
Qed.

(** ** Uploading a PDF *)

(** X24 — only a PDF of at most 20 MiB (20971520 bytes, that size
    included) is ever sent to the storage, under a path of the session of
    the page, and nothing is posted before the storage took it.  Whenever
    a file was chosen the user is told the outcome by exactly one alert.
    The list of papers changes only when the upload and the post both
    succeed and the fetch that follows does, and the added ids stay those
    of the list. *)
Theorem upload_guards (file : option File) (now : string)
    (publicUrl : string → string) (stored : StorageResult)
    (posted : Outcome ()) (fetched : Outcome (list (option Paper)))
    (st : PageState) :
  let result := handleUploadPdf file now publicUrl stored posted fetched st in
  (∀ path f, StorageUpload path f ∈ result.2 →
     file = Some f ∧ file_type f = "application/pdf"
     ∧ (file_size f ≤ 20971520)%Z
     ∧ path = sessionId st +:+ "/" +:+ now +:+ "-" +:+ file_name f)
  ∧ (∀ sid url name, PostAddUploaded sid url name ∈ result.2 →
       stored = Stored ∧ sid = sessionId st)
  ∧ (∀ f, file = Some f →
       length (filter (λ e, is_alert e = true) result.2) = 1)
  ∧ (papers result.1 ≠ papers st →
       stored = Stored ∧ (∃ a, posted = Resolved a)
       ∧ ∃ rows, fetched = Resolved rows)
  ∧ (in_step st → in_step result.1).
Proof.
  cbv zeta. unfold handleUploadPdf.
  destruct file as [f|].
  2:{ split; [|split; [|split; [|split]]]; try done.
      - intros path f' Hin. by apply elem_of_nil in Hin.
      - intros sid url name Hin. by apply elem_of_nil in Hin. }
  case_bool_decide as Htype; simpl.
  2:{ split; [|split; [|split; [|split]]]; try done.
      - intros path f' Hin. in_effects Hin.
      - intros sid url name Hin. in_effects Hin. }
  destruct (Z.ltb_spec maxSize (file_size f)) as [Hsize|Hsize].
  { split; [|split; [|split; [|split]]]; try done.
    - intros path f' Hin. in_effects Hin.
    - intros sid url name Hin. in_effects Hin. }
  assert (Hmax : (file_size f ≤ 20971520)%Z) by exact Hsize.
  assert (Hupload : ∀ path f',
    StorageUpload path f'
    = StorageUpload (sessionId st +:+ "/" +:+ now +:+ "-" +:+ file_name f) f →
    Some f = Some f' ∧ file_type f' = "application/pdf"
    ∧ (file_size f' ≤ 20971520)%Z
    ∧ path = sessionId st +:+ "/" +:+ now +:+ "-" +:+ file_name f').
  { intros path f' [= -> ->]. done. }
  destruct stored.
  - assert (Hpost : ∀ sid url name,
      PostAddUploaded sid url name
      = PostAddUploaded (sessionId st)
          (publicUrl (sessionId st +:+ "/" +:+ now +:+ "-" +:+ file_name f))
          (file_name f) →
      Stored = Stored ∧ sid = sessionId st).
    { by intros sid url name [= -> _ _]. }
    destruct posted as [[]|d].
    + destruct fetched as [rows|d]; simpl.
      * split; [|split; [|split; [|split]]].
        -- intros path f' Hin. in_effects Hin. by apply Hupload.
        -- intros sid url name Hin. in_effects Hin. by eapply Hpost.
        -- done.
        -- intros _. split; [done|]. split; by eexists.
        -- intros _. reflexivity.
      * split; [|split; [|split; [|split]]]; try done.
        -- intros path f' Hin. in_effects Hin. by apply Hupload.
        -- intros sid url name Hin. in_effects Hin. by eapply Hpost.
    + split; [|split; [|split; [|split]]]; try done.
      * intros path f' Hin. in_effects Hin. by apply Hupload.
      * intros sid url name Hin. in_effects Hin. by eapply Hpost.
  - split; [|split; [|split; [|split]]]; try done.
    + intros path f' Hin. in_effects Hin. by apply Hupload.
    + intros sid url name Hin. in_effects Hin.
  - split; [|split; [|split; [|split]]]; try done.
    + intros path f' Hin. in_effects Hin. by apply Hupload.
    + intros sid url name Hin. in_effects Hin.
Qed.

(** ** Searching for papers *)



(** ** The store of sessions *)

Lemma merge_both (s : Dashboard.Session) (first second : Dashboard.Updates) :
  Dashboard.merge (Dashboard.merge s first) second
  = Dashboard.merge s (Dashboard.both first second).
Proof.
  destruct second as [[?|] [?|] [?|] [?|] [?|] [?|] [?|]]; reflexivity.
Qed.

Lemma filter_other_sessions (i : string) (l : list Dashboard.Session) :
  i ∉ (Dashboard.id <$> l) → filter (λ s, Dashboard.id s ≠ i) l = l.
Proof.
  intros Hnin. induction l as [|s l IH]; [done|].
  rewrite fmap_cons, not_elem_of_cons in Hnin. destruct Hnin as [Hne Hnin].
  rewrite filter_cons_True by done. by rewrite IH.
Qed.

(** X19 — an update of session [i] keeps the number and the order of the
    sessions, and their ids when it gives no id; it changes nothing when
    no session has id [i]; it never touches the active session, which so
    keeps its old fields even when it is the session updated; and two
    updates of [i], the first giving no other id, are one update with the
    fields of both, those of the second winning. *)
Theorem updateSession_properties (i : string) (updates : Dashboard.Updates)
    (st : Dashboard.Store) :
  let st' := Dashboard.updateSession i updates st in
  length (Dashboard.sessions st') = length (Dashboard.sessions st)
  ∧ Dashboard.activeSession st' = Dashboard.activeSession st
  ∧ (Dashboard.new_id updates = None →
       Dashboard.id <$> Dashboard.sessions st'
       = Dashboard.id <$> Dashboard.sessions st)
  ∧ (i ∉ (Dashboard.id <$> Dashboard.sessions st) → st' = st)
  ∧ (∀ second,
       Dashboard.new_id updates = None ∨ Dashboard.new_id updates = Some i →
       Dashboard.updateSession i second st'
       = Dashboard.updateSession i (Dashboard.both updates second) st).
Proof.
  cbv zeta. destruct st as [l active loading].
  unfold Dashboard.updateSession. simpl.
  split; [by rewrite length_fmap|]. split; [done|]. split; [|split].
  - intros Hid. rewrite <- list_fmap_compose. apply list_fmap_ext.
    intros k s _. simpl. case_bool_decide; [|done].
    unfold Dashboard.merge. simpl. by rewrite Hid.
  - intros Hnin. f_equal. rewrite <- (list_fmap_id l) at 2.
    apply list_fmap_ext. intros k s Hs. simpl.
    rewrite bool_decide_false; [done|]. intros <-. apply Hnin.
    apply list_elem_of_fmap_2. by eapply list_elem_of_lookup_2.
  - intros second Hid. f_equal. rewrite <- list_fmap_compose.
    apply list_fmap_ext. intros k s _. simpl.
    destruct (decide (Dashboard.id s = i)) as [Hs|Hs].
    + rewrite (bool_decide_true (Dashboard.id s = i)) by done.
      rewrite bool_decide_true; [apply merge_both|].
      unfold Dashboard.merge. simpl. by destruct Hid as [-> | ->].
    + rewrite (bool_decide_false (Dashboard.id s = i)) by done.
      by rewrite bool_decide_false.
Qed.

(** X20 — removing an id takes away every session that has it, so that
    removing twice is removing once; adding a session (no check is made
    that its id is new) and removing its id again gives the store back
    when the id was new, and otherwise the store without the older
    sessions of that id too. *)
Theorem add_remove_session (s : Dashboard.Session) (st : Dashboard.Store) :
  (∀ i, i ∉ (Dashboard.id <$> Dashboard.sessions (Dashboard.removeSession i st)))
  ∧ (∀ i, Dashboard.removeSession i (Dashboard.removeSession i st)
          = Dashboard.removeSession i st)
  ∧ Dashboard.removeSession (Dashboard.id s) (Dashboard.addSession s st)
    = Dashboard.removeSession (Dashboard.id s) st
  ∧ (Dashboard.id s ∉ (Dashboard.id <$> Dashboard.sessions st) →
     Dashboard.removeSession (Dashboard.id s) (Dashboard.addSession s st) = st).
Proof.
  destruct st as [l active loading].
  unfold Dashboard.removeSession, Dashboard.addSession. simpl.
  assert (Hgone : ∀ i,
    i ∉ (Dashboard.id <$> filter (λ s, Dashboard.id s ≠ i) l)).
  { intros i (q & -> & [Hne _]%list_elem_of_filter)%list_elem_of_fmap.
    by apply Hne. }
  split; [exact Hgone|]. split; [|split].
  - intros i. f_equal. apply filter_other_sessions, Hgone.
  - f_equal. by rewrite filter_cons_False by (intros H; by apply H).
  - intros Hnew. f_equal.
    rewrite filter_cons_False by (intros H; by apply H).
    by apply filter_other_sessions.
Qed.

(** ** The dashboard page *)

(** X21 — without a signed-in user the page neither fetches the sessions
    nor creates one; a deletion that is confirmed is sent all the same,
    its handler asking for no user.  A creation that fails keeps the form,
    the dialog and the list as they were and goes nowhere; one that
    succeeds puts the new session first, empties the form, closes the
    dialog and goes to the page of the new session; either way the page is
    no longer creating.  A deletion that fails or is declined keeps the
    list; and a session just created, its id new, and deleted again leaves
    the store as it was. *)
Theorem dashboard_page_outcomes (pg : Dashboard.Page) :
  (Dashboard.user pg = None →
     (∀ r, Dashboard.handleCreateSession r pg = (pg, []))
     ∧ (∀ r, Dashboard.fetchSessions r pg = (pg, [])))
  ∧ (∀ d,
       let result := Dashboard.handleCreateSession (Rejected d) pg in
       Dashboard.newSession result.1 = Dashboard.newSession pg
       ∧ Dashboard.showNewSessionModal result.1
         = Dashboard.showNewSessionModal pg
       ∧ Dashboard.store result.1 = Dashboard.store pg
       ∧ ∀ route, Dashboard.Push route ∉ result.2)
  ∧ (∀ data uid, Dashboard.user pg = Some uid →
       let result := Dashboard.handleCreateSession (Resolved data) pg in
       Dashboard.sessions (Dashboard.store result.1)
       = data :: Dashboard.sessions (Dashboard.store pg)
       ∧ Dashboard.newSession result.1 = Dashboard.empty_form
       ∧ Dashboard.showNewSessionModal result.1 = false
       ∧ last result.2
         = Some (Dashboard.Push ("/dashboard/session/" +:+ Dashboard.id data)))
  ∧ (∀ r, Dashboard.creating (Dashboard.handleCreateSession r pg).1 = false
          ∨ Dashboard.user pg = None)
  ∧ (∀ i confirmed d,
       Dashboard.store
         (Dashboard.handleDeleteSession i confirmed (Rejected d) pg).1
       = Dashboard.store pg
       ∧ ∀ r, Dashboard.store (Dashboard.handleDeleteSession i false r pg).1
              = Dashboard.store pg)
  ∧ (∀ data uid, Dashboard.user pg = Some uid →
       Dashboard.id data
       ∉ (Dashboard.id <$> Dashboard.sessions (Dashboard.store pg)) →
       Dashboard.store
         (Dashboard.handleDeleteSession (Dashboard.id data) true (Resolved ())
            (Dashboard.handleCreateSession (Resolved data) pg).1).1
       = Dashboard.store pg)
  ∧ (∀ i response,
       Dashboard.DeleteSession i
       ∈ (Dashboard.handleDeleteSession i true response pg).2).
Proof.
  unfold Dashboard.handleCreateSession, Dashboard.fetchSessions,
    Dashboard.handleDeleteSession.
  split; [|split; [|split; [|split; [|split; [|split]]]]].
  - by intros ->.
  - intros d. cbv zeta. destruct (Dashboard.user pg); simpl.
    + repeat split. intros route Hin.
      apply elem_of_cons in Hin as [Hin|Hin]; [done|].
      by apply list_elem_of_singleton in Hin.
    + repeat split. intros route Hin. by apply elem_of_nil in Hin.
  - intros data uid ->. cbv zeta. simpl. done.
  - intros r. destruct (Dashboard.user pg); [left | by right].
    by destruct r.
  - intros i confirmed d. split.
    + by destruct confirmed.
    + by intros r.
  - intros data uid -> Hnew. simpl.
    destruct (Dashboard.store pg) as [l active loading].
    unfold Dashboard.removeSession, Dashboard.setSessions. simpl in *.
    f_equal. rewrite filter_cons_False by (intros H; by apply H).
    by apply filter_other_sessions.
  - intros i response. destruct response; simpl;
      apply list_elem_of_further, list_elem_of_here.
Qed.

(** ** Onboarding *)

Lemma click_step (ev : Onboarding.Event) (st : Onboarding.State) :
  Onboarding.currentStep st < length Onboarding.steps →
  Onboarding.currentStep (Onboarding.click ev st) < length Onboarding.steps.
Proof.
  change (length Onboarding.steps) with 4.
  intros Hst. destruct ev as [| | |index]; simpl.
  - unfold Onboarding.handleNext. change (length Onboarding.steps) with 4.
    case_bool_decide; simpl; lia.
  - unfold Onboarding.handlePrevious. case_bool_decide; simpl; lia.
  - done.
  - change (length Onboarding.steps) with 4. case_bool_decide; simpl; lia.
Qed.

Lemma clicks_invariant (P : Onboarding.State → Prop) :
  (∀ ev st, P st → P (Onboarding.click ev st)) →
  ∀ evs st, P st → P (Onboarding.clicks evs st).
Proof.
  intros Hclick evs. unfold Onboarding.clicks.
  induction evs as [|ev evs IH]; intros st Hst; [done|].
  simpl. by apply IH, Hclick.
Qed.

(** X22 — whatever is clicked, in whatever order, the step shown is one
    of the steps there are, so the page never looks for a step that does
    not exist; Next goes one step on and Previous one step back, except
    at the ends. *)
Theorem onboarding_step_in_range (evs : list Onboarding.Event)
    (storage : gmap string string) :
  let st := Onboarding.clicks evs (Onboarding.initial storage) in
  Onboarding.currentStep st < length Onboarding.steps
  ∧ is_Some (Onboarding.steps !! Onboarding.currentStep st)
  ∧ (Onboarding.currentStep (Onboarding.handlePrevious (Onboarding.handleNext st))
     = Onboarding.currentStep st
     ∨ Onboarding.currentStep st = length Onboarding.steps - 1).
Proof.
  cbv zeta.
  assert (Hst : Onboarding.currentStep
                  (Onboarding.clicks evs (Onboarding.initial storage))
                < length Onboarding.steps).
  { apply (clicks_invariant
             (λ st, Onboarding.currentStep st < length Onboarding.steps)).
    - apply click_step.
    - simpl. lia. }
  split; [exact Hst|]. split; [by apply lookup_lt_is_Some|].
  revert Hst. generalize (Onboarding.clicks evs (Onboarding.initial storage)).
  intros st Hst. unfold Onboarding.handleNext.
  case_bool_decide as Hlast; [left | right; lia].
  unfold Onboarding.handlePrevious, Onboarding.setCurrentStep.
  cbn [Onboarding.currentStep].
  rewrite bool_decide_true by lia. cbn [Onboarding.currentStep]. lia.
Qed.

(** The only route the page goes to is the sign-in page, and it goes
    there only after noting that the onboarding is done. *)
Lemma click_completed (ev : Onboarding.Event) (st : Onboarding.State) :
  (∀ r, r ∈ Onboarding.pushed st → r = "/auth")
  ∧ (Onboarding.pushed st ≠ [] →
     Onboarding.localStorage st !! "onboarding_completed" = Some "true") →
  (∀ r, r ∈ Onboarding.pushed (Onboarding.click ev st) → r = "/auth")
  ∧ (Onboarding.pushed (Onboarding.click ev st) ≠ [] →
     Onboarding.localStorage (Onboarding.click ev st)
       !! "onboarding_completed" = Some "true").
Proof.
  intros [Hroutes Hdone].
  assert (Hcomplete :
    (∀ r, r ∈ Onboarding.pushed (Onboarding.complete st) → r = "/auth")
    ∧ (Onboarding.pushed (Onboarding.complete st) ≠ [] →
       Onboarding.localStorage (Onboarding.complete st)
         !! "onboarding_completed" = Some "true")).
  { simpl. split.
    - intros r [Hr|Hr]%elem_of_app; [by apply Hroutes|].
      by apply list_elem_of_singleton in Hr.
    - intros _. apply lookup_insert_eq. }
  destruct ev as [| | |index]; simpl.
  - unfold Onboarding.handleNext. by case_bool_decide.
  - unfold Onboarding.handlePrevious. by case_bool_decide.
  - exact Hcomplete.
  - by case_bool_decide.
Qed.

Lemma click_other_keys (key : string) (ev : Onboarding.Event)
    (st : Onboarding.State) :
  key ≠ "onboarding_completed" →
  Onboarding.localStorage (Onboarding.click ev st) !! key
  = Onboarding.localStorage st !! key.
Proof.
  intros Hkey. destruct ev as [| | |index]; simpl.
  - unfold Onboarding.handleNext. case_bool_decide; [done|].
    simpl. by rewrite lookup_insert_ne.
  - unfold Onboarding.handlePrevious. by case_bool_decide.
  - by rewrite lookup_insert_ne.
  - by case_bool_decide.
Qed.

(** X23 — the onboarding leaves for the sign-in page only, and only after
    storing that it is done, so that the landing page then sends the
    visitor to the sign-in page and not to the onboarding again; a first
    visit, with nothing stored, is sent to the onboarding.  Skip, and Next
    once for each step, both end it; no other stored key is written. *)
Theorem onboarding_completion (evs : list Onboarding.Event)
    (storage : gmap string string) :
  let st := Onboarding.clicks evs (Onboarding.initial storage) in
  (∀ r, r ∈ Onboarding.pushed st → r = "/auth")
  ∧ (Onboarding.pushed st ≠ [] →
       Onboarding.Home (Onboarding.localStorage st) = "/auth")
  ∧ (∀ key, key ≠ "onboarding_completed" →
       Onboarding.localStorage st !! key = storage !! key)
  ∧ Onboarding.Home ∅ = "/onboarding"
  ∧ Onboarding.pushed
      (Onboarding.clicks (replicate (length Onboarding.steps) Onboarding.Next)
         (Onboarding.initial storage)) = ["/auth"]
  ∧ Onboarding.pushed
      (Onboarding.clicks [Onboarding.Skip] (Onboarding.initial storage))
    = ["/auth"].
Proof.
  cbv zeta.
  destruct (clicks_invariant
    (λ st, (∀ r, r ∈ Onboarding.pushed st → r = "/auth")
           ∧ (Onboarding.pushed st ≠ [] →
              Onboarding.localStorage st !! "onboarding_completed"
              = Some "true"))
    click_completed evs (Onboarding.initial storage)) as [Hroutes Hdone].
  { simpl. split; [by intros r ?%elem_of_nil | done]. }
  split; [exact Hroutes|]. split; [|split; [|split; [|split]]].
  - intros Hpushed. unfold Onboarding.Home. by rewrite (Hdone Hpushed).
  - intros key Hkey.
    apply (clicks_invariant
      (λ st, Onboarding.localStorage st !! key = storage !! key)); [|done].
    intros ev st <-. by apply click_other_keys.
  - reflexivity.
  - reflexivity.
  - reflexivity.
Qed.

(** ** Who is signed in *)

Lemma act_settled (a : Auth.Action) (st : Auth.Store) :
  Auth.loading st = false → Auth.loading (Auth.act a st) = false.
Proof.
  intros Hst. destruct a as [[u|d]|[| | |name] u|u|r]; simpl; done.
Qed.

(** X26 — once the auth store has settled it never goes back to loading,
    whatever signs in, signs out or refreshes, and the check on mount
    settles it however it ends.  The layout redirects to the sign-in page
    exactly when it renders nothing, shows the dashboard only with a user
    in the store and under a name that is not empty, and a sign-out always
    ends in the redirect, also when the call to the backend fails; events
    other than sign-in, sign-out and token refresh leave the store as it
    is. *)
Theorem auth_store_settles (actions : list Auth.Action) (st : Auth.Store) :
  let st' := Auth.acts actions st in
  (Auth.loading st = false → Auth.loading st' = false)
  ∧ (∀ response, Auth.loading (Auth.act (Auth.Initialize response) st') = false)
  ∧ (Auth.redirects st' = true ↔ Auth.render st' = Auth.Nothing)
  ∧ (∀ name, Auth.render st' = Auth.Content name →
       name ≠ "" ∧ ∃ u, Auth.user st' = Some u ∧ name = Auth.displayName u)
  ∧ (∀ response,
       Auth.redirects (Auth.act (Auth.SignOut response) st') = true)
  ∧ (∀ name u, Auth.act (Auth.Change (Auth.OTHER name) u) st' = st').
Proof.
  cbv zeta. split; [|split; [|split; [|split; [|split]]]].
  - revert st. induction actions as [|a actions IH]; intros st Hst; [done|].
    simpl. by apply IH, act_settled.
  - by intros [u|d].
  - unfold Auth.redirects, Auth.render.
    destruct (Auth.loading _); simpl; [done|].
    destruct (Auth.user _); [|done]. split; [|done].
    intros H. by apply bool_decide_eq_true in H.
  - intros name. unfold Auth.render.
    destruct (Auth.loading _); [done|].
    destruct (Auth.user _) as [u|]; [|done].
    intros [= <-]. split; [|by exists u].
    unfold Auth.displayName, Str.or_else, Str.is_empty.
    repeat case_bool_decide; done.
  - done.
  - done.
Qed.

(** ** Keyword hits and relevance *)

Lemma get_lookup (s : string) (k : nat) : String.get k s = Spec.chars s !! k.
Proof.
  unfold Spec.chars. revert k.
  induction s as [|c s IH]; intros [|k]; simpl; try done.
Qed.

Lemma map_chars (f : ascii → ascii) (s : string) :
  Spec.chars (Str.map f s) = f <$> Spec.chars s.
Proof.
  unfold Spec.chars. induction s as [|c s IH]; simpl; [done | by rewrite IH].
Qed.

Lemma head_drop {A} (l : list A) (k : nat) : head (drop k l) = l !! k.
Proof. by rewrite head_lookup, lookup_drop, Nat.add_0_r. Qed.

Lemma head_fmap {A B} (f : A → B) (l : list A) : head (f <$> l) = f <$> head l.
Proof. by destruct l. Qed.

(** Where a field of [split_go] lies in the text: it is what has been
    read of the current field followed by the text up to the next white
    space, or it lies further on, after a white space. *)
Lemma split_go_field (in_run : bool) (cur s t : string) :
  (in_run = true → cur = "") →
  t ∈ Str.split_go in_run cur s →
  (∃ k, Spec.chars t = reverse (Spec.chars cur) ++ take k (Spec.chars s)
        ∧ ∀ c, Spec.chars s !! k = Some c → Char.is_space c = true)
  ∨ (∃ pre c0 post,
       Spec.chars s = pre ++ [c0] ++ Spec.chars t ++ post
       ∧ Char.is_space c0 = true
       ∧ ∀ c, head post = Some c → Char.is_space c = true).
Proof.
  revert in_run cur. induction s as [|a s IH]; intros in_run cur Hrun Hin.
  - simpl in Hin. apply list_elem_of_singleton in Hin as ->. left. exists 0.
    rewrite chars_rev_eq. split; [by rewrite app_nil_r | done].
  - assert (Hlater : ∀ cur', t ∈ Str.split_go true cur' s → cur' = "" →
              Char.is_space a = true →
              ∃ pre c0 post,
                Spec.chars (String a s) = pre ++ [c0] ++ Spec.chars t ++ post
                ∧ Char.is_space c0 = true
                ∧ ∀ c, head post = Some c → Char.is_space c = true).
    { intros cur' Hin' -> Ha.
      destruct (IH true "" (λ _, eq_refl) Hin')
        as [(k & Ht & Hnext)|(pre & c0 & post & Hs & Hc0 & Hpost)].
      - exists [], a, (drop k (Spec.chars s)).
        split; [|split; [done|]].
        + change (Spec.chars (String a s)) with (a :: Spec.chars s).
          simpl. f_equal. rewrite Ht. simpl. by rewrite take_drop.
        + intros c Hc. apply Hnext. rewrite <- Hc.
          by rewrite head_drop.
      - exists (a :: pre), c0, post. split; [|done].
        change (Spec.chars (String a s)) with (a :: Spec.chars s).
        by rewrite Hs. }
    simpl in Hin. destruct (Char.is_space a) eqn:Ha.
    + destruct in_run.
      * right. by apply (Hlater cur); [|apply Hrun|].
      * apply elem_of_cons in Hin as [->|Hin].
        -- left. exists 0. rewrite chars_rev_eq.
           split; [by rewrite app_nil_r|].
           change (Spec.chars (String a s)) with (a :: Spec.chars s).
           simpl. by intros c [= <-].
        -- right. by apply (Hlater "").
    + destruct (IH false (String a cur) (λ H, False_ind _ (Bool.diff_false_true H)) Hin)
        as [(k & Ht & Hnext)|(pre & c0 & post & Hs & Hc0 & Hpost)].
      * left. exists (S k).
        change (Spec.chars (String a s)) with (a :: Spec.chars s).
        change (Spec.chars (String a cur)) with (a :: Spec.chars cur) in Ht.
        split; [|exact Hnext].
        rewrite Ht, reverse_cons, <- app_assoc. done.
      * right. exists (a :: pre), c0, post. split; [|done].
        change (Spec.chars (String a s)) with (a :: Spec.chars s).
        by rewrite Hs.
Qed.

Lemma split_spaces_field (s t : string) :
  t ∈ Str.split_spaces s →
  ∃ pre post,
    Spec.chars s = pre ++ Spec.chars t ++ post
    ∧ (∀ c, last pre = Some c → Char.is_space c = true)
    ∧ (∀ c, head post = Some c → Char.is_space c = true).
Proof.
  intros Hin.
  destruct (split_go_field false "" s t (λ H, False_ind _ (Bool.diff_false_true H)) Hin)
    as [(k & Ht & Hnext)|(pre & c0 & post & Hs & Hc0 & Hpost)].
  - exists [], (drop k (Spec.chars s)). split; [|split; [done|]].
    + simpl in *. by rewrite Ht, take_drop.
    + intros c Hc. apply Hnext. by rewrite <- Hc, head_drop.
  - exists (pre ++ [c0]), post. split; [by rewrite <- app_assoc|].
    split; [|done]. intros c. rewrite last_snoc. by intros [= <-].
Qed.

(** A token of a text stands in the text itself, between code units that
    [tokenize] takes for separators: white space, or what it replaces by
    a space. *)
Lemma token_in_text (text t : string) :
  Str.toLowerCase text = text → t ∈ tokenize text →
  ∃ pre post,
    Spec.chars text = pre ++ Spec.chars t ++ post
    ∧ (∀ c, last pre = Some c →
            Char.is_space c = true ∨ Char.is_kept c = false)
    ∧ (∀ c, head post = Some c →
            Char.is_space c = true ∨ Char.is_kept c = false).
Proof.
  intros Hlower Hin. pose proof (tokenize_token_chars _ _ Hin) as [_ Hshape].
  apply elem_of_tokenize in Hin as [_ Hin]. rewrite Hlower in Hin.
  apply split_spaces_field in Hin as (pre & post & Heq & Hpre & Hpost).
  unfold Str.blank_other in Heq. rewrite map_chars in Heq.
  set (f := λ c, if Char.is_kept c then c else " "%char) in *.
  assert (Hf : ∀ c, Char.is_space (f c) = true →
                    Char.is_space c = true ∨ Char.is_kept c = false).
  { intros c. unfold f. destruct (Char.is_kept c); auto. }
  apply fmap_app_inv in Heq as (pre' & rest & -> & Hrest & Htext).
  symmetry in Hrest.
  apply fmap_app_inv in Hrest as (mid & post' & Hmid & -> & ->).
  symmetry in Hmid.
  assert (Hsame : mid = Spec.chars t).
  { clear -Hmid Hshape. revert mid Hmid Hshape.
    generalize (Spec.chars t). intros l.
    induction l as [|c l IH]; intros [|d mid] Hmid Hshape; try done.
    injection Hmid as Hc Hl. f_equal.
    - specialize (Hshape c (list_elem_of_here _ _)).
      rewrite <- Hc. rewrite <- Hc in Hshape. unfold f in *.
      destruct (Char.is_kept d); [done | by vm_compute in Hshape].
    - apply IH; [done|]. intros c' Hc'. apply Hshape. by right. }
  exists pre', post'. split; [by rewrite Htext, Hsame|]. split.
  - intros c Hc. apply Hf, Hpre. by rewrite fmap_last, Hc.
  - intros c Hc. apply Hf, Hpost. by rewrite head_fmap, Hc.
Qed.

Lemma is_word_at_lookup (text : string) (i : nat) :
  Regex.is_word_at text i
  = match Spec.chars text !! i with Some c => Char.is_word c | None => false end.
Proof. unfold Regex.is_word_at. by rewrite get_lookup. Qed.

Lemma literal_at_here (t text : string) (pre post : list ascii) :
  Spec.chars text = pre ++ Spec.chars t ++ post →
  Regex.literal_at t text (length pre) = true.
Proof.
  revert pre. induction t as [|c t IH]; intros pre Heq; [done|].
  simpl. rewrite get_lookup, Heq.
  rewrite lookup_app_r, Nat.sub_diag by lia.
  change (Spec.chars (String c t)) with (c :: Spec.chars t). simpl.
  rewrite bool_decide_true by done. simpl.
  replace (S (length pre)) with (length (pre ++ [c]))
    by (rewrite length_app; simpl; lia).
  apply IH. rewrite Heq, <- app_assoc. done.
Qed.

(** A text that stands between separators, and starts and ends with a
    word character, is a whole-word match there. *)
Lemma matches_at_field (t text : string) (pre post : list ascii) :
  Spec.chars text = pre ++ Spec.chars t ++ post →
  (∃ c, head (Spec.chars t) = Some c ∧ Char.is_word c = true) →
  (∃ c, last (Spec.chars t) = Some c ∧ Char.is_word c = true) →
  (∀ c, last pre = Some c → Char.is_word c = false) →
  (∀ c, head post = Some c → Char.is_word c = false) →
  Regex.matches_at t text (length pre) = true.
Proof.
  intros Heq (c1 & Hc1 & Hw1) (c2 & Hc2 & Hw2) Hpre Hpost.
  unfold Regex.matches_at, Regex.word_boundary.
  rewrite (literal_at_here t text pre post Heq), andb_true_r.
  assert (Hbefore :
    match length pre with 0 => false | S j => Regex.is_word_at text j end
    = false).
  { destruct pre as [|a pre _] using rev_ind; [done|].
    rewrite length_app. simpl. rewrite Nat.add_1_r.
    rewrite is_word_at_lookup, Heq, <- !app_assoc.
    rewrite lookup_app_r, Nat.sub_diag by lia. simpl.
    apply Hpre. by rewrite last_snoc. }
  assert (Hfirst : Regex.is_word_at text (length pre) = true).
  { rewrite is_word_at_lookup, Heq.
    rewrite lookup_app_r, Nat.sub_diag by lia.
    rewrite <- head_lookup, head_app, Hc1. exact Hw1. }
  rewrite Hbefore, Hfirst. simpl.
  assert (Hlen : String.length t = S (pred (String.length t))).
  { rewrite <- chars_length. destruct (Spec.chars t); [done | simpl; lia]. }
  assert (Hlast : Regex.is_word_at text (length pre + pred (String.length t))
                  = true).
  { rewrite is_word_at_lookup, Heq.
    rewrite lookup_app_r by lia.
    replace (length pre + pred (String.length t) - length pre)
      with (pred (String.length t)) by lia.
    rewrite lookup_app_l by (rewrite chars_length; lia).
    rewrite <- chars_length, <- last_lookup, Hc2. exact Hw2. }
  assert (Hafter : Regex.is_word_at text (length pre + String.length t)
                   = false).
  { rewrite is_word_at_lookup, Heq.
    rewrite lookup_app_r by lia.
    replace (length pre + String.length t - length pre)
      with (String.length t) by lia.
    rewrite lookup_app_r by (rewrite chars_length; lia).
    rewrite chars_length, Nat.sub_diag, <- head_lookup.
    destruct (head post) as [c|] eqn:Hc; [by apply Hpost | done]. }
  rewrite Hafter. rewrite Hlen at 1. rewrite Nat.add_succ_r.
  by rewrite Hlast.
Qed.

Lemma match_all_pos (t text : string) (i : nat) :
  Regex.matches_at t text i = true → i ≤ String.length text →
  1 ≤ Regex.match_all t text.
Proof.
  intros Hmatch Hi. rewrite match_all_disjoint.
  unfold Scan.disjoint_matches, Scan.match_indices.
  destruct (filter (Scan.match_at t text) (seq 0 (S (String.length text))))
    as [|j rest] eqn:Hfilter.
  - assert (Hin : i ∈ filter (Scan.match_at t text)
                        (seq 0 (S (String.length text)))).
    { apply list_elem_of_filter. split; [exact Hmatch|].
      apply elem_of_seq. lia. }
    rewrite Hfilter in Hin. by apply elem_of_nil in Hin.
  - simpl. lia.
Qed.

(** Outside a token of a lower-cased text without underscore there is no
    word character. *)
Lemma separator_not_word (d : ascii) :
  let c := Char.toLowerCase d in
  c ≠ "_"%char → Char.is_space c = true ∨ Char.is_kept c = false →
  Char.is_word c = false.
Proof.
  cbv zeta. intros Hne Hsep.
  pose proof (forall_ascii
    (λ d, let c := Char.toLowerCase d in
          Ascii.eqb c "_" || negb (Char.is_space c || negb (Char.is_kept c))
          || negb (Char.is_word c))) as Hall.
  specialize (Hall ltac:(vm_compute; reflexivity) d). cbv zeta in Hall.
  apply orb_true_iff in Hall as [Hall|Hall]; [|by apply negb_true_iff].
  apply orb_true_iff in Hall as [Hall|Hall].
  - by apply Ascii.eqb_eq in Hall.
  - apply negb_true_iff, orb_false_iff in Hall as [Hs Hk].
    apply negb_false_iff in Hk. destruct Hsep; congruence.
Qed.

Lemma token_char_word (c : ascii) :
  Char.is_token_char c = true → Char.is_hyphen c = false →
  Char.is_word c = true.
Proof.
  unfold Char.is_token_char, Char.is_word. intros Ht Hh. rewrite Hh in Ht.
  rewrite orb_false_r in Ht. apply orb_true_iff in Ht as [-> | ->]; [done|].
  by rewrite !orb_true_r.
Qed.

(** A shared token is a keyword hit. *)
Lemma shared_token_hit (text t : string) :
  Str.toLowerCase text = text → no_underscore text → no_outer_hyphen t →
  t ∈ tokenize text → 1 ≤ Regex.match_all t text.
Proof.
  intros Hlower Hunder Hedge Hin.
  pose proof (tokenize_token_chars _ _ Hin) as [Hlen Hshape].
  destruct (token_in_text text t Hlower Hin) as (pre & post & Heq & Hpre & Hpost).
  assert (Hsep : ∀ c, c ∈ Spec.chars text →
            Char.is_space c = true ∨ Char.is_kept c = false →
            Char.is_word c = false).
  { intros c Hc Hsep. pose proof (Hunder c Hc) as Hne.
    rewrite <- Hlower in Hc. apply chars_map in Hc as (d & _ & ->).
    by apply separator_not_word. }
  apply (match_all_pos t text (length pre)).
  - apply (matches_at_field t text pre post Heq).
    + destruct (Spec.chars t) as [|c l] eqn:Ht.
      * rewrite <- chars_length, Ht in Hlen. simpl in Hlen. lia.
      * exists c. split; [done|]. apply token_char_word.
        -- apply Hshape. left.
        -- apply Hedge. left. by rewrite Ht.
    + destruct (last (Spec.chars t)) as [c|] eqn:Ht.
      * exists c. split; [done|]. apply token_char_word.
        -- apply Hshape. by apply last_Some_elem_of.
        -- apply Hedge. by right.
      * apply last_None in Ht. rewrite <- chars_length, Ht in Hlen.
        simpl in Hlen. lia.
    + intros c Hc. apply Hsep; [|by apply Hpre].
      rewrite Heq. apply elem_of_app. left. by apply last_Some_elem_of.
    + intros c Hc. apply Hsep; [|by apply Hpost].
      rewrite Heq. apply elem_of_app. right. apply elem_of_app. right.
      by apply head_Some_elem_of.
  - rewrite <- chars_length, Heq, length_app. lia.
Qed.

Lemma filter_length_le_sum {A} (P : A → Prop) `{!∀ x, Decision (P x)}
    (f : A → nat) (l : list A) :
  (∀ x, x ∈ l → P x → 1 ≤ f x) →
  length (filter P l) ≤ sum_list_with f l.
Proof.
  induction l as [|x l IH]; intros Hf; [done|].
  simpl. assert (IH' := IH (λ y Hy, Hf y (list_elem_of_further _ _ _ Hy))).
  destruct (decide (P x)) as [Hx|Hx].
  - rewrite filter_cons_True by done. simpl.
    pose proof (Hf x (list_elem_of_here _ _) Hx). lia.
  - rewrite filter_cons_False by done. lia.
Qed.

Lemma paperText_lower (p : Paper) : Str.toLowerCase (paperText p) = paperText p.
Proof. unfold paperText. apply toLowerCase_idem. Qed.

(** X25 — when no topic token starts or ends with a hyphen and the text
    of no paper has an underscore, every token a paper shares with the
    topic is found in its text as a whole word, so that the keyword hits
    of every bar are at least its relevance. *)
Theorem keywordHits_at_least_relevance (s : ResearchSession) (l : list Paper) :
  (∀ t, t ∈ tokenize (topicText s) → no_outer_hyphen t) →
  (∀ p, p ∈ l → no_underscore (paperText p)) →
  ∀ item, item ∈ metricsChartData (Some s) l →
    item_relevance item ≤ item_keywordHits item.
Proof.
  intros Hedge Hunder item Hitem.
  rewrite metricsChartData_items in Hitem. cbv zeta in Hitem.
  apply elem_of_lookup_imap_1 in Hitem as (i & r & -> & Hr).
  rewrite list_lookup_fmap in Hr.
  destruct (l !! i) as [p|] eqn:Hp; [|done]. injection Hr as <-.
  apply list_elem_of_lookup_2 in Hp. simpl.
  rewrite relevance_of_filter, keywordHits_of_sum.
  apply filter_length_le_sum. intros t Ht Hshared.
  apply shared_token_hit; [apply paperText_lower | by apply Hunder | | done].
  by apply Hedge.
Qed.

Lemma keywordHits_at_least_relevance_witness :
  let chart :=
    metricsChartData (Some Sample.session_plain)
      [Sample.paper_plain; Sample.paper_B] in
  item_relevance <$> chart = [4; 0]
  ∧ item_keywordHits <$> chart = [7; 0]
  ∧ ∀ item, item ∈ chart → item_relevance item ≤ item_keywordHits item.
Proof.
  intros chart.
  split; [vm_compute; reflexivity|]. split; [vm_compute; reflexivity|].
  apply (keywordHits_at_least_relevance Sample.session_plain
           [Sample.paper_plain; Sample.paper_B]).
  - intros t Ht.
    assert (Htokens : tokenize (topicText Sample.session_plain)
                      = ["deep"; "learning"; "neural"; "networks"])
      by (vm_compute; reflexivity).
    rewrite Htokens in Ht.
    repeat (apply elem_of_cons in Ht as [->|Ht]);
      [..|by apply elem_of_nil in Ht];
      intros c [Hc|Hc]; vm_compute in Hc; injection Hc as <-; reflexivity.
  - intros p Hp c Hc.
    assert (Hall : forallb
      (λ p, forallb (λ c, negb (Ascii.eqb c "_")) (Spec.chars (paperText p)))
      [Sample.paper_plain; Sample.paper_B] = true)
      by (vm_compute; reflexivity).
    rewrite forallb_forall in Hall. apply list_elem_of_In, Hall in Hp.
    rewrite forallb_forall in Hp. apply list_elem_of_In, Hp in Hc.
    apply negb_true_iff, Ascii.eqb_neq in Hc. exact Hc.
Defined.

(** Both conditions are needed: an underscore joins two words for the
    whole-word search but not for the tokens, and a hyphen at the end of a
    token is no word boundary. *)
Example underscore_and_hyphen_hide_hits :
  relevance (tokenize "deep learning") (tokenize "deep_learning") = 2
  ∧ keywordHits (tokenize "deep learning") "deep_learning" = 0
  ∧ relevance (tokenize "meta-") (tokenize "a meta- analysis") = 1
  ∧ keywordHits (tokenize "meta-") "a meta- analysis" = 0.
Proof. vm_compute. repeat split. Qed.

(** ** Keyword hits and whole-word occurrences *)

Lemma word_char_is_word (c : ascii) : Spec.word_char c = Char.is_word c.
Proof. reflexivity. Qed.

(** In a lower-cased text a code unit that equals a token character under
    the [i] flag is that character. *)
Lemma token_char_lower (c d : ascii) :
  Char.is_token_char c = true →
  Char.canonicalize c = Char.canonicalize (Char.toLowerCase d) →
  c = Char.toLowerCase d.
Proof.
  intros Hc Hcd.
  pose proof (forall_ascii
    (λ c, forallb
       (λ d, implb
          (Char.is_token_char c
           && bool_decide
                (Char.canonicalize c = Char.canonicalize (Char.toLowerCase d)))
          (Ascii.eqb c (Char.toLowerCase d))) Spec.all_ascii)) as Hall.
  specialize (Hall ltac:(vm_compute; reflexivity) c).
  pose proof (forall_ascii _ Hall d) as Hd. simpl in Hd.
  rewrite bool_decide_true, Hc in Hd by done. by apply Ascii.eqb_eq.
Qed.

Lemma literal_at_stands (t text : string) (i : nat) :
  Str.toLowerCase text = text →
  (∀ c, c ∈ Spec.chars t → Char.is_token_char c = true) →
  Regex.literal_at t text i = true →
  take (String.length t) (drop i (Spec.chars text)) = Spec.chars t.
Proof.
  intros Hlower. revert i. induction t as [|c t IH]; intros i Hshape Hlit.
  - done.
  - simpl in Hlit. rewrite get_lookup in Hlit.
    destruct (Spec.chars text !! i) as [d|] eqn:Hd; [|done].
    apply andb_true_iff in Hlit as [Hcd Hlit].
    apply bool_decide_eq_true in Hcd.
    assert (Hin : d ∈ Spec.chars text) by (by eapply list_elem_of_lookup_2).
    rewrite <- Hlower in Hin. apply chars_map in Hin as (d0 & _ & ->).
    apply token_char_lower in Hcd; [|apply Hshape; left].
    rewrite (drop_S _ _ _ Hd).
    change (Spec.chars (String c t)) with (c :: Spec.chars t).
    simpl. rewrite Hcd. f_equal. apply IH; [|done].
    intros c' Hc'. apply Hshape. by right.
Qed.

Lemma stands_literal (t text : string) (i : nat) :
  t ≠ "" →
  take (String.length t) (drop i (Spec.chars text)) = Spec.chars t →
  Regex.literal_at t text i = true.
Proof.
  intros Hne Hstands.
  assert (Hi : i < length (Spec.chars text)).
  { destruct (decide (i < length (Spec.chars text))) as [|Hge]; [done|].
    rewrite drop_ge, take_nil in Hstands by lia.
    destruct t; [done | discriminate Hstands]. }
  replace i with (length (take i (Spec.chars text)))
    by (rewrite length_take; lia).
  apply (literal_at_here t text _ (drop (String.length t) (drop i (Spec.chars text)))).
  rewrite <- Hstands at 1. by rewrite !take_drop.
Qed.

(** For a token without a hyphen the pattern matches exactly where the
    token occurs as a whole word. *)
Lemma matches_at_occurs (t text : string) (i : nat) :
  Str.toLowerCase text = text → Spec.token_shape t → Spec.hyphen_free t →
  Regex.matches_at t text i = Spec.occurs_at t text i.
Proof.
  intros Hlower [Hlen Hshape] Hfree.
  assert (Hne : t ≠ "") by (intros ->; simpl in Hlen; lia).
  unfold Regex.matches_at, Spec.occurs_at, Spec.stands_at.
  destruct (Regex.literal_at t text i) eqn:Hlit.
  - rewrite bool_decide_true by (by apply literal_at_stands).
    rewrite andb_true_r. simpl. f_equal.
    + unfold Regex.word_boundary, Spec.before, Spec.word_ends.
      rewrite (literal_at_word t text i i Hfree Hlit) by lia.
      destruct i as [|j]; [done|]. rewrite is_word_at_lookup.
      destruct (Spec.chars text !! j); [|done].
      by rewrite xorb_true_r.
    + unfold Regex.word_boundary, Spec.word_ends.
      replace (i + String.length t) with (S (i + String.length t - 1)) at 1
        by lia.
      rewrite (literal_at_word t text i (i + String.length t - 1) Hfree Hlit)
        by lia.
      rewrite is_word_at_lookup.
      by destruct (Spec.chars text !! (i + String.length t)).
  - rewrite andb_false_r. simpl. symmetry.
    rewrite bool_decide_false; [done|].
    intros Hstands. by rewrite (stands_literal t text i Hne Hstands) in Hlit.
Qed.

Lemma match_all_occurrences (t text : string) :
  Str.toLowerCase text = text → Spec.token_shape t → Spec.hyphen_free t →
  Regex.match_all t text = Spec.occurrences t text.
Proof.
  intros Hlower Hshape Hfree. rewrite match_all_hyphen_free by done.
  unfold Scan.match_indices, Spec.occurrences, Spec.occurrence_indices.
  f_equal. apply list_filter_iff. intros i. unfold Scan.match_at.
  by rewrite matches_at_occurs.
Qed.

(** C4 — the keyword hits of a bar are the total number of occurrences of
    the topic tokens as whole words in the paper's text whenever no topic
    token has a hyphen.  With hyphens the count falls short: a token that
    ends in a hyphen is never found before a space ("pre-" in "pre- and
    post-operative care": three occurrences, two hits), and of two
    occurrences that overlap only the first is counted ("end-to-end" in
    "end-to-end-to-end": two occurrences, one hit); and a token between
    two hyphens is found inside a longer word ("-test-" in "a-test-b": no
    occurrence, one hit). *)
Theorem keywordHits_misses_hyphenated_tokens :
  (∀ s l,
     (∀ t, t ∈ tokenize (topicText s) → Spec.hyphen_free t) →
     item_keywordHits <$> metricsChartData (Some s) l
     = (λ p, Spec.total_occurrences (tokenize (topicText s)) (paperText p))
       <$> l)
  ∧ (tokenize (topicText Sample.session_care)
     = ["pre-"; "post-operative"; "care"]
     ∧ Spec.total_occurrences (tokenize (topicText Sample.session_care))
         (paperText Sample.paper_care) = 3
     ∧ item_keywordHits <$>
         metricsChartData (Some Sample.session_care) [Sample.paper_care]
       = [2])
  ∧ (tokenize (topicText Sample.session_e2e) = ["end-to-end"]
     ∧ Spec.occurrence_indices "end-to-end" (paperText Sample.paper_e2e)
       = [0; 7]
     ∧ item_keywordHits <$>
         metricsChartData (Some Sample.session_e2e) [Sample.paper_e2e]
       = [1])
  ∧ (Spec.total_occurrences (tokenize "-test-") "a-test-b" = 0
     ∧ keywordHits (tokenize "-test-") "a-test-b" = 1).
Proof.
  split; [|split; [|split]; vm_compute; repeat split].
  intros s l Hfree.
  rewrite (metricsChartData_field item_keywordHits raw_keywordHits) by done.
  apply list_fmap_ext. intros k p _. simpl.
  rewrite keywordHits_of_sum. unfold Spec.total_occurrences.
  apply sum_list_with_ext_in. intros t Ht.
  apply match_all_occurrences;
    [apply paperText_lower | by eapply tokenize_token_chars | by apply Hfree].
Qed.

Lemma keywordHits_misses_hyphenated_tokens_witness :
  (∀ t, t ∈ tokenize (topicText Sample.session_plain) → Spec.hyphen_free t)
  ∧ item_keywordHits <$>
      metricsChartData (Some Sample.session_plain) [Sample.paper_plain]
    = [7]
  ∧ Spec.total_occurrences (tokenize (topicText Sample.session_plain))
      (paperText Sample.paper_plain) = 7.
Proof.
  assert (Hfree : ∀ t, t ∈ tokenize (topicText Sample.session_plain) →
                       Spec.hyphen_free t).
  { intros t Ht c Hc.
    assert (Hall : forallb (λ t, forallb Char.is_word (Spec.chars t))
                     (tokenize (topicText Sample.session_plain)) = true)
      by (vm_compute; reflexivity).
    rewrite forallb_forall in Hall. apply list_elem_of_In, Hall in Ht.
    rewrite forallb_forall in Ht. by apply Ht, list_elem_of_In. }
  split; [exact Hfree|].
  pose proof (proj1 keywordHits_misses_hyphenated_tokens
                Sample.session_plain [Sample.paper_plain] Hfree) as Heq.
  assert (Hspec : Spec.total_occurrences
                    (tokenize (topicText Sample.session_plain))
                    (paperText Sample.paper_plain) = 7)
    by (vm_compute; reflexivity).
  split; [|exact Hspec]. rewrite Heq.
  exact (f_equal (λ n, [n]) Hspec).
Defined.
